(** * Verification of the sigil generator and the frequency mapper

    A shallow embedding of [terra_gaia/translator/sigil.py] and
    [terra_gaia/translator/frequency.py].

    Conventions of the embedding.
    - A Python [str] is the list of its Unicode code points ([list Z]);
      [lit] turns an ASCII literal into such a list.
    - A Python [bytes] value is a list of integers in [0,255].
    - A Python [float] is an IEEE-754 binary64 number ([PrimFloat.float]),
      with the operations rounded as the hardware rounds them.
    - A raised exception is the [Err] branch of [result]. *)

From Stdlib Require Import ZArith List Bool Lia String Ascii QArith Lqa Floats Uint63.
From stdpp Require Import base option list gmap.
Import ListNotations.

Set Warnings "-inexact-float".
Local Open Scope Z_scope.

(** ** Python values *)

(** A Python string: its code points, in order. *)
Abbreviation str := (list Z) (only parsing).

(** An ASCII literal as a Python string. *)
Definition lit (s : string) : str :=
  map (fun a => Z.of_nat (nat_of_ascii a)) (list_ascii_of_string s).

(** The exceptions the modelled code can raise. [ValueError] carries its
    message; [UnicodeEncodeError] is the error of [str.encode] on a code
    point that UTF-8 cannot carry; [KeyError] is a failed subscript of a
    dict; [OverflowError] and [MemoryError] are what Pillow's C layer
    raises on an image size that is no C [int], or whose lines are too
    long for it. *)
Inductive exn : Type :=
| ValueError (msg : str)
| UnicodeEncodeError (position : nat)
| KeyError (key : str)
| OverflowError (msg : str)
| MemoryError.

Inductive result (A : Type) : Type :=
| Ok (a : A)
| Err (e : exn).
Arguments Ok {A} a.
Arguments Err {A} e.

(** Sequencing: an exception aborts what follows. *)
#[global] Instance result_ret : MRet result := fun _ a => Ok a.
#[global] Instance result_bind : MBind result := fun _ _ k r =>
  match r with
  | Ok a => k a
  | Err e => Err e
  end.

(** ** [str.encode()]: UTF-8 *)

Module UTF8.

Definition is_surrogate (c : Z) : bool := (0xD800 <=? c) && (c <=? 0xDFFF).

(** Bytes of one code point; [None] where the codec refuses it (a lone
    surrogate, or a number that is no code point at all). *)
Definition encode_char (c : Z) : option (list Z) :=
  if c <? 0 then None
  else if c <? 0x80 then Some [c]
  else if c <? 0x800 then Some [0xC0 + c / 64; 0x80 + c mod 64]
  else if c <? 0x10000 then
    if is_surrogate c then None
    else Some [0xE0 + c / 4096; 0x80 + (c / 64) mod 64; 0x80 + c mod 64]
  else if c <? 0x110000 then
    Some [0xF0 + c / 262144; 0x80 + (c / 4096) mod 64;
          0x80 + (c / 64) mod 64; 0x80 + c mod 64]
  else None.

(** [encode_from i s] encodes [s], whose first code point sits at index
    [i] of the whole string. *)
Fixpoint encode_from (i : nat) (s : str) : result (list Z) :=
  match s with
  | [] => Ok []
  | c :: rest =>
      match encode_char c with
      | None => Err (UnicodeEncodeError i)
      | Some bs => tl ← encode_from (S i) rest; Ok (bs ++ tl)
      end
  end.

Definition encode (s : str) : result (list Z) := encode_from 0 s.

(** A string [str.encode] accepts. *)
Definition encodable (s : str) : Prop :=
  Forall (fun c => encode_char c <> None) s.

End UTF8.

(** ** [hashlib.sha256]: FIPS 180-4 on 32-bit words held in [Z] *)

Module SHA256.

Definition wrap (x : Z) : Z := x mod 2 ^ 32.
Definition add32 (x y : Z) : Z := wrap (x + y).
Definition rotr (n x : Z) : Z :=
  wrap (Z.lor (Z.shiftr x n) (Z.shiftl x (32 - n))).
Definition shr (n x : Z) : Z := Z.shiftr x n.
Definition not32 (x : Z) : Z := 2 ^ 32 - 1 - x.

Definition Ch (x y z : Z) : Z := Z.lxor (Z.land x y) (Z.land (not32 x) z).
Definition Maj (x y z : Z) : Z :=
  Z.lxor (Z.lxor (Z.land x y) (Z.land x z)) (Z.land y z).
Definition Sigma0 (x : Z) : Z := Z.lxor (Z.lxor (rotr 2 x) (rotr 13 x)) (rotr 22 x).
Definition Sigma1 (x : Z) : Z := Z.lxor (Z.lxor (rotr 6 x) (rotr 11 x)) (rotr 25 x).
Definition sigma0 (x : Z) : Z := Z.lxor (Z.lxor (rotr 7 x) (rotr 18 x)) (shr 3 x).
Definition sigma1 (x : Z) : Z := Z.lxor (Z.lxor (rotr 17 x) (rotr 19 x)) (shr 10 x).

(** The round constants are the first 32 fractional bits of the cube
    roots of the first 64 primes, the initial state those of the square
    roots of the first 8; both are computed here rather than listed. *)
Fixpoint is_prime_by (fuel : nat) (d n : Z) : bool :=
  match fuel with
  | O => true
  | S f => if n <? d * d then true
           else if n mod d =? 0 then false
           else is_prime_by f (d + 1) n
  end.

Definition primes_below (bound : nat) : list Z :=
  filter (fun n => is_prime_by 20 2 n)
         (map (fun k => Z.of_nat k + 2) (seq 0 (bound - 2))).

(** Largest [r < 2 ^ bits] (plus [acc]) whose cube does not exceed [n]. *)
Fixpoint icbrt (bits : nat) (n acc : Z) : Z :=
  match bits with
  | O => acc
  | S b =>
      let c := acc + 2 ^ Z.of_nat b in
      if c * c * c <=? n then icbrt b n c else icbrt b n acc
  end.

Definition K : list Z :=
  Eval vm_compute in
    map (fun p => wrap (icbrt 40 (p * 2 ^ 96) 0)) (primes_below 312).

Definition H0 : list Z :=
  Eval vm_compute in
    map (fun p => wrap (Z.sqrt (p * 2 ^ 64))) (primes_below 20).

(** Padding: a [0x80] byte, zeros up to 56 modulo 64, then the bit
    length as 8 big-endian bytes. *)
Definition be_bytes (count : nat) (x : Z) : list Z :=
  map (fun i => (x / 2 ^ (8 * Z.of_nat i)) mod 256) (rev (seq 0 count)).

Definition pad (msg : list Z) : list Z :=
  let len := Z.of_nat (length msg) in
  let zeros := Z.to_nat ((55 - len) mod 64) in
  msg ++ [0x80] ++ repeat 0 zeros ++ be_bytes 8 (8 * len).

Definition be_word (bs : list Z) : Z :=
  fold_left (fun acc b => acc * 256 + b) bs 0.

(** [n] groups of [size] items each. *)
Fixpoint chunks {A : Type} (size n : nat) (l : list A) : list (list A) :=
  match n with
  | O => []
  | S k => firstn size l :: chunks size k (skipn size l)
  end.

Definition words_of_block (block : list Z) : list Z :=
  map be_word (chunks 4 16 block).

(** The message schedule: [w] holds the latest words, newest first. *)
Fixpoint extend (count : nat) (w : list Z) : list Z :=
  match count with
  | O => w
  | S k =>
      let nxt :=
        add32 (add32 (sigma1 (nth 1 w 0)) (nth 6 w 0))
              (add32 (sigma0 (nth 14 w 0)) (nth 15 w 0)) in
      extend k (nxt :: w)
  end.

Definition schedule (block : list Z) : list Z :=
  rev (extend 48 (rev (words_of_block block))).

Record state : Type := State {
  sa : Z; sb : Z; sc : Z; sd : Z; se : Z; sf : Z; sg : Z; sh : Z
}.

Definition round (s : state) (kw : Z * Z) : state :=
  let t1 := add32 (add32 (add32 (sh s) (Sigma1 (se s)))
                         (add32 (Ch (se s) (sf s) (sg s)) (fst kw)))
                  (snd kw) in
  let t2 := add32 (Sigma0 (sa s)) (Maj (sa s) (sb s) (sc s)) in
  State (add32 t1 t2) (sa s) (sb s) (sc s) (add32 (sd s) t1) (se s) (sf s) (sg s).

Definition compress (s : state) (block : list Z) : state :=
  let r := fold_left round (combine K (schedule block)) s in
  State (add32 (sa s) (sa r)) (add32 (sb s) (sb r)) (add32 (sc s) (sc r))
        (add32 (sd s) (sd r)) (add32 (se s) (se r)) (add32 (sf s) (sf r))
        (add32 (sg s) (sg r)) (add32 (sh s) (sh r)).

Definition init : state :=
  State (nth 0 H0 0) (nth 1 H0 0) (nth 2 H0 0) (nth 3 H0 0)
        (nth 4 H0 0) (nth 5 H0 0) (nth 6 H0 0) (nth 7 H0 0).

Definition word_bytes (x : Z) : list Z :=
  [(x / 2 ^ 24) mod 256; (x / 2 ^ 16) mod 256; (x / 2 ^ 8) mod 256; x mod 256].

Definition state_bytes (s : state) : list Z :=
  word_bytes (sa s) ++ word_bytes (sb s) ++ word_bytes (sc s) ++
  word_bytes (sd s) ++ word_bytes (se s) ++ word_bytes (sf s) ++
  word_bytes (sg s) ++ word_bytes (sh s).

(** [hashlib.sha256(msg).digest()] *)
Definition digest (msg : list Z) : list Z :=
  let padded := pad msg in
  state_bytes
    (fold_left compress (chunks 64 (length padded / 64) padded) init).

(** Hexadecimal form of a byte string, to compare with published
    vectors. *)
Definition hex_digit (d : Z) : ascii :=
  ascii_of_nat (Z.to_nat (if d <? 10 then 48 + d else 87 + d)).

Definition hexdigest (msg : list Z) : string :=
  string_of_list_ascii
    (flat_map (fun b => [hex_digit (b / 16); hex_digit (b mod 16)]) (digest msg)).

End SHA256.

(** ** Python arithmetic on [int] and [float] *)

Module Py.

(** [float(n)] for an [int] of magnitude below [2 ^ 63]. *)
Definition float_of_int (n : Z) : float :=
  if 0 <=? n then PrimFloat.of_uint63 (Uint63.of_Z n)
  else (- PrimFloat.of_uint63 (Uint63.of_Z (- n)))%float.

(** [math.pi] and the factor of [math.radians]. *)
Definition pi : float := 0x1.921fb54442d18p+1%float.
Definition radians (x : float) : float := (x * (pi / 180))%float.

(** [a / b] on two [int]s of small magnitude: the quotient as a float. *)
Definition truediv (a b : Z) : float := (float_of_int a / float_of_int b)%float.

(** [range(n)] *)
Definition range (n : Z) : list Z := map Z.of_nat (seq 0 (Z.to_nat n)).

End Py.

(** ** The tables of [SigilGenerator] *)

Definition rgb : Type := Z * Z * Z.

Record Palette : Type := {
  primary : rgb;
  secondary : rgb;
  accent : rgb;
  background : rgb
}.

Definition FREQUENCY_MAP_items : list (str * str) :=
  [ (lit "396 Hz", lit "root");
    (lit "417 Hz", lit "sacral");
    (lit "528 Hz", lit "solar_plexus");
    (lit "639 Hz", lit "heart");
    (lit "741 Hz", lit "throat");
    (lit "852 Hz", lit "third_eye");
    (lit "963 Hz", lit "crown")
  ].

Definition FREQUENCY_MAP : gmap str str := list_to_map FREQUENCY_MAP_items.

Definition COLOR_PALETTES_items : list (str * Palette) :=
  [ (lit "root",
     {| primary := (196, 30, 58); secondary := (139, 0, 0);
        accent := (255, 69, 0); background := (20, 10, 10) |});
    (lit "sacral",
     {| primary := (255, 140, 0); secondary := (255, 165, 0);
        accent := (255, 215, 0); background := (20, 15, 5) |});
    (lit "solar_plexus",
     {| primary := (255, 215, 0); secondary := (255, 255, 0);
        accent := (255, 250, 205); background := (20, 20, 5) |});
    (lit "heart",
     {| primary := (0, 128, 0); secondary := (34, 139, 34);
        accent := (144, 238, 144); background := (5, 15, 5) |});
    (lit "throat",
     {| primary := (0, 191, 255); secondary := (30, 144, 255);
        accent := (135, 206, 250); background := (5, 10, 20) |});
    (lit "third_eye",
     {| primary := (75, 0, 130); secondary := (138, 43, 226);
        accent := (147, 112, 219); background := (10, 5, 20) |});
    (lit "crown",
     {| primary := (138, 43, 226); secondary := (148, 0, 211);
        accent := (218, 112, 214); background := (15, 5, 20) |})
  ].

Definition COLOR_PALETTES : gmap str Palette := list_to_map COLOR_PALETTES_items.

(** The seven categories, in the order of the palette table. *)
Definition categories : list str :=
  [lit "root"; lit "sacral"; lit "solar_plexus"; lit "heart"; lit "throat";
   lit "third_eye"; lit "crown"].

(** ** [SigilGenerator._calculate_variations] *)

Record Variations : Type := {
  rotation_offset : float;
  layer_count : Z;
  ray_count : Z;
  line_weight : Z;
  scale_factor : float
}.

(** [hash_bytes[i]]; the digest has 32 bytes, so the five subscripts of
    the source are in range. *)
Definition byte_at (hash_bytes : list Z) (i : nat) : Z := nth i hash_bytes 0.

(** What [_calculate_variations] makes of the digest. *)
Definition variations_of_digest (hash_bytes : list Z) : Variations :=
  let rotation_offset :=
    (Py.float_of_int (byte_at hash_bytes 0) / 255.0 * 360)%float in
  let layer_count := 3 + byte_at hash_bytes 1 mod 5 in
  let ray_count := 6 + byte_at hash_bytes 2 mod 7 in
  let line_weight := 1 + byte_at hash_bytes 3 mod 5 in
  let scale_factor :=
    (0.7 + Py.float_of_int (byte_at hash_bytes 4) / 255.0 * 0.6)%float in
  {| rotation_offset := rotation_offset;
     layer_count := layer_count;
     ray_count := ray_count;
     line_weight := line_weight;
     scale_factor := scale_factor |}.

Definition _calculate_variations (solver_id : str) : result Variations :=
  encoded ← UTF8.encode solver_id;
  let hash_bytes := SHA256.digest encoded in
  Ok (variations_of_digest hash_bytes).

(** Python's [==] on two such dicts: field by field, floats by their
    numeric comparison. *)
Definition variations_eqb (a b : Variations) : bool :=
  PrimFloat.eqb (rotation_offset a) (rotation_offset b)
  && (layer_count a =? layer_count b)
  && (ray_count a =? ray_count b)
  && (line_weight a =? line_weight b)
  && PrimFloat.eqb (scale_factor a) (scale_factor b).

(** ** [pathlib.PurePosixPath]: parsing, [parent] and [str] *)

Module Pathlib.

Definition slash : Z := 47.
Definition dot : Z := 46.

Record PurePath : Type := { root : str; parts : list str }.

(** [s.split("/")], with [cur] the component being read, reversed. *)
Fixpoint split (s cur : str) : list str :=
  match s with
  | [] => [rev cur]
  | c :: rest =>
      if c =? slash then rev cur :: split rest []
      else split rest (c :: cur)
  end.

Fixpoint leading_slashes (s : str) : nat :=
  match s with
  | c :: rest => if c =? slash then S (leading_slashes rest) else O
  | [] => O
  end.

(** One or three and more leading slashes make the root [/]; exactly two
    are kept. *)
Definition root_of (s : str) : str :=
  match leading_slashes s with
  | 0%nat => []
  | 2%nat => [slash; slash]
  | _ => [slash]
  end.

Definition keep (component : str) : bool :=
  negb (bool_decide (component = [])) && negb (bool_decide (component = [dot])).

(** [Path(s)] *)
Definition Path (s : str) : PurePath :=
  {| root := root_of s; parts := List.filter keep (split s []) |}.

Fixpoint join (l : list str) : str :=
  match l with
  | [] => []
  | [x] => x
  | x :: rest => x ++ slash :: join rest
  end.

(** [str(p)] *)
Definition to_str (p : PurePath) : str :=
  match root p, parts p with
  | [], [] => [dot]
  | r, ps => r ++ join ps
  end.

(** [p.parent] *)
Definition parent (p : PurePath) : PurePath :=
  match parts p with
  | [] => p
  | _ => {| root := root p; parts := removelast (parts p) |}
  end.

(** A component as [Path] keeps them: not empty, not [.], and without a
    slash. *)
Definition no_slash (x : str) : Prop := Forall (fun c => c <> slash) x.
Definition component (x : str) : Prop := keep x = true /\ no_slash x.

(** The paths [Path] builds. *)
Definition normal (p : PurePath) : Prop :=
  (root p = [] \/ root p = [slash] \/ root p = [slash; slash]) /\
  Forall component (parts p).

End Pathlib.

(** ** The calls into Pillow and the file system *)

(** A point of the canvas: given outright, or as
    [(cx + r * cos theta, cy + r * sin theta)], [theta] in radians. The
    trigonometric functions are the C library's, so a point on a circle
    is kept by its centre, radius and angle. *)
Inductive point : Type :=
| At (x y : Z)
| Polar (cx cy : Z) (r theta : float).

(** The bounding box [[x - half, y - half, x + half, y + half]] around
    the point [(x, y)]. *)
Record box : Type := { centre : point; half : float }.

Inductive call : Type :=
| PathMkdir (p : Pathlib.PurePath) (parents exist_ok : bool)
| ImageNew (mode : str) (size : Z * Z) (color : rgb)
| ImageDrawDraw
| DrawPolygon (points : list point) (outline : rgb) (width : Z)
| DrawLine (xy : list point) (fill : rgb) (width : Z)
| DrawEllipse (bbox : box) (outline : rgb) (width : Z)
| DrawArc (bbox : box) (start stop : float) (fill : rgb) (width : Z)
| ImageSave (fp : str).

Definition is_draw (c : call) : bool :=
  match c with
  | DrawPolygon _ _ _ | DrawLine _ _ _ | DrawEllipse _ _ _ | DrawArc _ _ _ _ _ => true
  | _ => false
  end.

(** ** The generator object *)

Record SigilGenerator : Type := {
  frequency : option str;
  wound : str;
  solver_id : str;
  colors : Palette;
  variations : Variations
}.

(** [str.lower] on ASCII: the capital letters move to the small ones. *)
Definition ascii_lower (s : str) : str :=
  map (fun c => if (65 <=? c) && (c <=? 90) then c + 32 else c) s.

Definition is_ascii (s : str) : Prop := Forall (fun c => 0 <= c < 128) s.

(** ** Methods: a state and exception monad

    A method runs on the object it was called on and on the world around
    it. [world] is whatever the environment keeps (files, the canvas);
    [trace] lists the calls that returned, oldest first. An exception
    leaves the state as it was when raised. *)

Section Methods.

Context {W : Type}.

(** The environment: what a call into Pillow or the file system does
    to the world, or the exception it raises. *)
Variable perform : call -> W -> result W.

Record heap : Type := { self : SigilGenerator; world : W; trace : list call }.

Definition M (A : Type) : Type := heap -> result A * heap.

#[local] Instance M_ret : MRet M := fun _ a h => (Ok a, h).
#[local] Instance M_bind : MBind M := fun _ _ k m h =>
  match m h with
  | (Ok a, h') => k a h'
  | (Err e, h') => (Err e, h')
  end.

Definition get_self : M SigilGenerator := fun h => (Ok (self h), h).

Definition do_call (c : call) : M unit := fun h =>
  match perform c (world h) with
  | Ok w' => (Ok tt, {| self := self h; world := w'; trace := trace h ++ [c] |})
  | Err e => (Err e, h)
  end.

(** [for x in xs: body(x)] *)
Fixpoint for_each {A : Type} (xs : list A) (body : A -> M unit) : M unit :=
  match xs with
  | [] => mret tt
  | x :: rest => body x ≫= fun _ => for_each rest body
  end.

(** The colour of layer [i] in the three named geometries. *)
Definition layer_color (c : Palette) (i : Z) : rgb :=
  if i =? 0 then primary c
  else if i mod 2 =? 0 then secondary c
  else accent c.

Definition _draw_root_geometry (center : Z * Z) (size : Z) : M unit :=
  g ← get_self;
  let '(cx, cy) := center in
  let scale := (Py.float_of_int size * scale_factor (variations g))%float in
  let rotation := rotation_offset (variations g) in
  for_each (Py.range (layer_count (variations g))) (fun i =>
    let layer_size := (scale * (1 - Py.float_of_int i * 0.2))%float in
    let angle_offset := (rotation + Py.float_of_int (i * 15))%float in
    let points :=
      map (fun j =>
             let angle := Py.radians (angle_offset + Py.float_of_int (j * 90)) in
             Polar cx cy layer_size angle)
          (Py.range 4) in
    let color := layer_color (colors g) i in
    do_call (DrawPolygon points color (line_weight (variations g))));;
  for_each (Py.range (ray_count (variations g))) (fun i =>
    let angle :=
      Py.radians (rotation + 360 / Py.float_of_int (ray_count (variations g))
                             * Py.float_of_int i) in
    do_call (DrawLine [At cx cy; Polar cx cy (scale * 1.3) angle]
                      (accent (colors g)) (line_weight (variations g)))).

Definition _draw_sacral_geometry (center : Z * Z) (size : Z) : M unit :=
  g ← get_self;
  let '(cx, cy) := center in
  let scale := (Py.float_of_int size * scale_factor (variations g))%float in
  let rotation := rotation_offset (variations g) in
  for_each (Py.range (layer_count (variations g))) (fun i =>
    let radius := (scale * (1 - Py.float_of_int i * 0.18))%float in
    let color := layer_color (colors g) i in
    let bbox := {| centre := At cx cy; half := radius |} in
    do_call (DrawEllipse bbox color (line_weight (variations g))));;
  for_each (Py.range (ray_count (variations g))) (fun i =>
    let angle :=
      Py.radians (rotation + 360 / Py.float_of_int (ray_count (variations g))
                             * Py.float_of_int i) in
    let curve_radius := (scale * 0.3)%float in
    let bbox := {| centre := Polar cx cy (scale * 0.8) angle;
                   half := curve_radius |} in
    do_call (DrawArc bbox (angle * 180 / Py.pi) (angle * 180 / Py.pi + 180)
                     (accent (colors g)) (line_weight (variations g)))).

Definition _draw_solar_plexus_geometry (center : Z * Z) (size : Z) : M unit :=
  g ← get_self;
  let '(cx, cy) := center in
  let scale := (Py.float_of_int size * scale_factor (variations g))%float in
  let rotation := rotation_offset (variations g) in
  for_each (Py.range (layer_count (variations g))) (fun i =>
    let layer_size := (scale * (1 - Py.float_of_int i * 0.2))%float in
    let angle_offset := (rotation + Py.float_of_int (i * 20))%float in
    let points :=
      map (fun j =>
             let angle := Py.radians (angle_offset + Py.float_of_int (j * 120)) in
             Polar cx cy layer_size angle)
          (Py.range 3) in
    let color := layer_color (colors g) i in
    do_call (DrawPolygon points color (line_weight (variations g))));;
  for_each (Py.range (ray_count (variations g) * 2)) (fun i =>
    let angle :=
      Py.radians (rotation + 360 / Py.float_of_int (ray_count (variations g) * 2)
                             * Py.float_of_int i) in
    let '(ray_length, color) :=
      if i mod 2 =? 0 then ((scale * 1.4)%float, primary (colors g))
      else ((scale * 1.1)%float, accent (colors g)) in
    do_call (DrawLine [At cx cy; Polar cx cy ray_length angle]
                      color (line_weight (variations g)))).

(** [generate(output_path, image_size)]; the caller passes 512 where the
    source lets the size default. *)
Definition generate (output_path : str) (image_size : Z) : M str :=
  g ← get_self;
  let output_file := Pathlib.Path output_path in
  do_call (PathMkdir (Pathlib.parent output_file) true true);;
  do_call (ImageNew (lit "RGB") (image_size, image_size) (background (colors g)));;
  do_call ImageDrawDraw;;
  let center := (image_size / 2, image_size / 2) in
  let geometry_size := image_size / 3 in
  (if decide (wound g = lit "root") then
     _draw_root_geometry center geometry_size
   else if decide (wound g = lit "sacral") then
     _draw_sacral_geometry center geometry_size
   else if decide (wound g = lit "solar_plexus") then
     _draw_solar_plexus_geometry center geometry_size
   else
     for_each (Py.range (layer_count (variations g))) (fun i =>
       let radius :=
         (Py.float_of_int geometry_size * (1 - Py.float_of_int i * 0.2))%float in
       let color :=
         if i mod 2 =? 0 then primary (colors g) else secondary (colors g) in
       let bbox := {| centre := At (fst center) (snd center); half := radius |} in
       do_call (DrawEllipse bbox color (line_weight (variations g)))));;
  do_call (ImageSave (Pathlib.to_str output_file));;
  mret (Pathlib.to_str output_file).

Definition default_image_size : Z := 512.

End Methods.

(** ** The constructor *)

Section Constructor.

(** [str.lower]. Its case tables are the interpreter's; the
    constructor is modelled for any such function. *)
Variable str_lower : str -> str.

Definition unsupported (wound : str) : exn :=
  ValueError (lit "Unsupported wound type: " ++ wound).

(** Lines 89 to 99 of [__init__]: the value [self.wound] holds once the
    validation is over, or the exception raised. *)
Definition resolve_wound (frequency : option str) (wound : str) : result str :=
  let self_wound := str_lower wound in
  match COLOR_PALETTES !! self_wound with
  | Some _ => Ok self_wound
  | None =>
      match frequency with
      | Some f =>
          match FREQUENCY_MAP !! f with
          | Some mapped => Ok mapped
          | None => Err (unsupported wound)
          end
      | None => Err (unsupported wound)
      end
  end.

(** [SigilGenerator(frequency, wound, solver_id)]; [frequency] is [None]
    where the caller passes Python's [None]. *)
Definition __init__ (frequency : option str) (wound solver_id : str)
  : result SigilGenerator :=
  self_wound ← resolve_wound frequency wound;
  self_colors ←
    match COLOR_PALETTES !! self_wound with
    | Some c => Ok c
    | None => Err (KeyError self_wound)
    end;
  self_variations ← _calculate_variations solver_id;
  Ok {| frequency := frequency;
        wound := self_wound;
        solver_id := solver_id;
        colors := self_colors;
        variations := self_variations |}.

End Constructor.

(** ** A reference environment

    Pillow, from version 9.5 on, and a POSIX file system, as far as the
    call alone decides the answer. The environment keeps no state: what
    depends on the machine (permissions, a file in the way of a
    directory, disk space, the memory an image of a side below [2 ^ 29]
    needs) or on the canvas (Pillow does not save an image of side 0) is
    outside it. The theorems on [generate] take their environment as a
    parameter; this one is where they are tried. *)

(** A NUL in a path: the operating system takes no such path, and
    [os.mkdir] and [open] raise [ValueError]. *)
Definition nul_in (s : str) : bool := existsb (Z.eqb 0) s.

Definition has_nul (p : Pathlib.PurePath) : bool :=
  existsb nul_in (Pathlib.parts p).

(** [os.path.splitext(path)[1]]: the last component of the path from
    its last dot on, where something other than dots comes before that
    dot; the empty string otherwise. *)
Fixpoint last_dot_suffix (s : str) : option str :=
  match s with
  | [] => None
  | c :: rest =>
      match last_dot_suffix rest with
      | Some e => Some e
      | None => if c =? Pathlib.dot then Some (c :: rest) else None
      end
  end.

Fixpoint skip_dots (s : str) : str :=
  match s with
  | c :: rest => if c =? Pathlib.dot then skip_dots rest else s
  | [] => []
  end.

Definition splitext_ext (path : str) : str :=
  match skip_dots (List.last (Pathlib.split path []) []) with
  | [] => []
  | _ :: rest => default [] (last_dot_suffix rest)
  end.

(** The extensions [Image.save] finds a writer for, in this
    environment: those of PNG, JPEG, BMP, GIF and TIFF. A Pillow with
    more plugins knows more. *)
Definition registered_extensions : list str :=
  [lit ".png"; lit ".jpg"; lit ".jpeg"; lit ".bmp"; lit ".gif"; lit ".tif";
   lit ".tiff"].

(** The box [[x - half, y - half, x + half, y + half]] as the source
    computes it, in floats, from an integer centre: Pillow refuses it
    when [x1 < x0], then when [y1 < y0]. Of a box around a point kept in
    polar form the edges are not computed here; it is taken as inverted
    when its half-width is negative. *)
Definition edges_inverted (x : Z) (half : float) : bool :=
  PrimFloat.ltb (Py.float_of_int x + half) (Py.float_of_int x - half).

Definition inverted_x (bbox : box) : bool :=
  match centre bbox with
  | At x _ => edges_inverted x (half bbox)
  | Polar _ _ _ _ => PrimFloat.ltb (half bbox) 0
  end.

Definition inverted_y (bbox : box) : bool :=
  match centre bbox with
  | At _ y => edges_inverted y (half bbox)
  | Polar _ _ _ _ => false
  end.

(** A call with a box Pillow refuses. *)
Definition inverted (c : call) : bool :=
  match c with
  | DrawEllipse bbox _ _ | DrawArc bbox _ _ _ _ => inverted_x bbox || inverted_y bbox
  | _ => false
  end.

(** A side of an image as a C [int], then as the width of a line of
    four-byte pixels. *)
Definition c_int (n : Z) : result unit :=
  if 2 ^ 63 <=? n
  then Err (OverflowError (lit "Python int too large to convert to C long"))
  else if 2 ^ 31 <=? n
  then Err (OverflowError (lit "signed integer is greater than maximum"))
  else Ok tt.

Definition pillow (c : call) (w : unit) : result unit :=
  match c with
  | PathMkdir p _ _ =>
      if has_nul p then Err (ValueError (lit "embedded null byte")) else Ok tt
  | ImageNew _ (width, height) _ =>
      if (width <? 0) || (height <? 0)
      then Err (ValueError (lit "Width and height must be >= 0"))
      else
        c_int width;; c_int height;;
        if (2 ^ 31 - 1) / 4 - 1 <? width then Err MemoryError else Ok tt
  | ImageDrawDraw | DrawPolygon _ _ _ | DrawLine _ _ _ => Ok tt
  | DrawEllipse bbox _ _ | DrawArc bbox _ _ _ _ =>
      if inverted_x bbox
      then Err (ValueError (lit "x1 must be greater than or equal to x0"))
      else if inverted_y bbox
      then Err (ValueError (lit "y1 must be greater than or equal to y0"))
      else Ok tt
  | ImageSave fp =>
      let ext := ascii_lower (splitext_ext fp) in
      if bool_decide (ext ∈ registered_extensions)
      then if nul_in fp then Err (ValueError (lit "embedded null byte")) else Ok tt
      else Err (ValueError (lit "unknown file extension: " ++ ext))
  end.


(** ** [FrequencyMapper]

    A numeric frequency is held by its exact value, a rational; Python
    compares an [int] with a [float] by their exact values too. A dict is
    walked in insertion order, so [chakra_mappings] is the list of its
    items. [None] is Python's [None]. *)

Module FrequencyMapper.

Record t : Type := {
  chakra_mappings : list (str * (Q * Q));
  breath_patterns : gmap str str;
  visualizations : gmap str str
}.

(** [freq_range[0] <= frequency <= freq_range[1]] *)
Definition in_range (freq_range : Q * Q) (frequency : Q) : bool :=
  Qle_bool (fst freq_range) frequency && Qle_bool frequency (snd freq_range).

Fixpoint first_in_range (items : list (str * (Q * Q))) (frequency : Q)
  : option str :=
  match items with
  | [] => None
  | (chakra, freq_range) :: rest =>
      if in_range freq_range frequency then Some chakra
      else first_in_range rest frequency
  end.

Definition map_frequency_to_chakra (self : t) (frequency : Q) : option str :=
  first_in_range (chakra_mappings self) frequency.

Definition get_breath_pattern_for_chakra (self : t) (chakra : str) : str :=
  default (lit "Default Pattern") (breath_patterns self !! chakra).

Definition get_visualization_for_chakra (self : t) (chakra : str) : str :=
  default (lit "Default Visualization") (visualizations self !! chakra).

(** The mapper the module builds under "Example usage". *)
Definition frequency_mapper : t :=
  {| chakra_mappings :=
       [(lit "Root", (20 # 1, 30 # 1));
        (lit "Sacral", (31 # 1, 40 # 1));
        (lit "Solar Plexus", (41 # 1, 50 # 1));
        (lit "Heart", (51 # 1, 60 # 1));
        (lit "Throat", (61 # 1, 70 # 1));
        (lit "Third Eye", (71 # 1, 80 # 1));
        (lit "Crown", (81 # 1, 90 # 1))];
     breath_patterns :=
       list_to_map
         [(lit "Root", lit "Deep Belly Breathing");
          (lit "Sacral", lit "Pelvic Expansion Breathing");
          (lit "Solar Plexus", lit "Fire Breath");
          (lit "Heart", lit "Heart-Centered Breathing");
          (lit "Throat", lit "Resonant Humming");
          (lit "Third Eye", lit "Alternate Nostril Breathing");
          (lit "Crown", lit "Crown Channeling Breath")];
     visualizations :=
       list_to_map
         [(lit "Root", lit "Red Earth Energy");
          (lit "Sacral", lit "Orange Flowing Water");
          (lit "Solar Plexus", lit "Yellow Radiant Sun");
          (lit "Heart", lit "Green Expanding Love");
          (lit "Throat", lit "Blue Vibrating Wave");
          (lit "Third Eye", lit "Indigo Cosmic Light");
          (lit "Crown", lit "Violet Divine Light")] |}.

End FrequencyMapper.

(** ** The specification's parameter derivation

    Section 4.2 of the specification, in its own words: from the first
    five bytes [b0 .. b4] of the digest,
    [rotation_offset = (b0 / 255) * 360], [layer_count = 3 + (b1 mod 5)],
    [ray_count = 6 + (b2 mod 7)], [line_weight = 1 + (b3 mod 5)],
    [scale_factor = 0.7 + (b4 / 255) * 0.6]. *)
Definition spec_parameters (b0 b1 b2 b3 b4 : Z) : Variations :=
  {| rotation_offset := (Py.truediv b0 255 * 360)%float;
     layer_count := 3 + b1 mod 5;
     ray_count := 6 + b2 mod 7;
     line_weight := 1 + b3 mod 5;
     scale_factor := (0.7 + Py.truediv b4 255 * 0.6)%float |}.

(** The ranges of section 8, item 2: [rotation_offset] in [[0,360)], the
    others in closed intervals. *)
Definition ranges_as_specified (v : Variations) : Prop :=
  PrimFloat.leb 0 (rotation_offset v) = true /\
  PrimFloat.ltb (rotation_offset v) 360 = true /\
  3 <= layer_count v <= 7 /\
  6 <= ray_count v <= 12 /\
  1 <= line_weight v <= 5 /\
  PrimFloat.leb 0.7 (scale_factor v) = true /\
  PrimFloat.leb (scale_factor v) 1.3 = true.

(** The same with [rotation_offset] in the closed interval [[0,360]]. *)
Definition ranges_closed (v : Variations) : Prop :=
  PrimFloat.leb 0 (rotation_offset v) = true /\
  PrimFloat.leb (rotation_offset v) 360 = true /\
  3 <= layer_count v <= 7 /\
  6 <= ray_count v <= 12 /\
  1 <= line_weight v <= 5 /\
  PrimFloat.leb 0.7 (scale_factor v) = true /\
  PrimFloat.leb (scale_factor v) 1.3 = true.

(** The two float-valued parameters as functions of their byte. *)
Definition rotation_of (b : Z) : float :=
  (Py.float_of_int b / 255.0 * 360)%float.
Definition scale_of (b : Z) : float :=
  (0.7 + Py.float_of_int b / 255.0 * 0.6)%float.

(** A boolean test of [UTF8.encodable]. *)
Definition encodableb (s : str) : bool :=
  forallb (fun c => match UTF8.encode_char c with Some _ => true | None => false end) s.

(** What decides the parameters: bytes 0 and 4 of the digest, and bytes 1,
    2 and 3 modulo 5, 7 and 5. *)
Definition same_parameter_bytes (d1 d2 : list Z) : Prop :=
  byte_at d1 0 = byte_at d2 0 /\
  byte_at d1 1 mod 5 = byte_at d2 1 mod 5 /\
  byte_at d1 2 mod 7 = byte_at d2 2 mod 7 /\
  byte_at d1 3 mod 5 = byte_at d2 3 mod 5 /\
  byte_at d1 4 = byte_at d2 4.

(** The keys of the frequency table, in order. *)
Definition frequency_labels : list str := map fst FREQUENCY_MAP_items.

(** [generate] called once per [(output_path, image_size)] of [calls], in
    order, on the same object; the heap after the last call. *)
Definition generate_all {W : Type} (perform : call -> W -> result W)
    (calls : list (str * Z)) (h : heap) : heap :=
  fold_left (fun h c => snd (generate perform (fst c) (snd c) h)) calls h.

Definition drawing (c : call) : Prop := is_draw c = true.

(** [emits perform P m]: whatever the heap, running [m] leaves the object
    as it was, adds to the trace only calls that satisfy [P], and raises
    only what the environment raised. *)
Definition emits {W : Type} (perform : call -> W -> result W)
    (P : call -> Prop) {A : Type} (m : @M W A) : Prop :=
  forall h : @heap W,
    self (snd (m h)) = self h /\
    (exists cs, trace (snd (m h)) = trace h ++ cs /\ Forall P cs) /\
    (forall e, fst (m h) = Err e -> exists c w, perform c w = Err e).

(** ** [generate] as a run of calls

    [generate] asks the environment for one thing after the other and
    looks at no answer. What it does in an environment is therefore the
    run of a fixed list of calls: the calls it makes where every call
    returns. *)

(** The environment in which every call returns. *)
Definition accept (c : call) (w : unit) : result unit := Ok tt.

(** The calls [generate] makes on the object [g] when nothing stops
    it. *)
Definition generate_calls (g : SigilGenerator) (output_path : str) (image_size : Z)
  : list call :=
  trace (snd (generate accept output_path image_size
                {| self := g; world := tt; trace := [] |})).

(** How a run of calls ends: every call returned, or the calls of
    [done] returned and then [failed] raised [error]; [final] is the world
    the run leaves. *)
Inductive outcome (W : Type) : Type :=
| Ran (final : W)
| Stopped (done : list call) (failed : call) (error : exn) (final : W).
Arguments Ran {W} final.
Arguments Stopped {W} done failed error final.

Fixpoint run_calls {W : Type} (perform : call -> W -> result W)
    (cs : list call) (w : W) : outcome W :=
  match cs with
  | [] => Ran w
  | c :: rest =>
      match perform c w with
      | Ok w' =>
          match run_calls perform rest w' with
          | Ran final => Ran final
          | Stopped done failed error final => Stopped (c :: done) failed error final
          end
      | Err e => Stopped [] c e w
      end
  end.

(** [replays perform m m0]: the method [m], in the environment
    [perform], does what the run of the calls of [m0] does, where [m0] is
    the same method in the environment [accept]. *)
Definition replays {W A : Type} (perform : call -> W -> result W)
    (m : @M W A) (m0 : @M unit A) : Prop :=
  forall (h : @heap W) (h0 : @heap unit),
    self h = self h0 ->
    exists a cs,
      m0 h0 = (Ok a, {| self := self h0; world := tt; trace := trace h0 ++ cs |}) /\
      match run_calls perform cs (world h) with
      | Ran final =>
          m h = (Ok a, {| self := self h; world := final; trace := trace h ++ cs |})
      | Stopped done _ error final =>
          m h = (Err error,
                 {| self := self h; world := final; trace := trace h ++ done |})
      end.

(** An environment that cooperates with a call of [generate] from the
    worlds of [good] on: there it makes the directory, makes the canvas
    and its drawing object, draws every shape whose box is not inverted,
    and stays in [good]; and there it saves the image. *)
Definition cooperates {W : Type} (perform : call -> W -> result W)
    (good : W -> Prop) (before : list call) (save : call) : Prop :=
  (forall c w, In c before -> good w ->
     exists w', perform c w = Ok w' /\ good w') /\
  (forall c w, drawing c -> inverted c = false -> good w ->
     exists w', perform c w = Ok w' /\ good w') /\
  (forall w, good w -> exists w', perform save w = Ok w').

(** ** Frequencies that are no rationals

    A frequency may also be one of the three floats that have no exact
    value. Python compares them with an [int] as IEEE-754 does: nothing is
    below or above NaN. *)
Inductive number : Type :=
| Exact (q : Q)
| PosInf
| NegInf
| NaN.

(** [bound <= x] and [x <= bound], for a bound that is an [int]. *)
Definition bound_le (bound : Q) (x : number) : bool :=
  match x with
  | Exact q => Qle_bool bound q
  | PosInf => true
  | NegInf | NaN => false
  end.

Definition le_bound (x : number) (bound : Q) : bool :=
  match x with
  | Exact q => Qle_bool q bound
  | NegInf => true
  | PosInf | NaN => false
  end.

(** [map_frequency_to_chakra] on any number. *)
Fixpoint first_holding (items : list (str * (Q * Q))) (frequency : number)
  : option str :=
  match items with
  | [] => None
  | (chakra, freq_range) :: rest =>
      if bound_le (fst freq_range) frequency && le_bound frequency (snd freq_range)
      then Some chakra
      else first_holding rest frequency
  end.

Definition map_number_to_chakra (self : FrequencyMapper.t) (frequency : number)
  : option str :=
  first_holding (FrequencyMapper.chakra_mappings self) frequency.

(** ** Further definitions, for the properties beyond the claims *)

(** A colour Pillow takes for an RGB image: three channels, each a
    byte. *)
Definition valid_rgb (c : rgb) : Prop :=
  let '(r, g, b) := c in 0 <= r <= 255 /\ 0 <= g <= 255 /\ 0 <= b <= 255.

(** The same environment, with the refusal of a NUL by [os.mkdir]
    written out. *)
Definition posix_pillow (c : call) (w : unit) : result unit :=
  match c with
  | PathMkdir p _ _ =>
      if has_nul p then Err (ValueError (lit "embedded null byte")) else Ok tt
  | _ => pillow c w
  end.

(** A point on the circle of radius [r] around [center]. *)
Definition on_circle (center : Z * Z) (r : float) (p : point) : Prop :=
  exists theta, p = Polar (fst center) (snd center) r theta.

(** The [width] argument of a drawing call. *)
Definition width_of (c : call) : option Z :=
  match c with
  | DrawPolygon _ _ w | DrawLine _ _ w | DrawEllipse _ _ w | DrawArc _ _ _ _ w => Some w
  | _ => None
  end.

(** The three categories with a geometry of their own. *)
Definition named_geometries : list str :=
  [lit "root"; lit "sacral"; lit "solar_plexus"].

(** Two heaps with the same world and the same trace, whatever the
    object; and two methods that cannot tell such heaps apart. *)
Definition similar {W : Type} (h1 h2 : @heap W) : Prop :=
  world h1 = world h2 /\ trace h1 = trace h2.

Definition agree {W A : Type} (m1 m2 : @M W A) : Prop :=
  forall h1 h2, similar h1 h2 ->
    fst (m1 h1) = fst (m2 h2) /\ similar (snd (m1 h1)) (snd (m2 h2)).

(** The two categories drawn with polygons; every other category is
    drawn with concentric ellipses. *)
Definition polygon_geometries : list str := [lit "root"; lit "solar_plexus"].

(** Two methods, each in an environment of its own, that make the same
    calls and return the same value whenever both return, on heaps with
    the same object. *)
Definition same_calls {W1 W2 A : Type} (m1 : @M W1 A) (m2 : @M W2 A) : Prop :=
  forall h1 h2 a1 h1' a2 h2',
    self h1 = self h2 ->
    m1 h1 = (Ok a1, h1') -> m2 h2 = (Ok a2, h2') ->
    a1 = a2 /\ self h1' = self h2' /\
    exists cs, trace h1' = trace h1 ++ cs /\ trace h2' = trace h2 ++ cs.

(** The two lookups of [FrequencyMapper] on what
    [map_frequency_to_chakra] returned, as the example at the end of the
    module calls them. The keys of the tables are strings, so [None] is
    no key and [dict.get] returns the default. *)
Definition breath_pattern_of (self : FrequencyMapper.t) (chakra : option str) : str :=
  match chakra with
  | Some c => FrequencyMapper.get_breath_pattern_for_chakra self c
  | None => lit "Default Pattern"
  end.

Definition visualization_of (self : FrequencyMapper.t) (chakra : option str) : str :=
  match chakra with
  | Some c => FrequencyMapper.get_visualization_for_chakra self c
  | None => lit "Default Visualization"
  end.

(** The items of a mapping whose range holds the frequency. *)
Definition holding (items : list (str * (Q * Q))) (frequency : Q)
  : list (str * (Q * Q)) :=
  List.filter (fun item => FrequencyMapper.in_range (snd item) frequency) items.

(** * Properties *)

(** ** SHA-256: published vectors and the shape of a digest *)

Example sha256_abc :
  SHA256.hexdigest (lit "abc") =
  "ba7816bf8f01cfea414140de5dae2223b00361a396177a9cb410ff61f20015ad"%string.
Proof. vm_compute. reflexivity. Qed.

Example sha256_empty :
  SHA256.hexdigest [] =
  "e3b0c44298fc1c149afbf4c8996fb92427ae41e4649b934ca495991b7852b855"%string.
Proof. vm_compute. reflexivity. Qed.


Lemma digest_length (msg : list Z) : length (SHA256.digest msg) = 32%nat.
Proof.
  unfold SHA256.digest.
  generalize (fold_left SHA256.compress
                (SHA256.chunks 64 (length (SHA256.pad msg) / 64) (SHA256.pad msg))
                SHA256.init).
  intros s. reflexivity.
Qed.

Lemma digest_bytes (msg : list Z) :
  Forall (fun b => 0 <= b < 256) (SHA256.digest msg).
Proof.
  unfold SHA256.digest.
  generalize (fold_left SHA256.compress
                (SHA256.chunks 64 (length (SHA256.pad msg) / 64) (SHA256.pad msg))
                SHA256.init).
  intros s. unfold SHA256.state_bytes, SHA256.word_bytes. cbn [app].
  repeat (apply Forall_cons; split; [apply Z.mod_pos_bound; lia |]).
  apply Forall_nil_2.
Qed.

Lemma byte_at_range (msg : list Z) (i : nat) :
  0 <= byte_at (SHA256.digest msg) i < 256.
Proof.
  unfold byte_at.
  destruct (Nat.lt_ge_cases i (length (SHA256.digest msg))) as [Hlt | Hge].
  - pose proof (digest_bytes msg) as Hall.
    rewrite List.Forall_forall in Hall. apply Hall. apply nth_In. exact Hlt.
  - rewrite nth_overflow by exact Hge. lia.
Qed.

(** ** Checking a property of a byte on all 256 of them *)

Lemma byte_cases (P : Z -> bool) :
  forallb P (Py.range 256) = true ->
  forall b, 0 <= b < 256 -> P b = true.
Proof.
  intros Hall b Hb.
  rewrite forallb_forall in Hall. apply Hall.
  unfold Py.range. apply in_map_iff. exists (Z.to_nat b). split; [lia |].
  apply in_seq. lia.
Qed.

Lemma byte_pair_cases (P : Z -> Z -> bool) :
  forallb (fun a => forallb (P a) (Py.range 256)) (Py.range 256) = true ->
  forall a b, 0 <= a < 256 -> 0 <= b < 256 -> P a b = true.
Proof.
  intros Hall a b Ha Hb.
  apply (byte_cases (P a)); [| exact Hb].
  apply (byte_cases (fun a => forallb (P a) (Py.range 256))); assumption.
Qed.

Lemma rotation_of_range (b : Z) :
  0 <= b < 256 ->
  PrimFloat.leb 0 (rotation_of b) = true /\
  PrimFloat.leb (rotation_of b) 360 = true /\
  PrimFloat.ltb (rotation_of b) 360 = negb (b =? 255).
Proof.
  intros Hb.
  pose proof (byte_cases
    (fun b => PrimFloat.leb 0 (rotation_of b) && PrimFloat.leb (rotation_of b) 360
              && Bool.eqb (PrimFloat.ltb (rotation_of b) 360) (negb (b =? 255)))) as H.
  specialize (H ltac:(vm_compute; reflexivity) b Hb). cbv beta in H.
  apply andb_prop in H as [H H3]. apply andb_prop in H as [H1 H2].
  apply Bool.eqb_prop in H3. auto.
Qed.

Lemma scale_of_range (b : Z) :
  0 <= b < 256 ->
  PrimFloat.leb 0.7 (scale_of b) = true /\ PrimFloat.leb (scale_of b) 1.3 = true.
Proof.
  intros Hb.
  pose proof (byte_cases
    (fun b => PrimFloat.leb 0.7 (scale_of b) && PrimFloat.leb (scale_of b) 1.3)) as H.
  specialize (H ltac:(vm_compute; reflexivity) b Hb). cbv beta in H.
  apply andb_prop in H. exact H.
Qed.

(** On bytes, both maps are injective, and [==] on their values is
    equality of the bytes. *)
Lemma rotation_of_eqb (a b : Z) :
  0 <= a < 256 -> 0 <= b < 256 ->
  PrimFloat.eqb (rotation_of a) (rotation_of b) = (a =? b).
Proof.
  intros Ha Hb.
  pose proof (byte_pair_cases
    (fun a b => Bool.eqb (PrimFloat.eqb (rotation_of a) (rotation_of b)) (a =? b))) as H.
  specialize (H ltac:(vm_compute; reflexivity) a b Ha Hb).
  apply Bool.eqb_prop in H. exact H.
Qed.

Lemma scale_of_eqb (a b : Z) :
  0 <= a < 256 -> 0 <= b < 256 ->
  PrimFloat.eqb (scale_of a) (scale_of b) = (a =? b).
Proof.
  intros Ha Hb.
  pose proof (byte_pair_cases
    (fun a b => Bool.eqb (PrimFloat.eqb (scale_of a) (scale_of b)) (a =? b))) as H.
  specialize (H ltac:(vm_compute; reflexivity) a b Ha Hb).
  apply Bool.eqb_prop in H. exact H.
Qed.

(** ** [str.encode] *)

Lemma encode_from_encodable (s : str) :
  UTF8.encodable s -> forall i, exists bs, UTF8.encode_from i s = Ok bs.
Proof.
  induction 1 as [| c rest Hc _ IH]; intros i; cbn.
  - eexists; reflexivity.
  - destruct (UTF8.encode_char c) as [bs |]; [| congruence].
    destruct (IH (S i)) as [tl Htl]. rewrite Htl. cbn. eexists; reflexivity.
Qed.

Lemma encode_from_error (s : str) :
  forall i e, UTF8.encode_from i s = Err e ->
  (exists j, e = UnicodeEncodeError j) /\ ~ UTF8.encodable s.
Proof.
  induction s as [| c rest IH]; intros i e; cbn.
  - discriminate.
  - destruct (UTF8.encode_char c) as [bs |] eqn:Hc.
    + destruct (UTF8.encode_from (S i) rest) as [tl | e'] eqn:Hrest; cbn; [discriminate |].
      intros [= <-]. destruct (IH _ _ Hrest) as [Hj Hne]. split; [exact Hj |].
      intros Henc. apply Hne. unfold UTF8.encodable in *.
      apply Forall_cons in Henc. tauto.
    + intros [= <-]. split; [eexists; reflexivity |].
      intros Henc. unfold UTF8.encodable in Henc.
      apply Forall_cons in Henc. tauto.
Qed.

Lemma calculate_variations_ok (solver_id : str) (encoded : list Z) :
  UTF8.encode solver_id = Ok encoded ->
  _calculate_variations solver_id = Ok (variations_of_digest (SHA256.digest encoded)).
Proof. intros H. unfold _calculate_variations. rewrite H. reflexivity. Qed.

Lemma variations_of_digest_closed (msg : list Z) :
  ranges_closed (variations_of_digest (SHA256.digest msg)).
Proof.
  unfold ranges_closed, variations_of_digest.
  cbn [rotation_offset layer_count ray_count line_weight scale_factor].
  pose proof (byte_at_range msg 0) as H0.
  pose proof (byte_at_range msg 4) as H4.
  destruct (rotation_of_range _ H0) as (Hr1 & Hr2 & _).
  destruct (scale_of_range _ H4) as (Hs1 & Hs2).
  pose proof (Z.mod_pos_bound (byte_at (SHA256.digest msg) 1) 5 eq_refl).
  pose proof (Z.mod_pos_bound (byte_at (SHA256.digest msg) 2) 7 eq_refl).
  pose proof (Z.mod_pos_bound (byte_at (SHA256.digest msg) 3) 5 eq_refl).
  unfold rotation_of in Hr1, Hr2. unfold scale_of in Hs1, Hs2.
  repeat split; try assumption; lia.
Qed.

Lemma encodableb_spec (s : str) : encodableb s = true -> UTF8.encodable s.
Proof.
  unfold encodableb, UTF8.encodable. rewrite forallb_forall, List.Forall_forall.
  intros H c Hc. specialize (H c Hc).
  destruct (UTF8.encode_char c); [discriminate | discriminate].
Qed.

Lemma calculate_variations_total (solver_id : str) :
  UTF8.encodable solver_id ->
  exists encoded, UTF8.encode solver_id = Ok encoded /\
    _calculate_variations solver_id = Ok (variations_of_digest (SHA256.digest encoded)).
Proof.
  intros Henc. destruct (encode_from_encodable _ Henc 0%nat) as [encoded He].
  exists encoded. split; [exact He |]. apply calculate_variations_ok. exact He.
Qed.

Lemma calculate_variations_error (solver_id : str) (e : exn) :
  _calculate_variations solver_id = Err e ->
  (exists j, e = UnicodeEncodeError j) /\ ~ UTF8.encodable solver_id.
Proof.
  unfold _calculate_variations.
  destruct (UTF8.encode solver_id) as [encoded | e'] eqn:He; cbn; [discriminate |].
  intros [= <-]. exact (encode_from_error _ _ _ He).
Qed.

Lemma encode_from_ok (s : str) :
  forall i bs, UTF8.encode_from i s = Ok bs -> UTF8.encodable s.
Proof.
  induction s as [| c rest IH]; intros i bs; cbn.
  - intros _. apply List.Forall_nil.
  - destruct (UTF8.encode_char c) as [b |] eqn:Hc; [| discriminate].
    destruct (UTF8.encode_from (S i) rest) as [tl |] eqn:Hr; cbn; [| discriminate].
    intros _. apply List.Forall_cons; [congruence | exact (IH _ _ Hr)].
Qed.

Lemma calculate_variations_encodable (seed : str) (v : Variations) :
  _calculate_variations seed = Ok v -> UTF8.encodable seed.
Proof.
  unfold _calculate_variations.
  destruct (UTF8.encode seed) as [bs |] eqn:He; [| discriminate].
  intros _. exact (encode_from_ok _ _ _ He).
Qed.

(** ** The two tables *)

Lemma FREQUENCY_MAP_lookup (f c : str) :
  FREQUENCY_MAP !! f = Some c <-> In (f, c) FREQUENCY_MAP_items.
Proof.
  unfold FREQUENCY_MAP. rewrite <- elem_of_list_to_map.
  - apply list_elem_of_In.
  - apply (bool_decide_unpack _). vm_compute. exact I.
Qed.

Lemma COLOR_PALETTES_lookup (c : str) (p : Palette) :
  COLOR_PALETTES !! c = Some p <-> In (c, p) COLOR_PALETTES_items.
Proof.
  unfold COLOR_PALETTES. rewrite <- elem_of_list_to_map.
  - apply list_elem_of_In.
  - apply (bool_decide_unpack _). vm_compute. exact I.
Qed.

(** The keys of the palette table are the seven categories. *)
Lemma COLOR_PALETTES_keys (c : str) :
  is_Some (COLOR_PALETTES !! c) <-> In c categories.
Proof.
  split.
  - intros [p Hp]. apply COLOR_PALETTES_lookup in Hp.
    apply (in_map fst) in Hp. exact Hp.
  - intros Hc. change categories with (map fst COLOR_PALETTES_items) in Hc.
    apply in_map_iff in Hc as [[c' p] [Heq Hin]]. cbn in Heq. subst c'.
    exists p. apply COLOR_PALETTES_lookup. exact Hin.
Qed.

(** Every category the frequency table maps to has a palette. *)
Lemma FREQUENCY_MAP_range (f c : str) :
  FREQUENCY_MAP !! f = Some c -> In c categories.
Proof.
  intros H. apply FREQUENCY_MAP_lookup in H.
  apply (in_map snd) in H. cbn [snd] in H.
  revert H. apply incl_Forall_in_iff. vm_compute.
  repeat (apply List.Forall_cons; [tauto |]). apply List.Forall_nil.
Qed.

(** ** C1: the ranges of the derived parameters *)

(** C1, as stated, fails: the seed ["solver762"] has a digest whose first
    byte is 255, so its [rotation_offset] is [(255 / 255.0) * 360 = 360.0],
    outside the right-open interval [[0,360)]. *)
Lemma C1_rotation_reaches_360 :
  exists v, _calculate_variations (lit "solver762") = Ok v /\
            rotation_offset v = 360%float /\
            ~ ranges_as_specified v.
Proof.
  eexists. split; [vm_compute; reflexivity |]. split; [reflexivity |].
  intros (_ & H & _). vm_compute in H. discriminate.
Qed.

(** The value 360 is reached exactly when the first byte of the digest is
    255. *)
Lemma rotation_offset_below_360 (msg : list Z) :
  PrimFloat.ltb (rotation_offset (variations_of_digest (SHA256.digest msg))) 360
  = negb (byte_at (SHA256.digest msg) 0 =? 255).
Proof.
  destruct (rotation_of_range _ (byte_at_range msg 0)) as (_ & _ & H). exact H.
Qed.

(** C1, amended: for every seed that [str.encode] accepts, the parameters
    are derived and [rotation_offset] is in the closed interval [[0,360]],
    below 360 unless the first byte of the digest is 255, [layer_count] is
    in [[3,7]], [ray_count] in [[6,12]], [line_weight] in [[1,5]] and
    [scale_factor] in [[0.7,1.3]]. *)
Theorem C1_variation_ranges (solver_id : str) :
  UTF8.encodable solver_id ->
  exists encoded v,
    UTF8.encode solver_id = Ok encoded /\
    _calculate_variations solver_id = Ok v /\
    ranges_closed v /\
    PrimFloat.ltb (rotation_offset v) 360
    = negb (byte_at (SHA256.digest encoded) 0 =? 255).
Proof.
  intros Henc. destruct (calculate_variations_total _ Henc) as (encoded & He & Hv).
  exists encoded. eexists. split; [exact He |]. split; [exact Hv |].
  split; [apply variations_of_digest_closed | apply rotation_offset_below_360].
Qed.

Lemma C1_variation_ranges_witness :
  UTF8.encodable (lit "test_ranges") /\
  exists v, _calculate_variations (lit "test_ranges") = Ok v /\ ranges_closed v.
Proof.
  split.
  - apply encodableb_spec. vm_compute. reflexivity.
  - destruct (C1_variation_ranges (lit "test_ranges")) as (encoded & v & _ & Hv & Hr & _).
    + apply encodableb_spec. vm_compute. reflexivity.
    + exists v. split; [exact Hv | exact Hr].
Defined.

#[global] Opaque FREQUENCY_MAP COLOR_PALETTES SHA256.digest.

(** ** The constructor, step by step *)

Section ConstructorFacts.

Variable str_lower : str -> str.

Lemma resolve_wound_known (freq : option str) (wound0 : str) :
  is_Some (COLOR_PALETTES !! str_lower wound0) ->
  resolve_wound str_lower freq wound0 = Ok (str_lower wound0).
Proof. intros [p Hp]. unfold resolve_wound. rewrite Hp. reflexivity. Qed.

Lemma resolve_wound_fallback (f : str) (wound0 mapped : str) :
  COLOR_PALETTES !! str_lower wound0 = None ->
  FREQUENCY_MAP !! f = Some mapped ->
  resolve_wound str_lower (Some f) wound0 = Ok mapped.
Proof. intros Hw Hf. unfold resolve_wound. rewrite Hw, Hf. reflexivity. Qed.

Lemma resolve_wound_fails (freq : option str) (wound0 : str) :
  COLOR_PALETTES !! str_lower wound0 = None ->
  freq ≫= (FREQUENCY_MAP !!.) = None ->
  resolve_wound str_lower freq wound0 = Err (unsupported wound0).
Proof.
  intros Hw Hf. unfold resolve_wound. rewrite Hw.
  destruct freq as [f |]; [change (FREQUENCY_MAP !! f = None) in Hf; rewrite Hf |];
    reflexivity.
Qed.

(** The resolution ends in one of the seven categories or in the
    [ValueError] of the source, and in nothing else. *)
Lemma resolve_wound_cases (freq : option str) (wound0 : str) :
  (exists w, resolve_wound str_lower freq wound0 = Ok w /\ In w categories) \/
  (resolve_wound str_lower freq wound0 = Err (unsupported wound0) /\
   COLOR_PALETTES !! str_lower wound0 = None /\
   freq ≫= (FREQUENCY_MAP !!.) = None).
Proof.
  unfold resolve_wound.
  destruct (COLOR_PALETTES !! str_lower wound0) as [p |] eqn:Hw.
  - left. eexists. split; [reflexivity |].
    apply COLOR_PALETTES_keys. rewrite Hw. eauto.
  - destruct freq as [f |]; cbn.
    + destruct (FREQUENCY_MAP !! f) as [mapped |] eqn:Hf.
      * left. eexists. split; [reflexivity |]. eapply FREQUENCY_MAP_range, Hf.
      * right. auto.
    + right. auto.
Qed.

Lemma init_inv (freq : option str) (wound0 seed : str) (g : SigilGenerator) :
  __init__ str_lower freq wound0 seed = Ok g ->
  resolve_wound str_lower freq wound0 = Ok (wound g) /\
  COLOR_PALETTES !! wound g = Some (colors g) /\
  _calculate_variations seed = Ok (variations g) /\
  frequency g = freq /\ solver_id g = seed.
Proof.
  unfold __init__.
  destruct (resolve_wound str_lower freq wound0) as [w | e]; cbn; [| discriminate].
  destruct (COLOR_PALETTES !! w) as [c |] eqn:Hc; cbn; [| discriminate].
  destruct (_calculate_variations seed) as [v | e]; cbn; [| discriminate].
  intros [= <-]. cbn. auto.
Qed.

Lemma init_ok (freq : option str) (wound0 seed w : str) :
  resolve_wound str_lower freq wound0 = Ok w ->
  UTF8.encodable seed ->
  exists g, __init__ str_lower freq wound0 seed = Ok g /\ wound g = w.
Proof.
  intros Hw Henc. unfold __init__. rewrite Hw. cbn.
  assert (Hin : In w categories).
  { destruct (resolve_wound_cases freq wound0) as [(w' & Hw' & Hin) | (He & _)];
      congruence. }
  apply COLOR_PALETTES_keys in Hin as [c Hc]. rewrite Hc. cbn.
  destruct (calculate_variations_total _ Henc) as (encoded & _ & Hv).
  rewrite Hv. cbn. eexists. split; reflexivity.
Qed.

(** What the constructor raises: the error of the resolution, or, the
    category resolved, the error of [str.encode]. *)
Lemma init_error (freq : option str) (wound0 seed : str) (e : exn) :
  __init__ str_lower freq wound0 seed = Err e ->
  (e = unsupported wound0 /\
   resolve_wound str_lower freq wound0 = Err (unsupported wound0)) \/
  ((exists j, e = UnicodeEncodeError j) /\ ~ UTF8.encodable seed /\
   exists w, resolve_wound str_lower freq wound0 = Ok w).
Proof.
  unfold __init__.
  destruct (resolve_wound_cases freq wound0) as [(w & Hw & Hin) | (He & _)].
  - rewrite Hw. cbn. apply COLOR_PALETTES_keys in Hin as [c Hc]. rewrite Hc. cbn.
    destruct (_calculate_variations seed) as [v | e'] eqn:Hv; cbn; [discriminate |].
    intros [= <-]. right. destruct (calculate_variations_error _ _ Hv) as [Hj Hne].
    eauto.
  - rewrite He. cbn. intros [= <-]. left. auto.
Qed.

End ConstructorFacts.

(** ** C3: the derivation is the specification's, and depends on the seed
    alone *)

Lemma variations_of_digest_spec (d : list Z) :
  variations_of_digest d =
  spec_parameters (byte_at d 0) (byte_at d 1) (byte_at d 2) (byte_at d 3) (byte_at d 4).
Proof. reflexivity. Qed.

(** C3: for every seed, the derivation takes the SHA-256 digest of the
    seed's UTF-8 bytes (32 bytes, each in [0,255]) and returns the
    parameters the specification's five formulas give on its first five
    bytes; a seed with no UTF-8 encoding raises the codec's error instead.
    Two generators built from the same seed hold the same parameters,
    whatever the frequency label and the category. *)
Theorem C3_derivation (seed : str) :
  match UTF8.encode seed with
  | Ok encoded =>
      let d := SHA256.digest encoded in
      length d = 32%nat /\
      Forall (fun b => 0 <= b < 256) d /\
      _calculate_variations seed =
        Ok (spec_parameters (byte_at d 0) (byte_at d 1) (byte_at d 2)
                            (byte_at d 3) (byte_at d 4))
  | Err e => _calculate_variations seed = Err e
  end /\
  forall (lower1 lower2 : str -> str) (f1 f2 : option str) (w1 w2 : str)
         (g1 g2 : SigilGenerator),
    __init__ lower1 f1 w1 seed = Ok g1 ->
    __init__ lower2 f2 w2 seed = Ok g2 ->
    variations g1 = variations g2.
Proof.
  split.
  - destruct (UTF8.encode seed) as [encoded | e] eqn:He.
    + cbv zeta. split; [apply digest_length |]. split; [apply digest_bytes |].
      rewrite (calculate_variations_ok _ _ He), variations_of_digest_spec.
      reflexivity.
    + unfold _calculate_variations. rewrite He. reflexivity.
  - intros lower1 lower2 f1 f2 w1 w2 g1 g2 H1 H2.
    apply init_inv in H1 as (_ & _ & Hv1 & _).
    apply init_inv in H2 as (_ & _ & Hv2 & _).
    congruence.
Qed.

Lemma C3_derivation_witness :
  exists g1 g2,
    __init__ ascii_lower (Some (lit "396 Hz")) (lit "root") (lit "solver123") = Ok g1 /\
    __init__ ascii_lower None (lit "SACRAL") (lit "solver123") = Ok g2 /\
    variations g1 = variations g2.
Proof.
  eexists. eexists.
  split; [vm_compute; reflexivity |].
  split; [vm_compute; reflexivity |].
  apply (proj2 (C3_derivation (lit "solver123")) ascii_lower ascii_lower
               (Some (lit "396 Hz")) None (lit "root") (lit "SACRAL"));
    vm_compute; reflexivity.
Defined.

(** ** C6: when two seeds give different parameters *)

Lemma rotation_of_inj (a b : Z) :
  0 <= a < 256 -> 0 <= b < 256 -> rotation_of a = rotation_of b -> a = b.
Proof.
  intros Ha Hb H. apply Z.eqb_eq.
  rewrite <- (rotation_of_eqb a b Ha Hb), H, (rotation_of_eqb b b Hb Hb).
  apply Z.eqb_refl.
Qed.

Lemma scale_of_inj (a b : Z) :
  0 <= a < 256 -> 0 <= b < 256 -> scale_of a = scale_of b -> a = b.
Proof.
  intros Ha Hb H. apply Z.eqb_eq.
  rewrite <- (scale_of_eqb a b Ha Hb), H, (scale_of_eqb b b Hb Hb).
  apply Z.eqb_refl.
Qed.

Lemma variations_of_digest_eq (m1 m2 : list Z) :
  variations_of_digest (SHA256.digest m1) = variations_of_digest (SHA256.digest m2)
  <-> same_parameter_bytes (SHA256.digest m1) (SHA256.digest m2).
Proof.
  unfold same_parameter_bytes, variations_of_digest. split.
  - intros H.
    pose proof (f_equal rotation_offset H) as Hr.
    pose proof (f_equal layer_count H) as Hl.
    pose proof (f_equal ray_count H) as Hy.
    pose proof (f_equal line_weight H) as Hw.
    pose proof (f_equal scale_factor H) as Hs.
    cbn [rotation_offset layer_count ray_count line_weight scale_factor] in *.
    apply (rotation_of_inj _ _ (byte_at_range m1 0) (byte_at_range m2 0)) in Hr.
    apply (scale_of_inj _ _ (byte_at_range m1 4) (byte_at_range m2 4)) in Hs.
    repeat split; try assumption; lia.
  - intros (H0 & H1 & H2 & H3 & H4). rewrite H0, H1, H2, H3, H4. reflexivity.
Qed.

Lemma variations_of_digest_eqb (m1 m2 : list Z) :
  variations_eqb (variations_of_digest (SHA256.digest m1))
                 (variations_of_digest (SHA256.digest m2)) = true
  <-> same_parameter_bytes (SHA256.digest m1) (SHA256.digest m2).
Proof.
  unfold same_parameter_bytes, variations_eqb, variations_of_digest.
  cbn [rotation_offset layer_count ray_count line_weight scale_factor].
  fold (rotation_of (byte_at (SHA256.digest m1) 0)).
  fold (rotation_of (byte_at (SHA256.digest m2) 0)).
  fold (scale_of (byte_at (SHA256.digest m1) 4)).
  fold (scale_of (byte_at (SHA256.digest m2) 4)).
  rewrite (rotation_of_eqb _ _ (byte_at_range m1 0) (byte_at_range m2 0)).
  rewrite (scale_of_eqb _ _ (byte_at_range m1 4) (byte_at_range m2 4)).
  rewrite !andb_true_iff, !Z.eqb_eq. split.
  - intros ((((H0 & H1) & H2) & H3) & H4). repeat split; try assumption; lia.
  - intros (H0 & H1 & H2 & H3 & H4). repeat split; try assumption; lia.
Qed.

(** C6, as stated, fails: the digests of ["solver499"] and ["solver2575"]
    begin [206, 22, 172, 147, 139] and [206, 197, 109, 72, 139]; they
    differ in bytes 1, 2 and 3, yet by multiples of 5, 7 and 5, and the two
    parameter sets are the same in all five fields. *)
Lemma C6_colliding_seeds :
  exists e1 e2 v,
    UTF8.encode (lit "solver499") = Ok e1 /\
    UTF8.encode (lit "solver2575") = Ok e2 /\
    firstn 5 (SHA256.digest e1) = [206; 22; 172; 147; 139] /\
    firstn 5 (SHA256.digest e2) = [206; 197; 109; 72; 139] /\
    firstn 5 (SHA256.digest e1) <> firstn 5 (SHA256.digest e2) /\
    _calculate_variations (lit "solver499") = Ok v /\
    _calculate_variations (lit "solver2575") = Ok v.
Proof.
  eexists. eexists. eexists.
  split; [vm_compute; reflexivity |].
  split; [vm_compute; reflexivity |].
  split; [vm_compute; reflexivity |].
  split; [vm_compute; reflexivity |].
  split; [vm_compute; discriminate |].
  split; vm_compute; reflexivity.
Qed.

(** C6, amended: two seeds give parameter sets that differ in at least one
    field exactly when their digests differ in byte 0 or byte 4, or in
    byte 1 modulo 5, byte 2 modulo 7 or byte 3 modulo 5; this holds for
    equality of the records and for Python's [==] on them alike. *)
Theorem C6_parameters_differ (s1 s2 : str) (e1 e2 : list Z) :
  UTF8.encode s1 = Ok e1 ->
  UTF8.encode s2 = Ok e2 ->
  exists v1 v2,
    _calculate_variations s1 = Ok v1 /\
    _calculate_variations s2 = Ok v2 /\
    (v1 <> v2 <-> ~ same_parameter_bytes (SHA256.digest e1) (SHA256.digest e2)) /\
    (variations_eqb v1 v2 = false <->
     ~ same_parameter_bytes (SHA256.digest e1) (SHA256.digest e2)).
Proof.
  intros H1 H2. eexists. eexists.
  split; [apply calculate_variations_ok, H1 |].
  split; [apply calculate_variations_ok, H2 |].
  split.
  - rewrite variations_of_digest_eq. tauto.
  - rewrite <- variations_of_digest_eqb.
    destruct (variations_eqb _ _); split; intros H; congruence.
Qed.

Lemma C6_parameters_differ_witness :
  exists v1 v2,
    _calculate_variations (lit "solver_alpha") = Ok v1 /\
    _calculate_variations (lit "solver_beta") = Ok v2 /\
    v1 <> v2 /\ variations_eqb v1 v2 = false.
Proof.
  destruct (C6_parameters_differ (lit "solver_alpha") (lit "solver_beta") _ _
              eq_refl eq_refl) as (v1 & v2 & H1 & H2 & Hne & Hneb).
  exists v1, v2. split; [exact H1 |]. split; [exact H2 |].
  assert (Hd : ~ same_parameter_bytes
                   (SHA256.digest (lit "solver_alpha"))
                   (SHA256.digest (lit "solver_beta"))).
  { intros (H0 & _). vm_compute in H0. discriminate. }
  split; [apply Hne, Hd | apply Hneb, Hd].
Defined.

(** ** C2: a recognised category wins over the frequency label *)

(** C2: when the lowercased category string is one of the seven
    categories, the resolution returns it whatever the frequency label
    is; every generator the constructor then returns holds it, and the
    constructor returns one for every seed that [str.encode] accepts. *)
Theorem C2_explicit_category_wins (str_lower : str -> str)
    (freq : option str) (wound0 seed : str) :
  In (str_lower wound0) categories ->
  resolve_wound str_lower freq wound0 = Ok (str_lower wound0) /\
  (forall g, __init__ str_lower freq wound0 seed = Ok g ->
             wound g = str_lower wound0) /\
  (UTF8.encodable seed ->
   exists g, __init__ str_lower freq wound0 seed = Ok g /\
             wound g = str_lower wound0).
Proof.
  intros Hin. apply COLOR_PALETTES_keys in Hin.
  pose proof (resolve_wound_known str_lower freq wound0 Hin) as Hres.
  split; [exact Hres |]. split.
  - intros g Hg. apply init_inv in Hg as (Hw & _). congruence.
  - intros Henc. exact (init_ok str_lower freq wound0 seed _ Hres Henc).
Qed.

Lemma C2_explicit_category_wins_witness :
  FREQUENCY_MAP !! lit "417 Hz" = Some (lit "sacral") /\
  exists g, __init__ ascii_lower (Some (lit "417 Hz")) (lit "root")
                     (lit "solver123") = Ok g /\
            wound g = lit "root".
Proof.
  split; [vm_compute; reflexivity |].
  apply (C2_explicit_category_wins ascii_lower (Some (lit "417 Hz"))
           (lit "root") (lit "solver123")).
  - vm_compute. tauto.
  - apply encodableb_spec. vm_compute. reflexivity.
Defined.

(** ** C5: the frequency label as a fallback *)

(** C5, as stated, fails: construction does not succeed for every seed.
    With the unrecognised category ["anything"] and the label ["417 Hz"],
    which is a key of the table, the seed made of the lone surrogate
    U+D800 makes the constructor raise [UnicodeEncodeError], from
    [solver_id.encode()], after the category was resolved to
    ["sacral"]. *)
Lemma C5_unencodable_seed :
  ~ In (ascii_lower (lit "anything")) categories /\
  FREQUENCY_MAP !! lit "417 Hz" = Some (lit "sacral") /\
  resolve_wound ascii_lower (Some (lit "417 Hz")) (lit "anything") = Ok (lit "sacral") /\
  __init__ ascii_lower (Some (lit "417 Hz")) (lit "anything") [0xD800]
  = Err (UnicodeEncodeError 0) /\
  forall g, __init__ ascii_lower (Some (lit "417 Hz")) (lit "anything") [0xD800] <> Ok g.
Proof.
  split; [| split; [| split; [| split]]].
  - vm_compute. intros H. repeat (destruct H as [H | H]; [discriminate |]). exact H.
  - vm_compute. reflexivity.
  - vm_compute. reflexivity.
  - vm_compute. reflexivity.
  - intros g H. vm_compute in H. discriminate H.
Qed.

(** C5, amended: when the lowercased category string is not a category
    and the frequency label is a key of the frequency table, the
    resolution returns the category the table maps the label to, and
    every generator the constructor returns holds it. The constructor
    returns one exactly when [str.encode] accepts the seed; on any other
    seed it raises the [UnicodeEncodeError] of [solver_id.encode()] and
    nothing else. With the label ["417 Hz"] the category is
    ["sacral"]. *)
Theorem C5_frequency_fallback (str_lower : str -> str)
    (f wound0 seed mapped : str) :
  ~ In (str_lower wound0) categories ->
  FREQUENCY_MAP !! f = Some mapped ->
  resolve_wound str_lower (Some f) wound0 = Ok mapped /\
  (forall g, __init__ str_lower (Some f) wound0 seed = Ok g -> wound g = mapped) /\
  ((exists g, __init__ str_lower (Some f) wound0 seed = Ok g /\ wound g = mapped)
   <-> UTF8.encodable seed) /\
  (forall e, __init__ str_lower (Some f) wound0 seed = Err e ->
     ~ UTF8.encodable seed /\ exists j, e = UnicodeEncodeError j) /\
  (f = lit "417 Hz" -> mapped = lit "sacral").
Proof.
  intros Hnot Hf.
  assert (Hnone : COLOR_PALETTES !! str_lower wound0 = None).
  { destruct (COLOR_PALETTES !! str_lower wound0) as [p |] eqn:Hp; [| reflexivity].
    exfalso. apply Hnot, COLOR_PALETTES_keys. rewrite Hp. eauto. }
  pose proof (resolve_wound_fallback str_lower f wound0 mapped Hnone Hf) as Hres.
  split; [exact Hres |]. split; [| split; [| split]].
  - intros g Hg. apply init_inv in Hg as (Hw & _). congruence.
  - split.
    + intros (g & Hg & _). apply init_inv in Hg as (_ & _ & Hv & _).
      exact (calculate_variations_encodable _ _ Hv).
    + intros Henc. exact (init_ok str_lower (Some f) wound0 seed _ Hres Henc).
  - intros e He. apply init_error in He as [[_ Hbad] | (Hj & Hne & _)].
    + congruence.
    + auto.
  - intros ->. assert (H : FREQUENCY_MAP !! lit "417 Hz" = Some (lit "sacral"))
      by (vm_compute; reflexivity).
    congruence.
Qed.

Lemma C5_frequency_fallback_witness :
  exists g, __init__ ascii_lower (Some (lit "417 Hz")) (lit "anything")
                     (lit "test_mapping2") = Ok g /\
            wound g = lit "sacral".
Proof.
  apply (C5_frequency_fallback ascii_lower (lit "417 Hz") (lit "anything")
           (lit "test_mapping2") (lit "sacral")).
  - vm_compute. intros H. repeat (destruct H as [H | H]; [discriminate |]). exact H.
  - vm_compute. reflexivity.
  - apply encodableb_spec. vm_compute. reflexivity.
Defined.

(** ** C4: the errors of the constructor *)

(** C4, as stated, fails in its last part: with the category ["root"] and
    the label ["396 Hz"], both valid, and a seed made of the lone
    surrogate U+D800, the constructor raises [UnicodeEncodeError], raised
    by [solver_id.encode()] after the category was resolved. *)
Lemma C4_other_error :
  In (ascii_lower (lit "root")) categories /\
  FREQUENCY_MAP !! lit "396 Hz" = Some (lit "root") /\
  __init__ ascii_lower (Some (lit "396 Hz")) (lit "root") [0xD800]
    = Err (UnicodeEncodeError 0) /\
  UnicodeEncodeError 0 <> unsupported (lit "root").
Proof.
  split; [vm_compute; tauto |].
  split; [vm_compute; reflexivity |].
  split; [vm_compute; reflexivity | discriminate].
Qed.

(** C4, amended: the constructor raises the [ValueError] "Unsupported
    wound type" if and only if the lowercased category string is not a
    category and the frequency label is not a key of the frequency table;
    an error leaves no generator; the only other error is that of
    [str.encode], raised when the category was resolved and the seed has a
    code point UTF-8 cannot carry; for a seed [str.encode] accepts there
    is none. *)
Theorem C4_construction_errors (str_lower : str -> str)
    (freq : option str) (wound0 seed : str) :
  (__init__ str_lower freq wound0 seed = Err (unsupported wound0) <->
   ~ In (str_lower wound0) categories /\ freq ≫= (FREQUENCY_MAP !!.) = None) /\
  (forall e, __init__ str_lower freq wound0 seed = Err e ->
     (forall g, __init__ str_lower freq wound0 seed <> Ok g) /\
     (e = unsupported wound0 \/
      (exists j, e = UnicodeEncodeError j) /\ ~ UTF8.encodable seed /\
      exists w, resolve_wound str_lower freq wound0 = Ok w /\ In w categories)) /\
  (UTF8.encodable seed ->
   forall e, __init__ str_lower freq wound0 seed = Err e -> e = unsupported wound0).
Proof.
  split; [| split].
  - split.
    + intros He. apply init_error in He as [(_ & Hres) | ((j & Hj) & _)];
        [| discriminate].
      destruct (resolve_wound_cases str_lower freq wound0)
        as [(w & Hw & _) | (_ & Hnone & Hf)]; [congruence |].
      split; [| exact Hf]. rewrite <- COLOR_PALETTES_keys, Hnone.
      intros [p Hp]. discriminate.
    + intros (Hnot & Hf).
      assert (Hnone : COLOR_PALETTES !! str_lower wound0 = None).
      { destruct (COLOR_PALETTES !! str_lower wound0) as [p |] eqn:Hp; [| reflexivity].
        exfalso. apply Hnot, COLOR_PALETTES_keys. rewrite Hp. eauto. }
      unfold __init__.
      rewrite (resolve_wound_fails str_lower freq wound0 Hnone Hf). reflexivity.
  - intros e He. split; [congruence |].
    apply init_error in He as [(He & _) | (Hj & Hne & w & Hw)]; [left; exact He |].
    right. split; [exact Hj |]. split; [exact Hne |]. exists w. split; [exact Hw |].
    destruct (resolve_wound_cases str_lower freq wound0)
      as [(w' & Hw' & Hin) | (Herr & _)]; congruence.
  - intros Henc e He.
    apply init_error in He as [(He & _) | (_ & Hne & _)]; [exact He | contradiction].
Qed.

Lemma C4_construction_errors_witness :
  __init__ ascii_lower (Some (lit "999 Hz")) (lit "invalid_wound") (lit "test_invalid")
  = Err (ValueError (lit "Unsupported wound type: invalid_wound")).
Proof.
  apply (proj1 (C4_construction_errors ascii_lower (Some (lit "999 Hz"))
                  (lit "invalid_wound") (lit "test_invalid"))).
  split.
  - vm_compute. intros H. repeat (destruct H as [H | H]; [discriminate |]). exact H.
  - vm_compute. reflexivity.
Defined.

(** ** C8: the category is lowercased, the frequency label is not *)

Lemma FREQUENCY_MAP_keys (f : str) :
  is_Some (FREQUENCY_MAP !! f) <-> In f frequency_labels.
Proof.
  unfold frequency_labels. split.
  - intros [c Hc]. apply FREQUENCY_MAP_lookup in Hc.
    apply (in_map fst) in Hc. exact Hc.
  - intros Hf. apply in_map_iff in Hf as [[f' c] [Heq Hin]]. cbn in Heq. subst f'.
    exists c. apply FREQUENCY_MAP_lookup. exact Hin.
Qed.

(** C8: the category string is lowercased before its lookup, so ["ROOT"]
    resolves to ["root"] under any frequency label. The frequency label
    is looked up as it is: with a category string that is no category,
    the resolution succeeds exactly when the label is, code point for code
    point, one of the seven keys; the labels ["396 hz"] and ["396Hz"] are
    none of them, and the constructor then raises the [ValueError]. The
    hypothesis is what [str.lower] does on ASCII strings. *)
Theorem C8_case_sensitivity (str_lower : str -> str) :
  (forall s, is_ascii s -> str_lower s = ascii_lower s) ->
  (forall freq, resolve_wound str_lower freq (lit "ROOT") = Ok (lit "root")) /\
  (forall f wound0, ~ In (str_lower wound0) categories ->
     ((exists w, resolve_wound str_lower (Some f) wound0 = Ok w) <->
      In f frequency_labels)) /\
  (forall f wound0 seed, ~ In (str_lower wound0) categories ->
     f = lit "396 hz" \/ f = lit "396Hz" ->
     resolve_wound str_lower (Some f) wound0 = Err (unsupported wound0) /\
     __init__ str_lower (Some f) wound0 seed = Err (unsupported wound0)).
Proof.
  intros Hlower.
  assert (Hnone : forall wound0, ~ In (str_lower wound0) categories ->
                                 COLOR_PALETTES !! str_lower wound0 = None).
  { intros wound0 Hnot.
    destruct (COLOR_PALETTES !! str_lower wound0) as [p |] eqn:Hp; [| reflexivity].
    exfalso. apply Hnot, COLOR_PALETTES_keys. rewrite Hp. eauto. }
  split; [| split].
  - intros freq.
    assert (Hroot : str_lower (lit "ROOT") = lit "root").
    { rewrite Hlower; [reflexivity |]. unfold is_ascii.
      change (lit "ROOT") with [82; 79; 79; 84].
      repeat (apply List.Forall_cons; [lia |]). apply List.Forall_nil. }
    rewrite <- Hroot. apply resolve_wound_known. rewrite Hroot.
    apply COLOR_PALETTES_keys. vm_compute. tauto.
  - intros f wound0 Hnot. rewrite <- FREQUENCY_MAP_keys.
    unfold resolve_wound. rewrite (Hnone _ Hnot).
    destruct (FREQUENCY_MAP !! f) as [c |]; split.
    + intros _. eauto.
    + intros _. eauto.
    + intros [w Hw]. discriminate.
    + intros [c Hc]. discriminate.
  - intros f wound0 seed Hnot Hf.
    assert (Hmiss : Some f ≫= (FREQUENCY_MAP !!.) = None).
    { destruct Hf as [-> | ->]; vm_compute; reflexivity. }
    pose proof (resolve_wound_fails str_lower (Some f) wound0 (Hnone _ Hnot) Hmiss)
      as Hres.
    split; [exact Hres |]. unfold __init__. rewrite Hres. reflexivity.
Qed.

Lemma C8_case_sensitivity_witness :
  resolve_wound ascii_lower (Some (lit "417 Hz")) (lit "ROOT") = Ok (lit "root") /\
  __init__ ascii_lower (Some (lit "396 hz")) (lit "anything") (lit "solver123")
  = Err (unsupported (lit "anything")) /\
  __init__ ascii_lower (Some (lit "396Hz")) (lit "anything") (lit "solver123")
  = Err (unsupported (lit "anything")).
Proof.
  destruct (C8_case_sensitivity ascii_lower (fun s _ => eq_refl)) as (H1 & _ & H3).
  assert (Hnot : ~ In (ascii_lower (lit "anything")) categories).
  { vm_compute. intros H. repeat (destruct H as [H | H]; [discriminate |]). exact H. }
  split; [apply H1 |]. split.
  - apply (H3 (lit "396 hz") (lit "anything") (lit "solver123") Hnot). left. reflexivity.
  - apply (H3 (lit "396Hz") (lit "anything") (lit "solver123") Hnot). right. reflexivity.
Defined.

(** ** Methods: what a run can do to the heap *)

Section MethodFacts.

Context {W : Type}.
Variable perform : call -> W -> result W.
Variable P : call -> Prop.

#[local] Existing Instance M_ret.
#[local] Existing Instance M_bind.

Lemma emits_ret {A : Type} (a : A) : emits perform P (mret a : M A).
Proof.
  intros h. cbn. split; [reflexivity |]. split.
  - exists []. rewrite app_nil_r. split; [reflexivity | constructor].
  - discriminate.
Qed.

Lemma emits_get_self : emits perform P (get_self : M SigilGenerator).
Proof.
  intros h. cbn. split; [reflexivity |]. split.
  - exists []. rewrite app_nil_r. split; [reflexivity | constructor].
  - discriminate.
Qed.

Lemma emits_do_call (c : call) : P c -> emits perform P (do_call perform c).
Proof.
  intros Hc h. unfold do_call.
  destruct (perform c (world h)) as [w' | e] eqn:Hp; cbn.
  - split; [reflexivity |]. split; [| discriminate].
    exists [c]. split; [reflexivity |]. repeat constructor. exact Hc.
  - split; [reflexivity |]. split.
    + exists []. rewrite app_nil_r. split; [reflexivity | constructor].
    + intros e' [= <-]. eauto.
Qed.

Lemma emits_bind {A B : Type} (m : M A) (k : A -> M B) :
  emits perform P m -> (forall a, emits perform P (k a)) ->
  emits perform P (m ≫= k).
Proof.
  intros Hm Hk h. unfold mbind, M_bind.
  destruct (Hm h) as (Hs & (cs & Ht & Hcs) & He).
  destruct (m h) as [[a | e] h1]; cbn in *.
  - destruct (Hk a h1) as (Hs' & (cs' & Ht' & Hcs') & He').
    split; [congruence |]. split; [| exact He'].
    exists (cs ++ cs'). split.
    + rewrite Ht', Ht, app_assoc. reflexivity.
    + apply Forall_app. split; assumption.
  - split; [exact Hs |]. split; [eauto |].
    intros e' [= <-]. apply He. reflexivity.
Qed.

Lemma emits_for_each {A : Type} (xs : list A) (body : A -> M unit) :
  (forall x, emits perform P (body x)) -> emits perform P (for_each xs body).
Proof.
  intros Hbody. induction xs as [| x rest IH]; cbn [for_each].
  - apply emits_ret.
  - apply emits_bind; [apply Hbody | intros _; exact IH].
Qed.

End MethodFacts.

Ltac emits_step :=
  first
    [ apply emits_get_self
    | apply emits_ret
    | apply emits_do_call; reflexivity
    | apply emits_for_each; intros
    | apply emits_bind; [| intros] ].

Section GeometryFacts.

Context {W : Type}.
Variable perform : call -> W -> result W.

Lemma root_geometry_draws (center : Z * Z) (size : Z) :
  emits perform drawing (_draw_root_geometry perform center size).
Proof.
  unfold _draw_root_geometry. destruct center as [cx cy].
  repeat emits_step.
Qed.

Lemma sacral_geometry_draws (center : Z * Z) (size : Z) :
  emits perform drawing (_draw_sacral_geometry perform center size).
Proof.
  unfold _draw_sacral_geometry. destruct center as [cx cy].
  repeat emits_step.
Qed.

Lemma solar_plexus_geometry_draws (center : Z * Z) (size : Z) :
  emits perform drawing (_draw_solar_plexus_geometry perform center size).
Proof.
  unfold _draw_solar_plexus_geometry. destruct center as [cx cy].
  repeat emits_step.
  match goal with |- context [if ?b then _ else _] => destruct b end;
    repeat emits_step.
Qed.

End GeometryFacts.

(** ** [pathlib]: the string of a path parses back to the path *)

Section PathlibFacts.

Import Pathlib.

Lemma split_no_slash (s cur : str) :
  no_slash cur -> Forall no_slash (split s cur).
Proof.
  revert cur. induction s as [| c rest IH]; intros cur Hcur; cbn [split].
  - apply List.Forall_cons; [| apply List.Forall_nil].
    unfold no_slash in *. apply List.Forall_rev. exact Hcur.
  - destruct (c =? slash) eqn:Hc.
    + apply List.Forall_cons.
      * unfold no_slash in *. apply List.Forall_rev. exact Hcur.
      * apply IH. apply List.Forall_nil.
    + apply IH. apply List.Forall_cons; [| exact Hcur].
      apply Z.eqb_neq. exact Hc.
Qed.

Lemma Path_normal (s : str) : normal (Path s).
Proof.
  split; cbn [root parts Path].
  - unfold root_of. destruct (leading_slashes s) as [| [| [| n]]]; auto.
  - rewrite List.Forall_forall. intros x Hx. apply List.filter_In in Hx as [Hin Hk].
    split; [exact Hk |].
    pose proof (split_no_slash s [] (List.Forall_nil _)) as Hall.
    rewrite List.Forall_forall in Hall. apply Hall. exact Hin.
Qed.

Lemma split_app_no_slash (x rest cur : str) :
  no_slash x -> split (x ++ rest) cur = split rest (rev x ++ cur).
Proof.
  revert cur. induction x as [| c x IH]; intros cur Hx; [reflexivity |].
  apply List.Forall_cons_iff in Hx as [Hc Hx].
  cbn [app split]. apply Z.eqb_neq in Hc. rewrite Hc.
  rewrite (IH _ Hx). cbn [rev]. rewrite <- app_assoc. reflexivity.
Qed.

Lemma split_join (ps : list str) :
  ps <> [] -> Forall no_slash ps -> split (join ps) [] = ps.
Proof.
  induction ps as [| x rest IH]; intros Hne Hall; [congruence |].
  apply List.Forall_cons_iff in Hall as [Hx Hrest].
  destruct rest as [| y rest'].
  - cbn [join]. rewrite <- (app_nil_r x) at 1.
    rewrite (split_app_no_slash x [] [] Hx). cbn [split].
    rewrite app_nil_r, rev_involutive. reflexivity.
  - change (join (x :: y :: rest')) with (x ++ slash :: join (y :: rest')).
    rewrite (split_app_no_slash x _ [] Hx). cbn [split].
    rewrite Z.eqb_refl, app_nil_r, rev_involutive.
    rewrite IH; [reflexivity | discriminate | exact Hrest].
Qed.

Lemma filter_keep_components (ps : list str) :
  Forall component ps -> List.filter keep ps = ps.
Proof.
  induction 1 as [| x rest [Hk _] _ IH]; [reflexivity |].
  cbn [List.filter]. rewrite Hk, IH. reflexivity.
Qed.

(** The string of a non-empty list of components starts with a code
    point that is no slash. *)
Lemma join_head (ps : list str) :
  ps <> [] -> Forall component ps ->
  exists c rest, join ps = c :: rest /\ (c =? slash) = false.
Proof.
  intros Hne Hall. destruct ps as [| x rest]; [congruence |].
  apply List.Forall_cons_iff in Hall as [[Hk Hx] _].
  destruct x as [| c x']; [discriminate |].
  apply List.Forall_cons_iff in Hx as [Hc _]. apply Z.eqb_neq in Hc.
  destruct rest; cbn [join app]; eauto.
Qed.

Lemma components_no_slash (ps : list str) :
  Forall component ps -> Forall no_slash ps.
Proof. apply List.Forall_impl. intros x [_ Hx]. exact Hx. Qed.

(** [Path(str(p)) == p] for every path in normal form. *)
Lemma Path_to_str (p : PurePath) : normal p -> Path (to_str p) = p.
Proof.
  destruct p as [r ps]. intros [Hroot Hparts]. cbn [root parts] in *.
  pose proof (components_no_slash ps Hparts) as Hns.
  destruct ps as [| x rest].
  - destruct Hroot as [-> | [-> | ->]]; reflexivity.
  - assert (Hne : x :: rest <> []) by discriminate.
    destruct (join_head _ Hne Hparts) as (c & tl & Hj & Hc).
    pose proof (split_join _ Hne Hns) as Hsplit.
    pose proof (filter_keep_components _ Hparts) as Hfilter.
    unfold Path, to_str. cbn [root parts].
    destruct Hroot as [-> | [-> | ->]].
    + cbn [app]. rewrite Hsplit. f_equal; [| exact Hfilter].
      unfold root_of. rewrite Hj. cbn [leading_slashes]. rewrite Hc. reflexivity.
    + cbn [app split]. rewrite Z.eqb_refl. cbn [rev List.filter keep].
      rewrite Hsplit. f_equal; [| exact Hfilter].
      unfold root_of. rewrite Hj. cbn [leading_slashes]. rewrite Hc.
      reflexivity.
    + cbn [app split]. rewrite !Z.eqb_refl.
      cbn [rev List.filter keep]. rewrite Hsplit. f_equal; [| exact Hfilter].
      unfold root_of. rewrite Hj. cbn [leading_slashes]. rewrite Hc.
      reflexivity.
Qed.

(** [Path(str(Path(s))) == Path(s)]: the string returned denotes the
    path asked for. *)
Lemma Path_idempotent (s : str) : Path (to_str (Path s)) = Path s.
Proof. apply Path_to_str, Path_normal. Qed.

End PathlibFacts.

(** ** [generate] *)

Section GenerateFacts.

Context {W : Type}.
Variable perform : call -> W -> result W.

#[local] Existing Instance M_ret.
#[local] Existing Instance M_bind.

Lemma do_call_ok (c : call) (h h' : heap) (u : unit) :
  do_call perform c h = (Ok u, h') ->
  self h' = self h /\ trace h' = trace h ++ [c] /\
  perform c (world h) = Ok (world h').
Proof.
  unfold do_call. destruct (perform c (world h)) as [w' | e]; [| discriminate].
  intros [= _ <-]. cbn. auto.
Qed.

Lemma do_call_err (c : call) (h h' : heap) (e : exn) :
  do_call perform c h = (Err e, h') -> h' = h /\ perform c (world h) = Err e.
Proof.
  unfold do_call. destruct (perform c (world h)) as [w' | e']; [discriminate |].
  intros [= <- <-]. auto.
Qed.

(** The block of [generate] that picks the geometry draws and does
    nothing else. *)
Lemma geometry_draws (g : SigilGenerator) (image_size : Z) :
  emits perform drawing
    (if decide (wound g = lit "root") then
       _draw_root_geometry perform (image_size / 2, image_size / 2) (image_size / 3)
     else if decide (wound g = lit "sacral") then
       _draw_sacral_geometry perform (image_size / 2, image_size / 2) (image_size / 3)
     else if decide (wound g = lit "solar_plexus") then
       _draw_solar_plexus_geometry perform (image_size / 2, image_size / 2)
                                   (image_size / 3)
     else
       for_each (Py.range (layer_count (variations g))) (fun i =>
         let radius :=
           (Py.float_of_int (image_size / 3) * (1 - Py.float_of_int i * 0.2))%float in
         let color :=
           if i mod 2 =? 0 then primary (colors g) else secondary (colors g) in
         let bbox := {| centre := At (fst (image_size / 2, image_size / 2))
                                     (snd (image_size / 2, image_size / 2));
                        half := radius |} in
         do_call perform (DrawEllipse bbox color (line_weight (variations g))))).
Proof.
  repeat case_decide.
  - apply root_geometry_draws.
  - apply sacral_geometry_draws.
  - apply solar_plexus_geometry_draws.
  - repeat emits_step.
Qed.

(** A run of four calls around a block that only draws. *)
Lemma framed_run (c1 c2 c3 c4 : call) (block : M unit) (ret : str) :
  emits perform drawing block ->
  forall h : heap,
    let m : M str :=
      do_call perform c1;; do_call perform c2;; do_call perform c3;;
      block;; do_call perform c4;; mret ret in
    (forall r h', m h = (Ok r, h') ->
       r = ret /\ self h' = self h /\
       exists draws, trace h' = trace h ++ [c1; c2; c3] ++ draws ++ [c4] /\
                     Forall drawing draws) /\
    (forall e h', m h = (Err e, h') ->
       self h' = self h /\ (exists c w, perform c w = Err e) /\
       exists cs, trace h' = trace h ++ cs /\
                  Forall (fun c => In c [c1; c2; c3] \/ drawing c) cs).
Proof.
  intros Hblock h m. subst m. unfold mbind, M_bind, mret, M_ret.
  destruct (do_call perform c1 h) as [[[] | e1] h1] eqn:H1.
  2:{ apply do_call_err in H1 as [-> Hp]. split; [discriminate |].
      intros e h' [= <- <-]. split; [reflexivity |]. split; [eauto |].
      exists []. rewrite app_nil_r. split; [reflexivity | apply List.Forall_nil]. }
  apply do_call_ok in H1 as (Hs1 & Ht1 & _).
  destruct (do_call perform c2 h1) as [[[] | e2] h2] eqn:H2.
  2:{ apply do_call_err in H2 as [-> Hp]. split; [discriminate |].
      intros e h' [= <- <-]. split; [exact Hs1 |]. split; [eauto |].
      exists [c1]. split; [exact Ht1 |]. repeat (apply List.Forall_cons; [left; cbn; auto 6 |]); apply List.Forall_nil. }
  apply do_call_ok in H2 as (Hs2 & Ht2 & _).
  destruct (do_call perform c3 h2) as [[[] | e3] h3] eqn:H3.
  2:{ apply do_call_err in H3 as [-> Hp]. split; [discriminate |].
      intros e h' [= <- <-]. split; [congruence |]. split; [eauto |].
      exists [c1; c2]. split; [rewrite Ht2, Ht1, <- app_assoc; reflexivity |].
      repeat (apply List.Forall_cons; [left; cbn; auto 6 |]); apply List.Forall_nil. }
  apply do_call_ok in H3 as (Hs3 & Ht3 & _).
  assert (Ht123 : trace h3 = trace h ++ [c1; c2; c3]).
  { rewrite Ht3, Ht2, Ht1, <- !app_assoc. reflexivity. }
  assert (Hs123 : self h3 = self h) by congruence.
  destruct (Hblock h3) as (Hsb & (draws & Htb & Hdraws) & Heb).
  assert (Hprefix : Forall (fun c => In c [c1; c2; c3] \/ drawing c)
                           ([c1; c2; c3] ++ draws)).
  { apply Forall_app. split.
    - repeat (apply List.Forall_cons; [left; cbn; auto 6 |]); apply List.Forall_nil.
    - revert Hdraws. apply List.Forall_impl. auto. }
  destruct (block h3) as [[[] | eb] h4] eqn:H4; cbn [fst snd] in *.
  2:{ split; [discriminate |].
      intros e h' [= <- <-]. split; [congruence |]. split; [apply Heb; reflexivity |].
      exists ([c1; c2; c3] ++ draws). split; [| exact Hprefix].
      rewrite Htb, Ht123, <- app_assoc. reflexivity. }
  destruct (do_call perform c4 h4) as [[[] | e4] h5] eqn:H5.
  2:{ apply do_call_err in H5 as [-> Hp]. split; [discriminate |].
      intros e h' [= <- <-]. split; [congruence |]. split; [eauto |].
      exists ([c1; c2; c3] ++ draws). split; [| exact Hprefix].
      rewrite Htb, Ht123, <- app_assoc. reflexivity. }
  apply do_call_ok in H5 as (Hs5 & Ht5 & _).
  split; [| discriminate].
  intros r h' [= <- <-]. split; [reflexivity |]. split; [congruence |].
  exists draws. split; [| exact Hdraws].
  rewrite Ht5, Htb, Ht123, <- !app_assoc. reflexivity.
Qed.

(** [generate] is such a run. *)
Lemma generate_shape (output_path : str) (image_size : Z) (h : heap) :
  let p := Pathlib.Path output_path in
  let g := self h in
  let c1 := PathMkdir (Pathlib.parent p) true true in
  let c2 := ImageNew (lit "RGB") (image_size, image_size) (background (colors g)) in
  let c4 := ImageSave (Pathlib.to_str p) in
  (forall r h', generate perform output_path image_size h = (Ok r, h') ->
     r = Pathlib.to_str p /\ self h' = g /\
     exists draws, trace h' = trace h ++ [c1; c2; ImageDrawDraw] ++ draws ++ [c4] /\
                   Forall drawing draws) /\
  (forall e h', generate perform output_path image_size h = (Err e, h') ->
     self h' = g /\ (exists c w, perform c w = Err e) /\
     exists cs, trace h' = trace h ++ cs /\
                Forall (fun c => In c [c1; c2; ImageDrawDraw] \/ drawing c) cs).
Proof.
  intros p g c1 c2 c4.
  exact (framed_run c1 c2 ImageDrawDraw c4 _ (Pathlib.to_str p)
           (geometry_draws g image_size) h).
Qed.

Lemma generate_self (output_path : str) (image_size : Z) (h : heap) :
  self (snd (generate perform output_path image_size h)) = self h.
Proof.
  destruct (generate_shape output_path image_size h) as [Hok Herr].
  destruct (generate perform output_path image_size h) as [[r | e] h'] eqn:Hg.
  - destruct (Hok r h' eq_refl) as (_ & Hs & _). exact Hs.
  - destruct (Herr e h' eq_refl) as (Hs & _). exact Hs.
Qed.

Lemma generate_all_self (calls : list (str * Z)) (h : heap) :
  self (generate_all perform calls h) = self h.
Proof.
  unfold generate_all. revert h.
  induction calls as [| [path size] rest IH]; intros h; [reflexivity |].
  cbn [fold_left fst snd]. rewrite IH. apply generate_self.
Qed.

End GenerateFacts.

Lemma init_category (str_lower : str -> str) (freq : option str)
    (wound0 seed : str) (g : SigilGenerator) :
  __init__ str_lower freq wound0 seed = Ok g ->
  In (wound g) categories /\ COLOR_PALETTES !! wound g = Some (colors g).
Proof.
  intros Hg. apply init_inv in Hg as (Hw & Hc & _). split; [| exact Hc].
  apply COLOR_PALETTES_keys. rewrite Hc. eauto.
Qed.

(** ** C7: what [generate] does *)

(** C7, as stated, fails on three counts, none of which the code
    guards against. In an environment where [Image.new] refuses a
    negative size, as Pillow does, [generate("out.png", -1)] raises that
    [ValueError] after the directory was made, and no raster is written.
    [generate("./out.png", 512)] returns ["out.png"], the string of
    [Path("./out.png")], which is not the string asked for. And where
    [save] finds no format for a path without an extension, as in Pillow,
    [generate("out", 512)] raises after the drawing, and writes
    nothing. *)
Lemma C7_counterexample :
  exists g,
    __init__ ascii_lower (Some (lit "396 Hz")) (lit "root") (lit "solver123") = Ok g /\
    generate pillow (lit "out.png") (-1) {| self := g; world := tt; trace := [] |}
    = (Err (ValueError (lit "Width and height must be >= 0")),
       {| self := g; world := tt;
          trace := [PathMkdir (Pathlib.parent (Pathlib.Path (lit "out.png"))) true true] |}) /\
    fst (generate pillow (lit "./out.png") 512 {| self := g; world := tt; trace := [] |})
    = Ok (lit "out.png") /\
    lit "out.png" <> lit "./out.png" /\
    fst (generate pillow (lit "out") 512 {| self := g; world := tt; trace := [] |})
    = Err (ValueError (lit "unknown file extension: ")).
Proof.
  eexists. split; [vm_compute; reflexivity |].
  split; [vm_compute; reflexivity |].
  split; [vm_compute; reflexivity |].
  split; [discriminate | vm_compute; reflexivity].
Qed.

(** The amended claim is proved further down, as [C7_generate], once
    [generate] has been shown to be the run of its calls. *)

(** ** C9: the generator after construction and across calls of
    [generate] *)

(** C9: a generator the constructor returned holds one of the seven
    categories and the palette the table gives for it; and after any
    sequence of calls of [generate] on it, in any environment, whether they
    return or raise, the object is what it was, category, palette and
    parameters included. *)
Theorem C9_generator_invariant {W : Type} (perform : call -> W -> result W)
    (str_lower : str -> str) (freq : option str) (wound0 seed : str)
    (g : SigilGenerator) :
  __init__ str_lower freq wound0 seed = Ok g ->
  In (wound g) categories /\
  COLOR_PALETTES !! wound g = Some (colors g) /\
  forall (calls : list (str * Z)) (h : heap),
    self h = g ->
    let h' := generate_all perform calls h in
    self h' = g /\
    wound (self h') = wound g /\
    colors (self h') = colors g /\
    variations (self h') = variations g.
Proof.
  intros Hg. destruct (init_category _ _ _ _ _ Hg) as [Hin Hpal].
  split; [exact Hin |]. split; [exact Hpal |].
  intros calls h Hself h'. subst h'.
  rewrite (generate_all_self perform calls h), Hself. auto.
Qed.

Lemma C9_generator_invariant_witness :
  exists g,
    __init__ ascii_lower (Some (lit "417 Hz")) (lit "anything") (lit "solver123") = Ok g /\
    wound g = lit "sacral" /\
    In (wound g) categories /\
    self (generate_all pillow
            [(lit "a/b/first.png", 512); (lit "second.png", -1); (lit "third.png", 256)]
            {| self := g; world := tt; trace := [] |}) = g.
Proof.
  eexists. split; [vm_compute; reflexivity |]. split; [reflexivity |].
  match goal with
  | |- context [ {| self := ?g; world := tt; trace := [] |} ] =>
      destruct (C9_generator_invariant pillow ascii_lower (Some (lit "417 Hz"))
                  (lit "anything") (lit "solver123") g
                  ltac:(vm_compute; reflexivity)) as (Hin & _ & Hcalls);
      split; [exact Hin |];
      exact (proj1 (Hcalls _ {| self := g; world := tt; trace := [] |} eq_refl))
  end.
Defined.

(** ** C10: [FrequencyMapper.map_frequency_to_chakra] *)

Section FrequencyMapperFacts.

Import FrequencyMapper.

Lemma in_range_spec (freq_range : Q * Q) (frequency : Q) :
  in_range freq_range frequency = true <->
  (fst freq_range <= frequency)%Q /\ (frequency <= snd freq_range)%Q.
Proof.
  unfold in_range. rewrite andb_true_iff, !Qle_bool_iff. reflexivity.
Qed.

Lemma first_in_range_some (items : list (str * (Q * Q))) (frequency : Q)
    (chakra : str) :
  first_in_range items frequency = Some chakra <->
  exists before freq_range after,
    items = before ++ (chakra, freq_range) :: after /\
    in_range freq_range frequency = true /\
    Forall (fun item => in_range (snd item) frequency = false) before.
Proof.
  induction items as [| [c r] rest IH]; cbn [first_in_range].
  - split; [discriminate |].
    intros (before & r & after & Heq & _). destruct before; discriminate.
  - destruct (in_range r frequency) eqn:Hr.
    + split.
      * intros [= <-]. exists [], r, rest. repeat split; [exact Hr | constructor].
      * intros (before & r' & after & Heq & Hin & Hbefore).
        destruct before as [| [c0 r0] before'].
        -- injection Heq as -> -> _. reflexivity.
        -- injection Heq as -> -> _.
           apply List.Forall_cons_iff in Hbefore as [Hfalse _]. cbn in Hfalse.
           congruence.
    + rewrite IH. split.
      * intros (before & r' & after & -> & Hin & Hbefore).
        exists ((c, r) :: before), r', after.
        repeat split; [exact Hin |]. apply List.Forall_cons; assumption.
      * intros (before & r' & after & Heq & Hin & Hbefore).
        destruct before as [| [c0 r0] before'].
        -- injection Heq as -> -> _. congruence.
        -- injection Heq as -> -> ->.
           apply List.Forall_cons_iff in Hbefore as [_ Hbefore].
           exists before', r', after. auto.
Qed.

Lemma first_in_range_none (items : list (str * (Q * Q))) (frequency : Q) :
  first_in_range items frequency = None <->
  Forall (fun item => in_range (snd item) frequency = false) items.
Proof.
  induction items as [| [c r] rest IH]; cbn [first_in_range].
  - split; [constructor | reflexivity].
  - destruct (in_range r frequency) eqn:Hr.
    + split; [discriminate |]. intros H.
      apply List.Forall_cons_iff in H as [H _]. cbn in H. congruence.
    + rewrite IH. split.
      * intros H. apply List.Forall_cons; assumption.
      * intros H. apply List.Forall_cons_iff in H as [_ H]. exact H.
Qed.

End FrequencyMapperFacts.

(** C10: [map_frequency_to_chakra] returns a chakra exactly when that
    chakra is the first item of the mapping, in the dict's order, whose
    closed range [[lo, hi]] holds the frequency, and returns [None], not an
    error, exactly when no range holds it. On the mapper of the module,
    45 gives ["Solar Plexus"], while 30.5, between the ranges [(20, 30)]
    and [(31, 40)], gives [None]. *)
Theorem C10_first_matching_range (m : FrequencyMapper.t) (frequency : Q) :
  (forall chakra,
     FrequencyMapper.map_frequency_to_chakra m frequency = Some chakra <->
     exists before lo hi after,
       FrequencyMapper.chakra_mappings m = before ++ (chakra, (lo, hi)) :: after /\
       (lo <= frequency)%Q /\ (frequency <= hi)%Q /\
       Forall (fun item => ~ ((fst (snd item) <= frequency)%Q /\
                              (frequency <= snd (snd item))%Q)) before) /\
  (FrequencyMapper.map_frequency_to_chakra m frequency = None <->
   Forall (fun item => ~ ((fst (snd item) <= frequency)%Q /\
                          (frequency <= snd (snd item))%Q))
          (FrequencyMapper.chakra_mappings m)) /\
  FrequencyMapper.map_frequency_to_chakra FrequencyMapper.frequency_mapper (45 # 1)
  = Some (lit "Solar Plexus") /\
  FrequencyMapper.map_frequency_to_chakra FrequencyMapper.frequency_mapper (61 # 2)
  = None.
Proof.
  assert (Hfalse : forall (items : list (str * (Q * Q))),
            Forall (fun item => FrequencyMapper.in_range (snd item) frequency = false) items
            <-> Forall (fun item => ~ ((fst (snd item) <= frequency)%Q /\
                                       (frequency <= snd (snd item))%Q)) items).
  { intros items. rewrite !List.Forall_forall. split; intros H item Hin.
    - rewrite <- in_range_spec. rewrite (H item Hin). discriminate.
    - specialize (H item Hin). rewrite <- in_range_spec in H.
      destruct (FrequencyMapper.in_range (snd item) frequency); congruence. }
  unfold FrequencyMapper.map_frequency_to_chakra.
  split; [| split; [| split]].
  - intros chakra. rewrite first_in_range_some. split.
    + intros (before & [lo hi] & after & Heq & Hin & Hbefore).
      apply in_range_spec in Hin as [Hlo Hhi].
      exists before, lo, hi, after. rewrite <- Hfalse. auto.
    + intros (before & lo & hi & after & Heq & Hlo & Hhi & Hbefore).
      exists before, (lo, hi), after. rewrite Hfalse.
      split; [exact Heq |]. split; [| exact Hbefore].
      apply in_range_spec. auto.
  - rewrite first_in_range_none. apply Hfalse.
  - vm_compute. reflexivity.
  - vm_compute. reflexivity.
Qed.

Lemma C10_first_matching_range_witness :
  exists before lo hi after,
    FrequencyMapper.chakra_mappings FrequencyMapper.frequency_mapper
    = before ++ (lit "Solar Plexus", (lo, hi)) :: after /\
    (lo <= 45 # 1)%Q /\ (45 # 1 <= hi)%Q.
Proof.
  destruct (C10_first_matching_range FrequencyMapper.frequency_mapper (45 # 1))
    as (Hsome & _).
  destruct (proj1 (Hsome (lit "Solar Plexus")) ltac:(vm_compute; reflexivity))
    as (before & lo & hi & after & Heq & Hlo & Hhi & _).
  exists before, lo, hi, after. auto.
Defined.

(** * Further properties *)

(** ** [str.encode], further *)

Lemma encode_from_first_refused (s : str) :
  forall k e,
    UTF8.encode_from k s = Err e <->
    exists i c, e = UnicodeEncodeError (k + i) /\ s !! i = Some c /\
                UTF8.encode_char c = None /\ UTF8.encodable (take i s).
Proof.
  induction s as [| c rest IH]; intros k e; cbn.
  - split; [discriminate |]. intros (i & c & _ & H & _). destruct i; discriminate.
  - destruct (UTF8.encode_char c) as [bs |] eqn:Hc.
    + destruct (UTF8.encode_from (S k) rest) as [tl | e'] eqn:Hrest; cbn.
      * split; [discriminate |].
        intros (i & c' & -> & Hi & Hc' & Henc). destruct i as [| i]; cbn in Hi.
        -- injection Hi as <-. congruence.
        -- assert (UTF8.encode_from (S k) rest = Err (UnicodeEncodeError (S k + i))) as H.
           { apply IH. exists i, c'. cbn in Henc. apply Forall_cons in Henc. tauto. }
           rewrite Hrest in H. discriminate.
      * split.
        -- intros [= <-]. apply IH in Hrest as (i & c' & -> & Hi & Hc' & Henc).
           exists (S i), c'. split; [f_equal; lia |]. split; [exact Hi |].
           split; [exact Hc' |]. cbn. apply Forall_cons. split; [congruence | exact Henc].
        -- intros (i & c' & -> & Hi & Hc' & Henc). destruct i as [| i]; cbn in Hi.
           ++ injection Hi as <-. congruence.
           ++ assert (UTF8.encode_from (S k) rest = Err (UnicodeEncodeError (S k + i))) as H.
              { apply IH. exists i, c'. cbn in Henc. apply Forall_cons in Henc. tauto. }
              rewrite Hrest in H. injection H as ->. f_equal. f_equal. lia.
    + split.
      * intros [= <-]. exists 0%nat, c. split; [f_equal; lia |]. split; [reflexivity |].
        split; [exact Hc |]. cbn. apply Forall_nil. exact I.
      * intros (i & c' & -> & Hi & Hc' & Henc). destruct i as [| i]; cbn in Hi.
        -- f_equal. f_equal. lia.
        -- cbn in Henc. apply Forall_cons in Henc. tauto.
Qed.

(** X1: [_calculate_variations] raises exactly when the seed holds a code
    point that UTF-8 refuses, and the [UnicodeEncodeError] it raises
    carries the index of the first such code point. *)
Theorem X1_calculate_variations_error_position (seed : str) (e : exn) :
  _calculate_variations seed = Err e <->
  exists i c, e = UnicodeEncodeError i /\ seed !! i = Some c /\
              UTF8.encode_char c = None /\ UTF8.encodable (take i seed).
Proof.
  unfold _calculate_variations, UTF8.encode.
  rewrite <- (encode_from_first_refused seed 0 e).
  destruct (UTF8.encode_from 0 seed) as [encoded | e']; cbn; split; congruence.
Qed.

Lemma encode_char_ascii (c : Z) : 0 <= c < 128 -> UTF8.encode_char c = Some [c].
Proof.
  intros H. unfold UTF8.encode_char.
  destruct (Z.ltb_spec c 0); [lia |]. destruct (Z.ltb_spec c 128); [reflexivity | lia].
Qed.

Lemma encode_from_ascii (s : str) :
  is_ascii s -> forall i, UTF8.encode_from i s = Ok s.
Proof.
  induction 1 as [| c rest Hc _ IH]; intros i; cbn; [reflexivity |].
  rewrite (encode_char_ascii _ Hc), IH. reflexivity.
Qed.

(** X2: an ASCII seed is hashed as it stands: its bytes are its code
    points, so the parameters are those of the SHA-256 digest of the seed
    itself, and the constructor cannot fail on the seed. *)
Theorem X2_calculate_variations_ascii (seed : str) :
  is_ascii seed ->
  UTF8.encode seed = Ok seed /\
  _calculate_variations seed = Ok (variations_of_digest (SHA256.digest seed)).
Proof.
  intros H. pose proof (encode_from_ascii _ H 0%nat) as He.
  split; [exact He |]. apply calculate_variations_ok. exact He.
Qed.

Lemma X2_calculate_variations_ascii_witness :
  is_ascii (lit "solver123") /\
  _calculate_variations (lit "solver123")
  = Ok (variations_of_digest (SHA256.digest (lit "solver123"))).
Proof.
  assert (is_ascii (lit "solver123")) as H.
  { unfold is_ascii. change (lit "solver123") with [115; 111; 108; 118; 101; 114; 49; 50; 51].
    repeat (apply List.Forall_cons; [lia |]). apply List.Forall_nil. }
  split; [exact H |]. exact (proj2 (X2_calculate_variations_ascii _ H)).
Defined.

(** The bytes of one code point: between one and four, each a byte, and
    the first tells how many follow. *)
Lemma encode_char_shape (c : Z) (bs : list Z) :
  UTF8.encode_char c = Some bs ->
  (0 <= c < 0x80 /\ bs = [c]) \/
  (0x80 <= c < 0x800 /\ bs = [0xC0 + c / 64; 0x80 + c mod 64]) \/
  (0x800 <= c < 0x10000 /\
   bs = [0xE0 + c / 4096; 0x80 + (c / 64) mod 64; 0x80 + c mod 64]) \/
  (0x10000 <= c < 0x110000 /\
   bs = [0xF0 + c / 262144; 0x80 + (c / 4096) mod 64;
         0x80 + (c / 64) mod 64; 0x80 + c mod 64]).
Proof.
  unfold UTF8.encode_char.
  destruct (Z.ltb_spec c 0); [discriminate |].
  destruct (Z.ltb_spec c 0x80); [intros [= <-]; left; split; [lia | reflexivity] |].
  destruct (Z.ltb_spec c 0x800); [intros [= <-]; right; left; split; [lia | reflexivity] |].
  destruct (Z.ltb_spec c 0x10000).
  - destruct (UTF8.is_surrogate c); [discriminate |].
    intros [= <-]; right; right; left; split; [lia | reflexivity].
  - destruct (Z.ltb_spec c 0x110000); [| discriminate].
    intros [= <-]; right; right; right; split; [lia | reflexivity].
Qed.

Lemma encode_char_bytes (c : Z) (bs : list Z) :
  UTF8.encode_char c = Some bs ->
  Forall (fun b => 0 <= b < 256) bs /\ (1 <= length bs <= 4)%nat.
Proof.
  intros H. apply encode_char_shape in H.
  destruct H as [[Hc ->] | [[Hc ->] | [[Hc ->] | [Hc ->]]]]; cbn [length];
    (split; [| lia]);
    repeat (apply List.Forall_cons; [Z.div_mod_to_equations; lia |]); apply List.Forall_nil.
Qed.

Lemma encode_char_inj (c1 c2 : Z) (b1 b2 t1 t2 : list Z) :
  UTF8.encode_char c1 = Some b1 -> UTF8.encode_char c2 = Some b2 ->
  b1 ++ t1 = b2 ++ t2 -> c1 = c2 /\ t1 = t2.
Proof.
  intros H1 H2. apply encode_char_shape in H1, H2.
  destruct H1 as [[Hc1 ->] | [[Hc1 ->] | [[Hc1 ->] | [Hc1 ->]]]];
  destruct H2 as [[Hc2 ->] | [[Hc2 ->] | [[Hc2 ->] | [Hc2 ->]]]];
  cbn [app]; intros [=]; subst; try (split; [| reflexivity]);
  try (Z.div_mod_to_equations; lia).
Qed.

Lemma encode_from_inj (s1 : str) :
  forall s2 i j bs, UTF8.encode_from i s1 = Ok bs -> UTF8.encode_from j s2 = Ok bs ->
  s1 = s2.
Proof.
  induction s1 as [| c1 r1 IH]; intros [| c2 r2] i j bs; cbn.
  - reflexivity.
  - intros [= <-]. destruct (UTF8.encode_char c2) as [b2 |] eqn:H2; [| discriminate].
    destruct (UTF8.encode_from (S j) r2); cbn; [| discriminate].
    intros [= H]. apply encode_char_bytes in H2 as [_ Hl].
    destruct b2; [cbn in Hl; lia | discriminate].
  - destruct (UTF8.encode_char c1) as [b1 |] eqn:H1; [| discriminate].
    destruct (UTF8.encode_from (S i) r1); cbn; [| discriminate].
    intros [= <-] [= H]. apply encode_char_bytes in H1 as [_ Hl].
    destruct b1; [cbn in Hl; lia | discriminate].
  - destruct (UTF8.encode_char c1) as [b1 |] eqn:H1; [| discriminate].
    destruct (UTF8.encode_from (S i) r1) as [t1 |] eqn:Hr1; cbn; [| discriminate].
    destruct (UTF8.encode_char c2) as [b2 |] eqn:H2; [| discriminate].
    destruct (UTF8.encode_from (S j) r2) as [t2 |] eqn:Hr2; cbn; [| discriminate].
    intros [= <-] [= H].
    destruct (encode_char_inj _ _ _ _ _ _ H1 H2 (eq_sym H)) as [-> ->].
    f_equal. exact (IH _ _ _ _ Hr1 Hr2).
Qed.

(** X3: [str.encode] loses nothing: two seeds with the same bytes are the
    same seed. Two different seeds are told apart by the bytes hashed,
    and can share their parameters only through the digest. *)
Theorem X3_encode_injective (s1 s2 : str) (bs : list Z) :
  UTF8.encode s1 = Ok bs -> UTF8.encode s2 = Ok bs -> s1 = s2.
Proof. apply encode_from_inj. Qed.

Lemma X3_encode_injective_witness :
  UTF8.encode (lit "solver_alpha") = Ok (lit "solver_alpha") /\
  lit "solver_alpha" = lit "solver_alpha".
Proof.
  assert (UTF8.encode (lit "solver_alpha") = Ok (lit "solver_alpha")) as H
    by (vm_compute; reflexivity).
  split; [exact H | exact (X3_encode_injective _ _ _ H H)].
Defined.

Lemma encode_from_bytes (s : str) :
  forall i bs, UTF8.encode_from i s = Ok bs ->
  Forall (fun b => 0 <= b < 256) bs /\
  (length s <= length bs <= 4 * length s)%nat.
Proof.
  induction s as [| c rest IH]; intros i bs; cbn.
  - intros [= <-]. split; [apply List.Forall_nil | cbn; lia].
  - destruct (UTF8.encode_char c) as [b |] eqn:Hc; [| discriminate].
    destruct (UTF8.encode_from (S i) rest) as [tl |] eqn:Hr; cbn; [| discriminate].
    intros [= <-]. apply encode_char_bytes in Hc as [Hb Hl].
    destruct (IH _ _ Hr) as [Ht Hlt]. split.
    + apply Forall_app. split; assumption.
    + rewrite length_app. lia.
Qed.

(** X4: what [str.encode] hands to SHA-256 is a sequence of bytes, at
    least one and at most four for each code point of the seed. *)
Theorem X4_encode_bytes (seed : str) (bs : list Z) :
  UTF8.encode seed = Ok bs ->
  Forall (fun b => 0 <= b < 256) bs /\
  (length seed <= length bs <= 4 * length seed)%nat.
Proof. apply encode_from_bytes. Qed.

Lemma X4_encode_bytes_witness :
  exists bs, UTF8.encode [0x20AC; 0x1F600] = Ok bs /\
             Forall (fun b => 0 <= b < 256) bs /\ (2 <= length bs <= 8)%nat.
Proof.
  eexists. split; [vm_compute; reflexivity |].
  apply (X4_encode_bytes [0x20AC; 0x1F600]). vm_compute. reflexivity.
Defined.

(** ** The tables, further *)

(** X5: the frequency table is one-to-one onto the seven categories: no
    two labels name the same category, and every category has a label. *)
Theorem X5_FREQUENCY_MAP_one_to_one :
  (forall f1 f2 c, FREQUENCY_MAP !! f1 = Some c -> FREQUENCY_MAP !! f2 = Some c ->
                   f1 = f2) /\
  (forall c, In c categories <-> exists f, FREQUENCY_MAP !! f = Some c).
Proof.
  split.
  - intros f1 f2 c H1 H2. apply FREQUENCY_MAP_lookup in H1, H2.
    vm_compute in H1, H2.
    repeat (destruct H1 as [H1 | H1]); try contradiction;
      injection H1 as <- <-;
      repeat (destruct H2 as [H2 | H2]); try contradiction;
      first [ discriminate H2 | injection H2 as <-; reflexivity ].
  - intros c. split.
    + intros H. vm_compute in H.
      repeat (destruct H as [H | H]); try contradiction; subst c.
      * exists (lit "396 Hz"). apply FREQUENCY_MAP_lookup. vm_compute. tauto.
      * exists (lit "417 Hz"). apply FREQUENCY_MAP_lookup. vm_compute. tauto.
      * exists (lit "528 Hz"). apply FREQUENCY_MAP_lookup. vm_compute. tauto.
      * exists (lit "639 Hz"). apply FREQUENCY_MAP_lookup. vm_compute. tauto.
      * exists (lit "741 Hz"). apply FREQUENCY_MAP_lookup. vm_compute. tauto.
      * exists (lit "852 Hz"). apply FREQUENCY_MAP_lookup. vm_compute. tauto.
      * exists (lit "963 Hz"). apply FREQUENCY_MAP_lookup. vm_compute. tauto.
    + intros [f H]. exact (FREQUENCY_MAP_range _ _ H).
Qed.

Lemma palette_cases (c : str) (p : Palette) (P : Palette -> Prop) :
  Forall (fun item => P (snd item)) COLOR_PALETTES_items ->
  COLOR_PALETTES !! c = Some p -> P p.
Proof.
  intros HP H. apply COLOR_PALETTES_lookup in H.
  rewrite List.Forall_forall in HP. exact (HP _ H).
Qed.

Lemma background_inj (c1 c2 : str) (p1 p2 : Palette) :
  COLOR_PALETTES !! c1 = Some p1 -> COLOR_PALETTES !! c2 = Some p2 ->
  background p1 = background p2 -> c1 = c2.
Proof.
  intros H1 H2. apply COLOR_PALETTES_lookup in H1, H2. vm_compute in H1, H2.
  repeat (destruct H1 as [H1 | H1]); try contradiction;
    injection H1 as <- <-;
    repeat (destruct H2 as [H2 | H2]); try contradiction;
    injection H2 as <- <-; cbn; intros Hb;
    first [ discriminate Hb | reflexivity ].
Qed.

(** X6: the palette of a constructed generator holds four RGB colours
    with channels in [0,255], none of the three drawing colours is the
    background, and the background tells the category: two constructed
    generators with the same background have the same category. *)
Theorem X6_constructed_palette (lower1 lower2 : str -> str) (f1 f2 : option str)
    (w1 w2 s1 s2 : str) (g1 g2 : SigilGenerator) :
  __init__ lower1 f1 w1 s1 = Ok g1 ->
  __init__ lower2 f2 w2 s2 = Ok g2 ->
  (valid_rgb (primary (colors g1)) /\ valid_rgb (secondary (colors g1)) /\
   valid_rgb (accent (colors g1)) /\ valid_rgb (background (colors g1))) /\
  (primary (colors g1) <> background (colors g1) /\
   secondary (colors g1) <> background (colors g1) /\
   accent (colors g1) <> background (colors g1)) /\
  (background (colors g1) = background (colors g2) -> wound g1 = wound g2).
Proof.
  intros H1 H2.
  apply init_inv in H1 as (_ & Hp1 & _). apply init_inv in H2 as (_ & Hp2 & _).
  split; [| split].
  - apply (palette_cases (wound g1) (colors g1)
             (fun p => valid_rgb (primary p) /\ valid_rgb (secondary p) /\
                       valid_rgb (accent p) /\ valid_rgb (background p)));
      [| exact Hp1].
    repeat (apply List.Forall_cons; [cbn; lia |]). apply List.Forall_nil.
  - apply (palette_cases (wound g1) (colors g1)
             (fun p => primary p <> background p /\ secondary p <> background p /\
                       accent p <> background p));
      [| exact Hp1].
    repeat (apply List.Forall_cons; [cbn; repeat split; discriminate |]).
    apply List.Forall_nil.
  - exact (background_inj _ _ _ _ Hp1 Hp2).
Qed.

Lemma X6_constructed_palette_witness :
  exists g1 g2,
    __init__ ascii_lower (Some (lit "639 Hz")) (lit "Heart") (lit "solver123") = Ok g1 /\
    __init__ ascii_lower (Some (lit "639 Hz")) (lit "unknown") (lit "solver456") = Ok g2 /\
    background (colors g1) = (5, 15, 5) /\ wound g1 = wound g2.
Proof.
  destruct (__init__ ascii_lower (Some (lit "639 Hz")) (lit "Heart") (lit "solver123"))
    as [g1 |] eqn:H1; [| vm_compute in H1; discriminate H1].
  destruct (__init__ ascii_lower (Some (lit "639 Hz")) (lit "unknown") (lit "solver456"))
    as [g2 |] eqn:H2; [| vm_compute in H2; discriminate H2].
  exists g1, g2. split; [reflexivity |]. split; [reflexivity |].
  assert (background (colors g1) = (5, 15, 5)) as Hb1
    by (vm_compute in H1; injection H1 as <-; reflexivity).
  assert (background (colors g2) = (5, 15, 5)) as Hb2
    by (vm_compute in H2; injection H2 as <-; reflexivity).
  split; [exact Hb1 |].
  apply (X6_constructed_palette _ _ _ _ _ _ _ _ _ _ H1 H2). congruence.
Defined.

(** ** The constructor, further *)

(** X7: what a constructed generator tells about the arguments it was
    built from. [frequency] and [solver_id] are the arguments as passed;
    the seed was encodable; and the category is either the lowercased
    [wound] argument, which then is one of the seven, or, when that is
    none of the seven, the table's entry for the frequency label. With no
    frequency label the category is always the lowercased argument. *)
Theorem X7_constructor_inversion (str_lower : str -> str) (freq : option str)
    (wound0 seed : str) (g : SigilGenerator) :
  __init__ str_lower freq wound0 seed = Ok g ->
  frequency g = freq /\ solver_id g = seed /\ UTF8.encodable seed /\
  ((wound g = str_lower wound0 /\ In (str_lower wound0) categories) \/
   (~ In (str_lower wound0) categories /\
    exists f, freq = Some f /\ FREQUENCY_MAP !! f = Some (wound g))) /\
  (freq = None -> wound g = str_lower wound0).
Proof.
  intros Hg. apply init_inv in Hg as (Hw & _ & Hv & Hf & Hs).
  split; [exact Hf |]. split; [exact Hs |].
  split; [exact (calculate_variations_encodable _ _ Hv) |].
  unfold resolve_wound in Hw.
  destruct (COLOR_PALETTES !! str_lower wound0) as [pal |] eqn:Hpal.
  - injection Hw as Hw. split; [| auto]. left. split; [auto |].
    apply COLOR_PALETTES_keys. rewrite Hpal. eauto.
  - assert (~ In (str_lower wound0) categories) as Hnot.
    { rewrite <- COLOR_PALETTES_keys, Hpal. intros [? [=]]. }
    destruct freq as [f |]; [| discriminate].
    destruct (FREQUENCY_MAP !! f) as [mapped |] eqn:Hm; [| discriminate].
    injection Hw as <-. split; [| discriminate]. right. eauto.
Qed.

Lemma X7_constructor_inversion_witness :
  exists g,
    __init__ ascii_lower (Some (lit "417 Hz")) (lit "Root") (lit "solver123") = Ok g /\
    frequency g = Some (lit "417 Hz") /\ wound g = lit "root" /\
    FREQUENCY_MAP !! lit "417 Hz" = Some (lit "sacral").
Proof.
  destruct (__init__ ascii_lower (Some (lit "417 Hz")) (lit "Root") (lit "solver123"))
    as [g |] eqn:Hg; [| vm_compute in Hg; discriminate Hg].
  exists g. split; [reflexivity |].
  destruct (X7_constructor_inversion _ _ _ _ _ Hg) as (Hf & _ & _ & _ & _).
  split; [exact Hf |]. split; [| vm_compute; reflexivity].
  vm_compute in Hg. injection Hg as <-. reflexivity.
Defined.

(** X8: the spelling of the category does not matter beyond its
    lowercase form: where lowercasing the lowercased [wound] changes
    nothing, the constructor builds the same object from [wound] and from
    [wound.lower()]. *)
Theorem X8_constructor_case_insensitive (str_lower : str -> str) (freq : option str)
    (wound0 seed : str) (g : SigilGenerator) :
  str_lower (str_lower wound0) = str_lower wound0 ->
  (__init__ str_lower freq wound0 seed = Ok g <->
   __init__ str_lower freq (str_lower wound0) seed = Ok g).
Proof.
  intros Hidem. unfold __init__, resolve_wound. rewrite Hidem.
  destruct (COLOR_PALETTES !! str_lower wound0) as [pal |]; [reflexivity |].
  destruct freq as [f |]; [| split; discriminate].
  destruct (FREQUENCY_MAP !! f) as [mapped |]; [reflexivity | split; discriminate].
Qed.

Lemma X8_constructor_case_insensitive_witness :
  exists g,
    __init__ ascii_lower None (lit "Solar_Plexus") (lit "solver123") = Ok g /\
    __init__ ascii_lower None (lit "solar_plexus") (lit "solver123") = Ok g.
Proof.
  destruct (__init__ ascii_lower None (lit "Solar_Plexus") (lit "solver123"))
    as [g |] eqn:Hg; [| vm_compute in Hg; discriminate Hg].
  exists g. split; [reflexivity |].
  exact (proj1 (X8_constructor_case_insensitive ascii_lower None (lit "Solar_Plexus")
                  (lit "solver123") g eq_refl) Hg).
Defined.

(** ** [generate]: the first call that raises *)

Section GenerateErrors.

Context {W : Type}.
Variable perform : call -> W -> result W.

(** X9: [generate] stops at the first call that raises. If the directory
    cannot be made, nothing else is attempted and the state is
    untouched; if the directory was made and [Image.new] raises, the
    directory stays behind and nothing is drawn or saved. *)
Theorem X9_generate_stops_early (output_path : str) (image_size : Z) (h : @heap W)
    (e : exn) :
  let mk := PathMkdir (Pathlib.parent (Pathlib.Path output_path)) true true in
  let new := ImageNew (lit "RGB") (image_size, image_size)
                      (background (colors (self h))) in
  (perform mk (world h) = Err e ->
   generate perform output_path image_size h = (Err e, h)) /\
  (forall w1, perform mk (world h) = Ok w1 -> perform new w1 = Err e ->
     generate perform output_path image_size h
     = (Err e, {| self := self h; world := w1; trace := trace h ++ [mk] |})).
Proof.
  intros mk new. unfold generate, mbind, M_bind, get_self, do_call. fold mk. split.
  - intros H. rewrite H. reflexivity.
  - intros w1 H1 H2. rewrite H1. cbn [self world trace]. fold new. rewrite H2.
    reflexivity.
Qed.

End GenerateErrors.

Lemma X9_generate_stops_early_witness :
  exists g,
    __init__ ascii_lower None (lit "heart") (lit "solver123") = Ok g /\
    generate posix_pillow [120; 0; 47; 121] 512 {| self := g; world := tt; trace := [] |}
    = (Err (ValueError (lit "embedded null byte")),
       {| self := g; world := tt; trace := [] |}) /\
    snd (generate posix_pillow (lit "x/y.png") (-1) {| self := g; world := tt; trace := [] |})
    = {| self := g; world := tt;
         trace := [PathMkdir (Pathlib.parent (Pathlib.Path (lit "x/y.png"))) true true] |}.
Proof.
  destruct (__init__ ascii_lower None (lit "heart") (lit "solver123"))
    as [g |] eqn:Hg; [| vm_compute in Hg; discriminate Hg].
  exists g. split; [reflexivity |]. split.
  - apply (X9_generate_stops_early posix_pillow [120; 0; 47; 121] 512
             {| self := g; world := tt; trace := [] |}).
    vm_compute. reflexivity.
  - rewrite (proj2 (X9_generate_stops_early posix_pillow (lit "x/y.png") (-1)
                      {| self := g; world := tt; trace := [] |}
                      (ValueError (lit "Width and height must be >= 0"))) tt);
      [reflexivity | vm_compute; reflexivity | vm_compute; reflexivity].
Defined.

(** ** The calls of the three geometries, one by one *)

Lemma seq_map_lookup {A : Type} (f : nat -> A) (m : nat) :
  forall k i c, map f (seq k m) !! i = Some c -> c = f (k + i)%nat /\ (i < m)%nat.
Proof.
  induction m as [| m IH]; intros k i c; cbn; [destruct i; discriminate |].
  destruct i as [| i]; cbn.
  - intros [= <-]. split; [f_equal; lia | lia].
  - intros H. apply IH in H as [-> Hi]. split; [f_equal; lia | lia].
Qed.

Lemma range_map_lookup {A : Type} (f : Z -> A) (n : Z) (i : nat) (c : A) :
  map f (Py.range n) !! i = Some c -> c = f (Z.of_nat i) /\ (i < Z.to_nat n)%nat.
Proof.
  unfold Py.range. rewrite List.map_map. intros H.
  apply seq_map_lookup in H as [-> Hi]. split; [reflexivity | exact Hi].
Qed.

Lemma range_map_length {A : Type} (f : Z -> A) (n : Z) :
  length (map f (Py.range n)) = Z.to_nat n.
Proof. unfold Py.range. rewrite !List.length_map, List.length_seq. reflexivity. Qed.

Section GeometryCalls.

Context {W : Type}.
Variable perform : call -> W -> result W.

#[local] Existing Instance M_ret.
#[local] Existing Instance M_bind.

(** A loop whose body is one call makes the calls of its items, in
    order. *)
Lemma for_each_calls {A : Type} (f : A -> call) (body : A -> M unit) (xs : list A) :
  (forall x h, body x h = do_call perform (f x) h) ->
  forall (h : @heap W) u h', for_each xs body h = (Ok u, h') ->
    self h' = self h /\ trace h' = trace h ++ map f xs.
Proof.
  intros Hbody. induction xs as [| x rest IH]; intros h u h'; cbn [for_each map].
  - intros [= _ <-]. rewrite app_nil_r. auto.
  - unfold mbind, M_bind. rewrite Hbody.
    destruct (do_call perform (f x) h) as [[[] | e] h1] eqn:H1; [| discriminate].
    apply do_call_ok in H1 as (Hs1 & Ht1 & _).
    intros H. apply IH in H as [Hs Ht]. split; [congruence |].
    rewrite Ht, Ht1, <- app_assoc. reflexivity.
Qed.

(** Two such loops, one after the other. *)
Lemma two_loops {A B : Type} (f1 : A -> call) (f2 : B -> call)
    (body1 : A -> M unit) (body2 : B -> M unit) (xs : list A) (ys : list B) :
  (forall x h, body1 x h = do_call perform (f1 x) h) ->
  (forall y h, body2 y h = do_call perform (f2 y) h) ->
  forall (h : @heap W) u h',
    (for_each xs body1;; for_each ys body2) h = (Ok u, h') ->
    trace h' = trace h ++ map f1 xs ++ map f2 ys.
Proof.
  intros H1 H2 h u h'. unfold mbind, M_bind.
  destruct (for_each xs body1 h) as [[[] | e] h1] eqn:Hl1; [| discriminate].
  apply (for_each_calls f1 _ _ H1) in Hl1 as [Hs1 Ht1].
  intros Hl2. apply (for_each_calls f2 _ _ H2) in Hl2 as [Hs2 Ht2].
  rewrite Ht2, Ht1, <- app_assoc. reflexivity.
Qed.

(** The calls of each geometry, as the two loops make them. *)
Lemma root_geometry_trace (center : Z * Z) (size : Z) (h h' : @heap W) (u : unit) :
  _draw_root_geometry perform center size h = (Ok u, h') ->
  let g := self h in
  let v := variations g in
  let scale := (Py.float_of_int size * scale_factor v)%float in
  trace h' = trace h ++
    map (fun i =>
           DrawPolygon
             (map (fun j =>
                     Polar (fst center) (snd center)
                       (scale * (1 - Py.float_of_int i * 0.2))%float
                       (Py.radians (rotation_offset v + Py.float_of_int (i * 15)
                                    + Py.float_of_int (j * 90))))
                  (Py.range 4))
             (layer_color (colors g) i) (line_weight v))
        (Py.range (layer_count v)) ++
    map (fun i =>
           DrawLine
             [At (fst center) (snd center);
              Polar (fst center) (snd center) (scale * 1.3)%float
                (Py.radians (rotation_offset v
                             + 360 / Py.float_of_int (ray_count v) * Py.float_of_int i))]
             (accent (colors g)) (line_weight v))
        (Py.range (ray_count v)).
Proof.
  destruct center as [cx cy]. intros H g v scale. revert H.
  unfold _draw_root_geometry. unfold mbind at 1, M_bind at 1, get_self.
  fold g. fold v. fold scale. intros H.
  eapply two_loops in H; [exact H | intros; reflexivity | intros; reflexivity].
Qed.

Lemma sacral_geometry_trace (center : Z * Z) (size : Z) (h h' : @heap W) (u : unit) :
  _draw_sacral_geometry perform center size h = (Ok u, h') ->
  let g := self h in
  let v := variations g in
  let scale := (Py.float_of_int size * scale_factor v)%float in
  trace h' = trace h ++
    map (fun i =>
           DrawEllipse
             {| centre := At (fst center) (snd center);
                half := (scale * (1 - Py.float_of_int i * 0.18))%float |}
             (layer_color (colors g) i) (line_weight v))
        (Py.range (layer_count v)) ++
    map (fun i =>
           let angle :=
             Py.radians (rotation_offset v
                         + 360 / Py.float_of_int (ray_count v) * Py.float_of_int i) in
           DrawArc
             {| centre := Polar (fst center) (snd center) (scale * 0.8)%float angle;
                half := (scale * 0.3)%float |}
             (angle * 180 / Py.pi)%float (angle * 180 / Py.pi + 180)%float
             (accent (colors g)) (line_weight v))
        (Py.range (ray_count v)).
Proof.
  destruct center as [cx cy]. intros H g v scale. revert H.
  unfold _draw_sacral_geometry. unfold mbind at 1, M_bind at 1, get_self.
  fold g. fold v. fold scale. intros H.
  eapply two_loops in H; [exact H | intros; reflexivity | intros; reflexivity].
Qed.

Lemma solar_plexus_geometry_trace (center : Z * Z) (size : Z) (h h' : @heap W)
    (u : unit) :
  _draw_solar_plexus_geometry perform center size h = (Ok u, h') ->
  let g := self h in
  let v := variations g in
  let scale := (Py.float_of_int size * scale_factor v)%float in
  trace h' = trace h ++
    map (fun i =>
           DrawPolygon
             (map (fun j =>
                     Polar (fst center) (snd center)
                       (scale * (1 - Py.float_of_int i * 0.2))%float
                       (Py.radians (rotation_offset v + Py.float_of_int (i * 20)
                                    + Py.float_of_int (j * 120))))
                  (Py.range 3))
             (layer_color (colors g) i) (line_weight v))
        (Py.range (layer_count v)) ++
    map (fun i =>
           DrawLine
             [At (fst center) (snd center);
              Polar (fst center) (snd center)
                (if i mod 2 =? 0 then (scale * 1.4)%float else (scale * 1.1)%float)
                (Py.radians
                   (rotation_offset v
                    + 360 / Py.float_of_int (ray_count v * 2) * Py.float_of_int i))]
             (if i mod 2 =? 0 then primary (colors g) else accent (colors g))
             (line_weight v))
        (Py.range (ray_count v * 2)).
Proof.
  destruct center as [cx cy]. intros H g v scale. revert H.
  unfold _draw_solar_plexus_geometry. unfold mbind at 1, M_bind at 1, get_self.
  fold g. fold v. fold scale. intros H.
  eapply two_loops in H;
    [exact H | intros; reflexivity
     | intros i h0; cbn beta zeta; destruct (i mod 2 =? 0); reflexivity].
Qed.

(** X10: what [_draw_root_geometry] draws when it returns: first
    [layer_count] polygons, then [ray_count] lines, and nothing else.
    Polygon [i] has four corners, all on the circle of radius
    [scale * (1 - i * 0.2)] around the centre, and the colour of its
    layer: primary for the first, then accent and secondary by turns.
    Every line runs from the centre to the circle of radius
    [scale * 1.3], in the accent colour. Every call has the width
    [line_weight]. *)
Theorem X10_root_geometry_calls (center : Z * Z) (size : Z) (h h' : @heap W)
    (u : unit) :
  _draw_root_geometry perform center size h = (Ok u, h') ->
  let g := self h in
  let v := variations g in
  let scale := (Py.float_of_int size * scale_factor v)%float in
  exists squares rays,
    trace h' = trace h ++ squares ++ rays /\
    length squares = Z.to_nat (layer_count v) /\
    length rays = Z.to_nat (ray_count v) /\
    (forall i c, squares !! i = Some c ->
       exists points,
         c = DrawPolygon points (layer_color (colors g) (Z.of_nat i)) (line_weight v) /\
         length points = 4%nat /\
         Forall (on_circle center
                   (scale * (1 - Py.float_of_int (Z.of_nat i) * 0.2))%float) points) /\
    Forall (fun c => exists tip,
              c = DrawLine [At (fst center) (snd center); tip]
                           (accent (colors g)) (line_weight v) /\
              on_circle center (scale * 1.3)%float tip) rays.
Proof.
  intros H g v scale. apply root_geometry_trace in H. cbv zeta in H.
  fold g in H. fold v in H. fold scale in H.
  eexists _, _. split; [exact H |].
  split; [apply range_map_length |]. split; [apply range_map_length |]. split.
  - intros i c Hi. apply range_map_lookup in Hi as [-> _].
    eexists. split; [reflexivity |]. split; [reflexivity |].
    repeat (apply List.Forall_cons; [eexists; reflexivity |]). apply List.Forall_nil.
  - apply List.Forall_forall. intros c Hc. apply List.in_map_iff in Hc as (i & <- & _).
    eexists. split; [reflexivity |]. eexists; reflexivity.
Qed.

(** X11: what [_draw_sacral_geometry] draws when it returns: first
    [layer_count] ellipses, then [ray_count] arcs. Ellipse [i] is the
    circle of radius [scale * (1 - i * 0.18)] around the centre, in the
    colour of its layer. Every arc lies in the box of half-width
    [scale * 0.3] around a point of the circle of radius [scale * 0.8],
    and spans 180 degrees, in the accent colour. *)
Theorem X11_sacral_geometry_calls (center : Z * Z) (size : Z) (h h' : @heap W)
    (u : unit) :
  _draw_sacral_geometry perform center size h = (Ok u, h') ->
  let g := self h in
  let v := variations g in
  let scale := (Py.float_of_int size * scale_factor v)%float in
  exists circles arcs,
    trace h' = trace h ++ circles ++ arcs /\
    length circles = Z.to_nat (layer_count v) /\
    length arcs = Z.to_nat (ray_count v) /\
    (forall i c, circles !! i = Some c ->
       c = DrawEllipse
             {| centre := At (fst center) (snd center);
                half := (scale * (1 - Py.float_of_int (Z.of_nat i) * 0.18))%float |}
             (layer_color (colors g) (Z.of_nat i)) (line_weight v)) /\
    Forall (fun c => exists middle start,
              c = DrawArc {| centre := middle; half := (scale * 0.3)%float |}
                          start (start + 180)%float
                          (accent (colors g)) (line_weight v) /\
              on_circle center (scale * 0.8)%float middle) arcs.
Proof.
  intros H g v scale. apply sacral_geometry_trace in H. cbv zeta in H.
  fold g in H. fold v in H. fold scale in H.
  eexists _, _. split; [exact H |].
  split; [apply range_map_length |]. split; [apply range_map_length |]. split.
  - intros i c Hi. apply range_map_lookup in Hi as [-> _]. reflexivity.
  - apply List.Forall_forall. intros c Hc. apply List.in_map_iff in Hc as (i & <- & _).
    eexists _, _. split; [reflexivity |]. eexists; reflexivity.
Qed.

(** X12: what [_draw_solar_plexus_geometry] draws when it returns: first
    [layer_count] polygons, then twice [ray_count] lines. Polygon [i]
    has three corners on the circle of radius [scale * (1 - i * 0.2)],
    in the colour of its layer. Line [i] runs from the centre: to the
    circle of radius [scale * 1.4] in the primary colour when [i] is
    even, to the circle of radius [scale * 1.1] in the accent colour when
    it is odd. *)
Theorem X12_solar_plexus_geometry_calls (center : Z * Z) (size : Z) (h h' : @heap W)
    (u : unit) :
  _draw_solar_plexus_geometry perform center size h = (Ok u, h') ->
  let g := self h in
  let v := variations g in
  let scale := (Py.float_of_int size * scale_factor v)%float in
  exists triangles rays,
    trace h' = trace h ++ triangles ++ rays /\
    length triangles = Z.to_nat (layer_count v) /\
    length rays = Z.to_nat (ray_count v * 2) /\
    (forall i c, triangles !! i = Some c ->
       exists points,
         c = DrawPolygon points (layer_color (colors g) (Z.of_nat i)) (line_weight v) /\
         length points = 3%nat /\
         Forall (on_circle center
                   (scale * (1 - Py.float_of_int (Z.of_nat i) * 0.2))%float) points) /\
    (forall i c, rays !! i = Some c ->
       exists tip,
         c = DrawLine [At (fst center) (snd center); tip]
                      (if Z.of_nat i mod 2 =? 0 then primary (colors g)
                       else accent (colors g))
                      (line_weight v) /\
         on_circle center
           (if Z.of_nat i mod 2 =? 0 then (scale * 1.4)%float else (scale * 1.1)%float)
           tip).
Proof.
  intros H g v scale. apply solar_plexus_geometry_trace in H. cbv zeta in H.
  fold g in H. fold v in H. fold scale in H.
  eexists _, _. split; [exact H |].
  split; [apply range_map_length |]. split; [apply range_map_length |]. split.
  - intros i c Hi. apply range_map_lookup in Hi as [-> _].
    eexists. split; [reflexivity |]. split; [reflexivity |].
    repeat (apply List.Forall_cons; [eexists; reflexivity |]). apply List.Forall_nil.
  - intros i c Hi. apply range_map_lookup in Hi as [-> _].
    eexists. split; [reflexivity |]. eexists; reflexivity.
Qed.

End GeometryCalls.

Lemma X10_root_geometry_calls_witness :
  exists g h',
    __init__ ascii_lower (Some (lit "396 Hz")) (lit "root") (lit "solver123") = Ok g /\
    _draw_root_geometry pillow (256, 256) 170 {| self := g; world := tt; trace := [] |}
    = (Ok tt, h') /\
    exists squares rays,
      trace h' = squares ++ rays /\
      length squares = Z.to_nat (layer_count (variations g)) /\
      length rays = Z.to_nat (ray_count (variations g)).
Proof.
  destruct (__init__ ascii_lower (Some (lit "396 Hz")) (lit "root") (lit "solver123"))
    as [g |] eqn:Hg; [| vm_compute in Hg; discriminate Hg].
  vm_compute in Hg. injection Hg as <-.
  match goal with
  | |- exists g h', Ok ?g0 = Ok g /\ _ =>
      exists g0;
      destruct (_draw_root_geometry pillow (256, 256) 170
                  {| self := g0; world := tt; trace := [] |})
        as [[[] | e] h'] eqn:H; [| vm_compute in H; discriminate H];
      exists h'; split; [reflexivity |]; split; [reflexivity |];
      destruct (X10_root_geometry_calls pillow _ _ _ _ _ H)
        as (squares & rays & Ht & Hl1 & Hl2 & _);
      exists squares, rays; split; [exact Ht |]; split; [exact Hl1 | exact Hl2]
  end.
Defined.

Lemma X11_sacral_geometry_calls_witness :
  exists g h',
    __init__ ascii_lower (Some (lit "417 Hz")) (lit "sacral") (lit "solver123") = Ok g /\
    _draw_sacral_geometry pillow (256, 256) 170 {| self := g; world := tt; trace := [] |}
    = (Ok tt, h') /\
    exists circles arcs,
      trace h' = circles ++ arcs /\
      length circles = Z.to_nat (layer_count (variations g)) /\
      length arcs = Z.to_nat (ray_count (variations g)).
Proof.
  destruct (__init__ ascii_lower (Some (lit "417 Hz")) (lit "sacral") (lit "solver123"))
    as [g |] eqn:Hg; [| vm_compute in Hg; discriminate Hg].
  vm_compute in Hg. injection Hg as <-.
  match goal with
  | |- exists g h', Ok ?g0 = Ok g /\ _ =>
      exists g0;
      destruct (_draw_sacral_geometry pillow (256, 256) 170
                  {| self := g0; world := tt; trace := [] |})
        as [[[] | e] h'] eqn:H; [| vm_compute in H; discriminate H];
      exists h'; split; [reflexivity |]; split; [reflexivity |];
      destruct (X11_sacral_geometry_calls pillow _ _ _ _ _ H)
        as (circles & arcs & Ht & Hl1 & Hl2 & _);
      exists circles, arcs; split; [exact Ht |]; split; [exact Hl1 | exact Hl2]
  end.
Defined.

Lemma X12_solar_plexus_geometry_calls_witness :
  exists g h',
    __init__ ascii_lower (Some (lit "528 Hz")) (lit "solar_plexus") (lit "solver123")
    = Ok g /\
    _draw_solar_plexus_geometry pillow (256, 256) 170
      {| self := g; world := tt; trace := [] |} = (Ok tt, h') /\
    exists triangles rays,
      trace h' = triangles ++ rays /\
      length triangles = Z.to_nat (layer_count (variations g)) /\
      length rays = Z.to_nat (ray_count (variations g) * 2).
Proof.
  destruct (__init__ ascii_lower (Some (lit "528 Hz")) (lit "solar_plexus")
              (lit "solver123")) as [g |] eqn:Hg; [| vm_compute in Hg; discriminate Hg].
  vm_compute in Hg. injection Hg as <-.
  match goal with
  | |- exists g h', Ok ?g0 = Ok g /\ _ =>
      exists g0;
      destruct (_draw_solar_plexus_geometry pillow (256, 256) 170
                  {| self := g0; world := tt; trace := [] |})
        as [[[] | e] h'] eqn:H; [| vm_compute in H; discriminate H];
      exists h'; split; [reflexivity |]; split; [reflexivity |];
      destruct (X12_solar_plexus_geometry_calls pillow _ _ _ _ _ H)
        as (triangles & rays & Ht & Hl1 & Hl2 & _);
      exists triangles, rays; split; [exact Ht |]; split; [exact Hl1 | exact Hl2]
  end.
Defined.

(** ** [generate]: the shapes drawn *)

Lemma calculate_variations_closed (seed : str) (v : Variations) :
  _calculate_variations seed = Ok v -> ranges_closed v.
Proof.
  unfold _calculate_variations.
  destruct (UTF8.encode seed) as [bs |]; [| discriminate].
  intros [= <-]. apply variations_of_digest_closed.
Qed.

Section GenerateCalls.

Context {W : Type}.
Variable perform : call -> W -> result W.

#[local] Existing Instance M_ret.
#[local] Existing Instance M_bind.

(** A run of four calls around a block, when it returns. *)
Lemma framed_block (c1 c2 c3 c4 : call) (block : M unit) (ret : str)
    (h : @heap W) (r : str) (h' : heap) :
  (do_call perform c1;; do_call perform c2;; do_call perform c3;;
   block;; do_call perform c4;; mret ret) h = (Ok r, h') ->
  exists h3 h4,
    self h3 = self h /\ trace h3 = trace h ++ [c1; c2; c3] /\
    block h3 = (Ok tt, h4) /\ trace h' = trace h4 ++ [c4] /\ r = ret.
Proof.
  unfold mbind, M_bind, mret, M_ret.
  destruct (do_call perform c1 h) as [[[] | e1] h1] eqn:H1; [| discriminate].
  apply do_call_ok in H1 as (Hs1 & Ht1 & _).
  destruct (do_call perform c2 h1) as [[[] | e2] h2] eqn:H2; [| discriminate].
  apply do_call_ok in H2 as (Hs2 & Ht2 & _).
  destruct (do_call perform c3 h2) as [[[] | e3] h3] eqn:H3; [| discriminate].
  apply do_call_ok in H3 as (Hs3 & Ht3 & _).
  destruct (block h3) as [[[] | eb] h4] eqn:H4; [| discriminate].
  destruct (do_call perform c4 h4) as [[[] | e4] h5] eqn:H5; [| discriminate].
  apply do_call_ok in H5 as (Hs5 & Ht5 & _).
  intros [= <- <-]. exists h3, h4.
  split; [congruence |]. split; [| auto].
  rewrite Ht3, Ht2, Ht1, <- !app_assoc. reflexivity.
Qed.

(** X13: for a category other than root, sacral and solar_plexus,
    [generate], when it returns, has drawn [layer_count] ellipses between
    [ImageDraw.Draw] and [save], and nothing else: ellipse [i] is the
    circle of radius [(image_size // 3) * (1 - i * 0.2)] around the
    centre of the image, primary for even [i] and secondary for odd [i].
    Neither [scale_factor] nor [rotation_offset] nor [ray_count] plays a
    part. *)
Theorem X13_generic_mandala_calls (output_path : str) (image_size : Z)
    (h h' : @heap W) (r : str) :
  ~ In (wound (self h)) named_geometries ->
  generate perform output_path image_size h = (Ok r, h') ->
  let g := self h in
  let p := Pathlib.Path output_path in
  exists circles,
    trace h' = trace h ++
      [PathMkdir (Pathlib.parent p) true true;
       ImageNew (lit "RGB") (image_size, image_size) (background (colors g));
       ImageDrawDraw] ++ circles ++ [ImageSave (Pathlib.to_str p)] /\
    length circles = Z.to_nat (layer_count (variations g)) /\
    forall i c, circles !! i = Some c ->
      c = DrawEllipse
            {| centre := At (image_size / 2) (image_size / 2);
               half := (Py.float_of_int (image_size / 3)
                        * (1 - Py.float_of_int (Z.of_nat i) * 0.2))%float |}
            (if Z.of_nat i mod 2 =? 0 then primary (colors g) else secondary (colors g))
            (line_weight (variations g)).
Proof.
  intros Hgen H g p. unfold generate in H.
  unfold mbind at 1, M_bind at 1, get_self in H.
  apply framed_block in H as (h3 & h4 & Hs3 & Ht3 & Hb & Ht' & _).
  fold g in Hb, Hgen.
  assert (wound g <> lit "root" /\ wound g <> lit "sacral" /\
          wound g <> lit "solar_plexus") as (Hn1 & Hn2 & Hn3).
  { repeat split; intros E; apply Hgen; rewrite E;
      unfold named_geometries; cbn [In]; auto. }
  destruct (decide (wound g = lit "root")) as [E | _]; [contradiction |].
  destruct (decide (wound g = lit "sacral")) as [E | _]; [contradiction |].
  destruct (decide (wound g = lit "solar_plexus")) as [E | _]; [contradiction |].
  eapply for_each_calls in Hb as [_ Hb]; [| intros; reflexivity].
  match type of Hb with _ = _ ++ ?cs => exists cs end.
  split; [rewrite Ht', Hb, Ht3, <- !app_assoc; reflexivity |].
  split; [apply range_map_length |].
  intros i c Hi. apply range_map_lookup in Hi as [-> _]. reflexivity.
Qed.

Lemma widths_of_map {A : Type} (f : A -> call) (w : Z) (xs : list A) :
  (forall x, width_of (f x) = Some w) ->
  Forall (fun c => width_of c = Some w) (map f xs).
Proof.
  intros H. apply List.Forall_forall. intros c Hc.
  apply List.in_map_iff in Hc as (x & <- & _). apply H.
Qed.

(** X14: how many shapes a constructed generator draws when [generate]
    returns, and how wide. Between [ImageDraw.Draw] and [save] there are
    [layer_count + ray_count] drawing calls for root and sacral,
    [layer_count + 2 * ray_count] for solar_plexus and [layer_count] for
    the other four categories, so between 3 and 31 in all; every one of
    them has the width [line_weight], between 1 and 5. *)
Theorem X14_generate_shape_count (str_lower : str -> str) (freq : option str)
    (wound0 seed : str) (g : SigilGenerator) (output_path : str) (image_size : Z)
    (h h' : @heap W) (r : str) :
  __init__ str_lower freq wound0 seed = Ok g ->
  self h = g ->
  generate perform output_path image_size h = (Ok r, h') ->
  let v := variations g in
  let p := Pathlib.Path output_path in
  exists draws,
    trace h' = trace h ++
      [PathMkdir (Pathlib.parent p) true true;
       ImageNew (lit "RGB") (image_size, image_size) (background (colors g));
       ImageDrawDraw] ++ draws ++ [ImageSave (Pathlib.to_str p)] /\
    (wound g = lit "root" \/ wound g = lit "sacral" ->
     Z.of_nat (length draws) = layer_count v + ray_count v) /\
    (wound g = lit "solar_plexus" ->
     Z.of_nat (length draws) = layer_count v + 2 * ray_count v) /\
    (~ In (wound g) named_geometries -> Z.of_nat (length draws) = layer_count v) /\
    3 <= Z.of_nat (length draws) <= 31 /\
    Forall (fun c => width_of c = Some (line_weight v)) draws /\
    1 <= line_weight v <= 5.
Proof.
  intros Hg Hself H v p.
  apply init_inv in Hg as (_ & _ & Hv & _).
  apply calculate_variations_closed in Hv as (_ & _ & Hl & Hr & Hw & _).
  subst v.
  unfold generate in H. unfold mbind at 1, M_bind at 1, get_self in H.
  apply framed_block in H as (h3 & h4 & Hs3 & Ht3 & Hb & Ht' & _).
  rewrite Hself in Hb, Ht3, Hs3.
  assert (forall draws, trace h4 = trace h3 ++ draws ->
            trace h' = trace h ++
              [PathMkdir (Pathlib.parent p) true true;
               ImageNew (lit "RGB") (image_size, image_size) (background (colors g));
               ImageDrawDraw] ++ draws ++ [ImageSave (Pathlib.to_str p)]) as Htrace.
  { intros draws Hd. rewrite Ht', Hd, Ht3, <- !app_assoc. reflexivity. }
  assert (lit "root" <> lit "sacral" /\ lit "root" <> lit "solar_plexus" /\
          lit "sacral" <> lit "solar_plexus") as (D1 & D2 & D3)
    by (repeat split; discriminate).
  destruct (decide (wound g = lit "root")) as [E | N1].
  { apply root_geometry_trace in Hb. cbv zeta in Hb. rewrite Hs3 in Hb.
    match type of Hb with _ = _ ++ ?cs => exists cs end.
    split; [exact (Htrace _ Hb) |].
    rewrite length_app, !range_map_length.
    split; [first [intros _; lia | intros []; congruence] |].
    split; [first [intros _; lia | intros ?; congruence] |].
    split; [intros Hn; exfalso; apply Hn; rewrite E; unfold named_geometries;
            cbn [In]; auto |].
    split; [lia |]. split; [| lia].
    apply Forall_app. split; apply widths_of_map; reflexivity. }
  destruct (decide (wound g = lit "sacral")) as [E | N2].
  { apply sacral_geometry_trace in Hb. cbv zeta in Hb. rewrite Hs3 in Hb.
    match type of Hb with _ = _ ++ ?cs => exists cs end.
    split; [exact (Htrace _ Hb) |].
    rewrite length_app, !range_map_length.
    split; [first [intros _; lia | intros []; congruence] |].
    split; [first [intros _; lia | intros ?; congruence] |].
    split; [intros Hn; exfalso; apply Hn; rewrite E; unfold named_geometries;
            cbn [In]; auto |].
    split; [lia |]. split; [| lia].
    apply Forall_app. split; apply widths_of_map; reflexivity. }
  destruct (decide (wound g = lit "solar_plexus")) as [E | N3].
  { apply solar_plexus_geometry_trace in Hb. cbv zeta in Hb. rewrite Hs3 in Hb.

    match type of Hb with _ = _ ++ ?cs => exists cs end.
    split; [exact (Htrace _ Hb) |].
    rewrite length_app, !range_map_length.
    split; [first [intros _; lia | intros []; congruence] |].
    split; [first [intros _; lia | intros ?; congruence] |].
    split; [intros Hn; exfalso; apply Hn; rewrite E; unfold named_geometries;
            cbn [In]; auto |].
    split; [lia |]. split; [| lia].
    apply Forall_app. split; apply widths_of_map; reflexivity. }
  eapply for_each_calls in Hb as [_ Hb]; [| intros; reflexivity].
  match type of Hb with _ = _ ++ ?cs => exists cs end.
  split; [exact (Htrace _ Hb) |].
  rewrite range_map_length.
  split; [intros []; congruence |]. split; [intros ?; congruence |].
  split; [intros _; lia |]. split; [lia |]. split; [| lia].
  apply widths_of_map. reflexivity.
Qed.

Lemma get_self_bind {A : Type} (k : SigilGenerator -> @M W A) (h : heap) :
  (get_self ≫= k) h = k (self h) h.
Proof. reflexivity. Qed.

(** What cannot tell two such heaps apart. *)
Lemma agree_ret {A : Type} (a : A) : agree (mret a : @M W A) (mret a).
Proof. intros h1 h2 Hs. cbn. auto. Qed.

Lemma agree_do_call (c : call) : agree (do_call perform c) (do_call perform c).
Proof.
  intros h1 h2 [Hw Ht]. unfold do_call. rewrite Hw.
  destruct (perform c (world h2)) as [w' | e]; cbn; unfold similar; cbn; auto.
  split; [reflexivity |]. split; [reflexivity | congruence].
Qed.

Lemma agree_bind {A B : Type} (m1 m2 : @M W A) (k1 k2 : A -> @M W B) :
  agree m1 m2 -> (forall a, agree (k1 a) (k2 a)) -> agree (m1 ≫= k1) (m2 ≫= k2).
Proof.
  intros Hm Hk h1 h2 Hs. unfold mbind, M_bind.
  destruct (Hm h1 h2 Hs) as [Hr Hs'].
  destruct (m1 h1) as [[a1 | e1] h1'], (m2 h2) as [[a2 | e2] h2'];
    cbn [fst snd] in *; try discriminate.
  - injection Hr as <-. apply Hk. exact Hs'.
  - injection Hr as <-. split; [reflexivity | exact Hs'].
Qed.

Lemma agree_for_each {A : Type} (xs : list A) (body1 body2 : A -> @M W unit) :
  (forall x, agree (body1 x) (body2 x)) ->
  agree (for_each xs body1) (for_each xs body2).
Proof.
  intros Hbody. induction xs as [| x rest IH]; cbn [for_each].
  - apply agree_ret.
  - apply agree_bind; [apply Hbody | intros _; exact IH].
Qed.

(** X15: for the four categories without a geometry of their own, the
    image depends on the seed only through [layer_count] and
    [line_weight]. Two constructed generators of the same such category
    that agree on these two parameters make [generate] do the same: the
    same calls in the same order, the same result or the same exception,
    whatever their [rotation_offset], [ray_count] and [scale_factor]. *)
Theorem X15_generic_mandala_ignores (lower1 lower2 : str -> str) (f1 f2 : option str)
    (w1 w2 s1 s2 : str) (g1 g2 : SigilGenerator)
    (output_path : str) (image_size : Z) (h1 h2 : @heap W) :
  __init__ lower1 f1 w1 s1 = Ok g1 ->
  __init__ lower2 f2 w2 s2 = Ok g2 ->
  wound g1 = wound g2 ->
  ~ In (wound g1) named_geometries ->
  layer_count (variations g1) = layer_count (variations g2) ->
  line_weight (variations g1) = line_weight (variations g2) ->
  self h1 = g1 -> self h2 = g2 -> similar h1 h2 ->
  fst (generate perform output_path image_size h1)
  = fst (generate perform output_path image_size h2) /\
  similar (snd (generate perform output_path image_size h1))
          (snd (generate perform output_path image_size h2)).
Proof.
  intros Hg1 Hg2 Hw Hgen Hl Hlw Hs1 Hs2 Hsim.
  apply init_inv in Hg1 as (_ & Hc1 & _). apply init_inv in Hg2 as (_ & Hc2 & _).
  assert (colors g1 = colors g2) as Hc by (rewrite Hw in Hc1; congruence).
  assert (wound g1 <> lit "root" /\ wound g1 <> lit "sacral" /\
          wound g1 <> lit "solar_plexus") as (Hn1 & Hn2 & Hn3).
  { repeat split; intros E; apply Hgen; rewrite E;
      unfold named_geometries; cbn [In]; auto. }
  unfold generate. rewrite !get_self_bind. rewrite Hs1, Hs2.
  destruct (decide (wound g1 = lit "root")) as [E | _]; [contradiction |].
  destruct (decide (wound g1 = lit "sacral")) as [E | _]; [contradiction |].
  destruct (decide (wound g1 = lit "solar_plexus")) as [E | _]; [contradiction |].
  rewrite <- Hw.
  destruct (decide (wound g1 = lit "root")) as [E | _]; [contradiction |].
  destruct (decide (wound g1 = lit "sacral")) as [E | _]; [contradiction |].
  destruct (decide (wound g1 = lit "solar_plexus")) as [E | _]; [contradiction |].
  rewrite <- Hc, <- Hl, <- Hlw.
  revert h1 h2 Hsim Hs1 Hs2. 
  match goal with
  | |- forall h1 h2, similar h1 h2 -> _ -> _ -> fst (?m h1) = _ /\ _ =>
      assert (agree m m) as Hagree
  end.
  { repeat first [ apply agree_do_call | apply agree_ret
                 | apply agree_for_each; intros | apply agree_bind; [| intros] ]. }
  intros h1 h2 Hsim _ _. exact (Hagree h1 h2 Hsim).
Qed.

End GenerateCalls.

Lemma X13_generic_mandala_calls_witness :
  exists g h' r,
    __init__ ascii_lower None (lit "heart") (lit "solver123") = Ok g /\
    generate pillow (lit "sigils/heart.png") 512 {| self := g; world := tt; trace := [] |}
    = (Ok r, h') /\
    exists circles,
      length circles = Z.to_nat (layer_count (variations g)) /\
      trace h' =
        [PathMkdir (Pathlib.parent (Pathlib.Path (lit "sigils/heart.png"))) true true;
         ImageNew (lit "RGB") (512, 512) (background (colors g)); ImageDrawDraw]
        ++ circles ++ [ImageSave (Pathlib.to_str (Pathlib.Path (lit "sigils/heart.png")))].
Proof.
  destruct (__init__ ascii_lower None (lit "heart") (lit "solver123"))
    as [g |] eqn:Hg; [| vm_compute in Hg; discriminate Hg].
  vm_compute in Hg. injection Hg as <-.
  match goal with
  | |- exists g h' r, Ok ?g0 = Ok g /\ _ =>
      exists g0;
      destruct (generate pillow (lit "sigils/heart.png") 512
                  {| self := g0; world := tt; trace := [] |})
        as [[r | e] h'] eqn:H; [| vm_compute in H; discriminate H];
      exists h', r; split; [reflexivity |]; split; [reflexivity |];
      assert (~ In (wound g0) named_geometries) as Hcat
        by (vm_compute; intros [E | [E | [E | []]]]; discriminate E);
      destruct (X13_generic_mandala_calls pillow (lit "sigils/heart.png") 512
                  {| self := g0; world := tt; trace := [] |} h' r Hcat H)
        as (circles & Ht & Hl & _);
      exists circles; split; [exact Hl | exact Ht]
  end.
Defined.

Lemma X14_generate_shape_count_witness :
  exists g h' r draws,
    __init__ ascii_lower (Some (lit "528 Hz")) (lit "solar_plexus") (lit "solver123")
    = Ok g /\
    generate pillow (lit "sigils/solar.png") 512 {| self := g; world := tt; trace := [] |}
    = (Ok r, h') /\
    trace h' =
      [PathMkdir (Pathlib.parent (Pathlib.Path (lit "sigils/solar.png"))) true true;
       ImageNew (lit "RGB") (512, 512) (background (colors g)); ImageDrawDraw]
      ++ draws ++ [ImageSave (Pathlib.to_str (Pathlib.Path (lit "sigils/solar.png")))] /\
    Z.of_nat (length draws) = 21.
Proof.
  destruct (__init__ ascii_lower (Some (lit "528 Hz")) (lit "solar_plexus")
              (lit "solver123")) as [g |] eqn:Hg; [| vm_compute in Hg; discriminate Hg].
  pose proof Hg as Hg'. vm_compute in Hg'. injection Hg' as <-.
  match type of Hg with
  | _ = Ok ?g0 =>
      exists g0;
      destruct (generate pillow (lit "sigils/solar.png") 512
                  {| self := g0; world := tt; trace := [] |})
        as [[r | e] h'] eqn:H; [| vm_compute in H; discriminate H];
      exists h', r;
      destruct (X14_generate_shape_count pillow _ _ _ _ _ _ _
                  {| self := g0; world := tt; trace := [] |} _ _ Hg eq_refl H)
        as (draws & Ht & _ & Hsolar & _);
      exists draws; split; [reflexivity |]; split; [reflexivity |];
      split; [exact Ht |]; exact (Hsolar eq_refl)
  end.
Defined.

Lemma X15_generic_mandala_ignores_witness :
  exists g1 g2,
    __init__ ascii_lower None (lit "heart") (lit "solver123") = Ok g1 /\
    __init__ ascii_lower None (lit "heart") (lit "solver36") = Ok g2 /\
    ray_count (variations g1) <> ray_count (variations g2) /\
    trace (snd (generate pillow (lit "sigils/heart.png") 512
                  {| self := g1; world := tt; trace := [] |}))
    = trace (snd (generate pillow (lit "sigils/heart.png") 512
                    {| self := g2; world := tt; trace := [] |})).
Proof.
  destruct (__init__ ascii_lower None (lit "heart") (lit "solver123"))
    as [g1 |] eqn:Hg1; [| vm_compute in Hg1; discriminate Hg1].
  destruct (__init__ ascii_lower None (lit "heart") (lit "solver36"))
    as [g2 |] eqn:Hg2; [| vm_compute in Hg2; discriminate Hg2].
  pose proof Hg1 as Hg1'. vm_compute in Hg1'. injection Hg1' as <-.
  pose proof Hg2 as Hg2'. vm_compute in Hg2'. injection Hg2' as <-.
  match type of Hg1 with
  | _ = Ok ?a =>
      match type of Hg2 with
      | _ = Ok ?b =>
          exists a, b; split; [reflexivity |]; split; [reflexivity |];
          split; [cbn; discriminate |];
          assert (~ In (wound a) named_geometries) as Hcat
            by (vm_compute; intros [E | [E | [E | []]]]; discriminate E);
          exact (proj2 (proj2 (X15_generic_mandala_ignores pillow _ _ _ _ _ _ _ _ a b
                   (lit "sigils/heart.png") 512
                   {| self := a; world := tt; trace := [] |}
                   {| self := b; world := tt; trace := [] |}
                   Hg1 Hg2 eq_refl Hcat eq_refl eq_refl eq_refl eq_refl
                   (conj eq_refl eq_refl))))
      end
  end.
Defined.

(** ** [generate] is the run of its calls *)

Section Replay.

Context {W : Type}.
Variable perform : call -> W -> result W.

#[local] Existing Instance M_ret.
#[local] Existing Instance M_bind.

Lemma run_calls_app (cs1 cs2 : list call) :
  forall w : W,
    run_calls perform (cs1 ++ cs2) w =
    match run_calls perform cs1 w with
    | Ran w1 =>
        match run_calls perform cs2 w1 with
        | Ran final => Ran final
        | Stopped done failed error final => Stopped (cs1 ++ done) failed error final
        end
    | Stopped done failed error final => Stopped done failed error final
    end.
Proof.
  induction cs1 as [| c rest IH]; intros w; cbn.
  - destruct (run_calls perform cs2 w); reflexivity.
  - destruct (perform c w) as [w' | e]; [| reflexivity].
    rewrite IH. destruct (run_calls perform rest w') as [w1 | d f e fin]; [| reflexivity].
    destruct (run_calls perform cs2 w1); reflexivity.
Qed.

(** Where a run stops: the calls done and the call that failed are the
    beginning of the list, and the failed call raised in the world the run
    leaves. *)
Lemma run_calls_stopped (cs : list call) :
  forall (w : W) done failed error final,
    run_calls perform cs w = Stopped done failed error final ->
    perform failed final = Err error /\ exists rest, cs = done ++ failed :: rest.
Proof.
  induction cs as [| c rest IH]; intros w done failed error final; cbn; [discriminate |].
  destruct (perform c w) as [w' | e] eqn:Hc.
  - destruct (run_calls perform rest w') as [w1 | d f e fin] eqn:Hrest; [discriminate |].
    intros [= <- <- <- <-]. destruct (IH _ _ _ _ _ Hrest) as (Hf & rest' & ->).
    split; [exact Hf |]. exists rest'. reflexivity.
  - intros [= <- <- <- <-]. split; [exact Hc |]. exists rest. reflexivity.
Qed.

(** A run that goes through has performed its last call. *)
Lemma run_calls_last (cs : list call) (c : call) :
  forall (w final : W),
    run_calls perform (cs ++ [c]) w = Ran final ->
    exists w', perform c w' = Ok final.
Proof.
  intros w final. rewrite run_calls_app.
  destruct (run_calls perform cs w) as [w1 | d f e fin]; [| discriminate].
  cbn. destruct (perform c w1) as [w' | e] eqn:Hc; [| discriminate].
  intros [= <-]. eauto.
Qed.

(** A run stops at the latest at a call the environment refuses in
    every world. *)
Lemma run_calls_refused (before after : list call) (c : call) :
  (forall w, exists e, perform c w = Err e) ->
  forall w : W, exists done failed error final rest,
    run_calls perform (before ++ c :: after) w = Stopped done failed error final /\
    before ++ [c] = done ++ failed :: rest.
Proof.
  intros Hc w. rewrite run_calls_app.
  destruct (run_calls perform before w) as [w1 | d f e fin] eqn:Hb.
  - cbn. destruct (Hc w1) as [e He]. rewrite He.
    exists before, c, e, w1, []. rewrite app_nil_r. auto.
  - apply run_calls_stopped in Hb as (_ & rest & ->).
    exists d, f, e, fin, (rest ++ [c]). split; [reflexivity |].
    rewrite <- app_assoc. reflexivity.
Qed.

(** A run goes through where every call of the list returns and keeps
    the world good. *)
Lemma run_calls_good (good : W -> Prop) (cs : list call) :
  Forall (fun c => forall w, good w -> exists w', perform c w = Ok w' /\ good w') cs ->
  forall w, good w -> exists final, run_calls perform cs w = Ran final /\ good final.
Proof.
  induction 1 as [| c rest Hc _ IH]; intros w Hw; cbn; [eauto |].
  destruct (Hc w Hw) as (w' & -> & Hw'). destruct (IH w' Hw') as (final & -> & Hf). eauto.
Qed.

Lemma heap_eta (h : @heap W) :
  {| self := self h; world := world h; trace := trace h ++ [] |} = h.
Proof. destruct h. cbn. rewrite app_nil_r. reflexivity. Qed.

Lemma replays_ret {A : Type} (a : A) :
  replays perform (mret a : @M W A) (mret a : @M unit A).
Proof.
  intros h h0 Hs. exists a, []. split.
  - destruct h0 as [s [] t]. cbn. rewrite app_nil_r. reflexivity.
  - cbn. rewrite heap_eta. reflexivity.
Qed.

Lemma replays_do_call (c : call) :
  replays perform (do_call perform c) (do_call accept c).
Proof.
  intros h h0 Hs. exists tt, [c]. split; [reflexivity |].
  unfold do_call. cbn. destruct (perform c (world h)) as [w' | e].
  - reflexivity.
  - rewrite heap_eta. reflexivity.
Qed.

Lemma replays_bind {A B : Type} (m : @M W A) (m0 : @M unit A)
    (k : A -> @M W B) (k0 : A -> @M unit B) :
  replays perform m m0 -> (forall a, replays perform (k a) (k0 a)) ->
  replays perform (m ≫= k) (m0 ≫= k0).
Proof.
  intros Hm Hk h h0 Hs. unfold mbind, M_bind.
  destruct (Hm h h0 Hs) as (a & cs & -> & Hrun).
  destruct (run_calls perform cs (world h)) as [w1 | d f e fin] eqn:Hcs.
  - rewrite Hrun.
    destruct (Hk a {| self := self h; world := w1; trace := trace h ++ cs |}
                 {| self := self h0; world := tt; trace := trace h0 ++ cs |} Hs)
      as (b & cs' & -> & Hrun').
    exists b, (cs ++ cs'). cbn [self world trace] in *.
    rewrite <- !app_assoc. split; [reflexivity |].
    rewrite run_calls_app, Hcs.
    destruct (run_calls perform cs' w1); rewrite Hrun', <- ?app_assoc; reflexivity.
  - rewrite Hrun.
    destruct (Hk a h {| self := self h0; world := tt; trace := trace h0 ++ cs |} Hs)
      as (b & cs' & -> & _).
    exists b, (cs ++ cs'). cbn [self world trace].
    rewrite <- !app_assoc. split; [reflexivity |].
    rewrite run_calls_app, Hcs. reflexivity.
Qed.

Lemma replays_for_each {A : Type} (xs : list A)
    (body : A -> @M W unit) (body0 : A -> @M unit unit) :
  (forall x, replays perform (body x) (body0 x)) ->
  replays perform (for_each xs body) (for_each xs body0).
Proof.
  intros Hbody. induction xs as [| x rest IH]; cbn [for_each].
  - apply replays_ret.
  - apply replays_bind; [apply Hbody | intros _; exact IH].
Qed.

Lemma replays_get_self {A : Type}
    (k : SigilGenerator -> @M W A) (k0 : SigilGenerator -> @M unit A) :
  (forall g, replays perform (k g) (k0 g)) ->
  replays perform (get_self ≫= k) (get_self ≫= k0).
Proof.
  intros Hk h h0 Hs. unfold mbind, M_bind, get_self.
  destruct (Hk (self h0) h h0 Hs) as (a & cs & H0 & Hrun).
  exists a, cs. split; [exact H0 |]. rewrite <- Hs in Hrun. exact Hrun.
Qed.

End Replay.

Ltac replays_step :=
  first
    [ apply replays_get_self; intros
    | apply replays_ret
    | apply replays_do_call
    | apply replays_for_each; intros
    | apply replays_bind; [| intros] ].

Section GenerateRun.

Context {W : Type}.
Variable perform : call -> W -> result W.

Lemma generate_replays (output_path : str) (image_size : Z) :
  replays perform (generate perform output_path image_size)
                  (generate accept output_path image_size).
Proof.
  unfold generate. apply replays_get_self. intros g.
  do 3 (apply replays_bind; [apply replays_do_call | intros _]).
  apply replays_bind; [| intros _; repeat replays_step].
  repeat case_decide.
  - unfold _draw_root_geometry. repeat replays_step.
  - unfold _draw_sacral_geometry. repeat replays_step.
  - unfold _draw_solar_plexus_geometry. repeat replays_step.
    match goal with |- context [if ?b then _ else _] => destruct b end;
      repeat replays_step.
  - repeat replays_step.
Qed.

(** What [generate] does in an environment is the run of
    [generate_calls] there: it returns the string of the path when the
    run goes through, and raises what stopped the run otherwise. *)
Lemma generate_run (output_path : str) (image_size : Z) (h : @heap W) :
  let calls := generate_calls (self h) output_path image_size in
  match run_calls perform calls (world h) with
  | Ran final =>
      generate perform output_path image_size h
      = (Ok (Pathlib.to_str (Pathlib.Path output_path)),
         {| self := self h; world := final; trace := trace h ++ calls |})
  | Stopped done _ error final =>
      generate perform output_path image_size h
      = (Err error, {| self := self h; world := final; trace := trace h ++ done |})
  end.
Proof.
  intros calls.
  destruct (generate_replays output_path image_size h
              {| self := self h; world := tt; trace := [] |} eq_refl)
    as (a & cs & H0 & Hrun).
  cbn [self trace app] in H0.
  assert (calls = cs) as -> by (unfold calls, generate_calls; rewrite H0; reflexivity).
  assert (a = Pathlib.to_str (Pathlib.Path output_path)) as ->.
  { destruct (generate_shape accept output_path image_size
                {| self := self h; world := tt; trace := [] |}) as [Hok _].
    destruct (Hok _ _ H0) as [-> _]. reflexivity. }
  exact Hrun.
Qed.

End GenerateRun.

(** The calls are the directory, the canvas, the drawing object, the
    shapes and the file. *)
Lemma generate_calls_shape (g : SigilGenerator) (output_path : str) (image_size : Z) :
  exists draws,
    generate_calls g output_path image_size =
      [PathMkdir (Pathlib.parent (Pathlib.Path output_path)) true true;
       ImageNew (lit "RGB") (image_size, image_size) (background (colors g));
       ImageDrawDraw] ++ draws
      ++ [ImageSave (Pathlib.to_str (Pathlib.Path output_path))] /\
    Forall drawing draws /\
    exists h3 h4 : @heap unit,
      self h3 = g /\
      (if decide (wound g = lit "root") then
         _draw_root_geometry accept (image_size / 2, image_size / 2) (image_size / 3)
       else if decide (wound g = lit "sacral") then
         _draw_sacral_geometry accept (image_size / 2, image_size / 2) (image_size / 3)
       else if decide (wound g = lit "solar_plexus") then
         _draw_solar_plexus_geometry accept (image_size / 2, image_size / 2)
                                     (image_size / 3)
       else
         for_each (Py.range (layer_count (variations g))) (fun i =>
           let radius :=
             (Py.float_of_int (image_size / 3) * (1 - Py.float_of_int i * 0.2))%float in
           let color :=
             if i mod 2 =? 0 then primary (colors g) else secondary (colors g) in
           let bbox := {| centre := At (fst (image_size / 2, image_size / 2))
                                       (snd (image_size / 2, image_size / 2));
                          half := radius |} in
           do_call accept (DrawEllipse bbox color (line_weight (variations g))))) h3
      = (Ok tt, h4) /\
      trace h4 = trace h3 ++ draws.
Proof.
  unfold generate_calls.
  destruct (generate_replays accept output_path image_size
              {| self := g; world := tt; trace := [] |}
              {| self := g; world := tt; trace := [] |} eq_refl)
    as (a & cs & H0 & _).
  cbn [self trace app] in H0. rewrite H0. cbn [snd trace].
  destruct (generate_shape accept output_path image_size
              {| self := g; world := tt; trace := [] |}) as [Hok _].
  destruct (Hok _ _ H0) as (_ & _ & draws & Ht & Hdraws).
  cbn [self trace app] in Ht. exists draws. split; [exact Ht |]. split; [exact Hdraws |].
  unfold generate in H0. unfold mbind at 1, M_bind at 1, get_self in H0.
  cbn [self] in H0.
  apply framed_block in H0 as (h3 & h4 & Hs3 & Ht3 & Hb & Ht4 & _).
  cbn [self trace app] in *. exists h3, h4. split; [exact Hs3 |]. split; [exact Hb |].
  rewrite Ht3 in *. rewrite Ht in Ht4.
  apply (app_inj_tail ([_; _; _] ++ draws) (trace h4)) in Ht4 as [Ht4 _].
  exact (eq_sym Ht4).
Qed.

(** ** The boxes [generate] passes to Pillow *)

Lemma range_In (n x : Z) : In x (Py.range n) <-> 0 <= x < n.
Proof.
  unfold Py.range. rewrite List.in_map_iff. split.
  - intros (k & <- & Hk). apply List.in_seq in Hk. lia.
  - intros Hx. exists (Z.to_nat x). split; [lia |]. apply List.in_seq. lia.
Qed.

Lemma range_cases (n : Z) (P : Z -> bool) :
  forallb P (Py.range n) = true -> forall x, 0 <= x < n -> P x = true.
Proof.
  intros Hall x Hx. rewrite forallb_forall in Hall. apply Hall, range_In, Hx.
Qed.

Lemma calculate_variations_scale (seed : str) (v : Variations) :
  _calculate_variations seed = Ok v ->
  exists b, 0 <= b < 256 /\ scale_factor v = scale_of b.
Proof.
  unfold _calculate_variations.
  destruct (UTF8.encode seed) as [bs |]; [| discriminate].
  intros [= <-]. exists (byte_at (SHA256.digest bs) 4).
  split; [apply byte_at_range | reflexivity].
Qed.

(** The circles of the sacral geometry, on every image size up to 4096,
    every scale byte and every layer: the box of layer [i] is inverted
    exactly at [i = 6], once the geometry has a size at all. *)
Lemma sacral_box (n b i : Z) :
  0 <= n <= 4096 -> 0 <= b < 256 -> 0 <= i < 7 ->
  edges_inverted (n / 2)
    (Py.float_of_int (n / 3) * scale_of b * (1 - Py.float_of_int i * 0.18))
  = (i =? 6) && (3 <=? n).
Proof.
  intros Hn Hb Hi.
  assert (let factors :=
            map (fun i => (i, (1 - Py.float_of_int i * 0.18)%float)) (Py.range 7) in
          let scales := map scale_of (Py.range 256) in
          forallb (fun n =>
            let x := Py.float_of_int (n / 2) in
            let size := Py.float_of_int (n / 3) in
            forallb (fun scale =>
              forallb (fun '(i, factor) =>
                Bool.eqb (PrimFloat.ltb (x + size * scale * factor)
                                        (x - size * scale * factor))
                         ((i =? 6) && (3 <=? n)))
                factors) scales) (Py.range 4097) = true) as H
    by (vm_compute; reflexivity).
  cbv zeta in H. apply (fun H => range_cases 4097 _ H n ltac:(lia)) in H.
  rewrite forallb_forall in H.
  specialize (H (scale_of b) ltac:(apply List.in_map, range_In; exact Hb)).
  rewrite forallb_forall in H.
  specialize (H (i, (1 - Py.float_of_int i * 0.18)%float)
                ltac:(apply (List.in_map (fun i => (i, (1 - Py.float_of_int i * 0.18)%float))),
                      range_In; exact Hi)).
  apply Bool.eqb_prop in H. exact H.
Qed.

Lemma mandala_box (n i : Z) :
  0 <= n <= 4096 -> 0 <= i < 7 ->
  edges_inverted (n / 2) (Py.float_of_int (n / 3) * (1 - Py.float_of_int i * 0.2))
  = (i =? 6) && (3 <=? n).
Proof.
  intros Hn Hi.
  assert (let factors :=
            map (fun i => (i, (1 - Py.float_of_int i * 0.2)%float)) (Py.range 7) in
          forallb (fun n =>
            let x := Py.float_of_int (n / 2) in
            let size := Py.float_of_int (n / 3) in
            forallb (fun '(i, factor) =>
              Bool.eqb (PrimFloat.ltb (x + size * factor) (x - size * factor))
                       ((i =? 6) && (3 <=? n)))
              factors) (Py.range 4097) = true) as H
    by (vm_compute; reflexivity).
  cbv zeta in H. apply (fun H => range_cases 4097 _ H n ltac:(lia)) in H.
  rewrite forallb_forall in H.
  specialize (H (i, (1 - Py.float_of_int i * 0.2)%float)
                ltac:(apply (List.in_map (fun i => (i, (1 - Py.float_of_int i * 0.2)%float))),
                      range_In; exact Hi)).
  apply Bool.eqb_prop in H. exact H.
Qed.

(** The boxes of the arcs have no negative half-width. *)
Lemma arc_box (n b : Z) :
  0 <= n <= 4096 -> 0 <= b < 256 ->
  PrimFloat.ltb (Py.float_of_int (n / 3) * scale_of b * 0.3) 0 = false.
Proof.
  intros Hn Hb.
  assert (let scales := map scale_of (Py.range 256) in
          forallb (fun n =>
            let size := Py.float_of_int (n / 3) in
            forallb (fun scale => negb (PrimFloat.ltb (size * scale * 0.3) 0)) scales)
            (Py.range 4097) = true) as H
    by (vm_compute; reflexivity).
  cbv zeta in H. apply (fun H => range_cases 4097 _ H n ltac:(lia)) in H.
  rewrite forallb_forall in H.
  specialize (H (scale_of b) ltac:(apply List.in_map, range_In; exact Hb)).
  apply negb_true_iff in H. exact H.
Qed.

Lemma range_7 : Py.range 7 = [0; 1; 2; 3; 4; 5; 6].
Proof. reflexivity. Qed.

Lemma not_inverted_map {A : Type} (f : A -> call) (xs : list A) :
  (forall x, In x xs -> inverted (f x) = false) ->
  Forall (fun c => inverted c = false) (map f xs).
Proof.
  intros H. apply List.Forall_forall. intros c Hc.
  apply List.in_map_iff in Hc as (x & <- & Hx). exact (H x Hx).
Qed.

(** The shapes of root and solar_plexus are polygons and lines: none of
    them has a box. *)
Lemma polygon_shapes (g : SigilGenerator) (output_path : str) (image_size : Z)
    (draws : list call) :
  In (wound g) polygon_geometries ->
  generate_calls g output_path image_size =
    [PathMkdir (Pathlib.parent (Pathlib.Path output_path)) true true;
     ImageNew (lit "RGB") (image_size, image_size) (background (colors g));
     ImageDrawDraw] ++ draws
    ++ [ImageSave (Pathlib.to_str (Pathlib.Path output_path))] ->
  Forall (fun c => inverted c = false) draws.
Proof.
  intros Hcat Hcalls.
  destruct (generate_calls_shape g output_path image_size)
    as (draws' & Hcalls' & _ & h3 & h4 & _ & Hblock & Ht).
  rewrite Hcalls in Hcalls'. apply app_inv_head in Hcalls'.
  apply app_inj_tail in Hcalls' as [<- _].
  assert (lit "root" <> lit "sacral" /\ lit "solar_plexus" <> lit "sacral"
          /\ lit "solar_plexus" <> lit "root") as (D1 & D2 & D3)
    by (repeat split; discriminate).
  destruct Hcat as [E | [E | []]]; rewrite <- E in Hblock.
  - destruct (decide (lit "root" = lit "root")) as [_ | N]; [| congruence].
    apply root_geometry_trace in Hblock. cbv zeta in Hblock.
    rewrite Ht in Hblock. apply app_inv_head in Hblock.
    rewrite Hblock. apply Forall_app. split; apply not_inverted_map; reflexivity.
  - destruct (decide (lit "solar_plexus" = lit "root")) as [E' | _]; [congruence |].
    destruct (decide (lit "solar_plexus" = lit "sacral")) as [E' | _]; [congruence |].
    destruct (decide (lit "solar_plexus" = lit "solar_plexus")) as [_ | N];
      [| congruence].
    apply solar_plexus_geometry_trace in Hblock. cbv zeta in Hblock.
    rewrite Ht in Hblock. apply app_inv_head in Hblock.
    rewrite Hblock. apply Forall_app. split; apply not_inverted_map; reflexivity.
Qed.

(** Which of the shapes of a constructed generator have an inverted
    box, for an image size up to 4096: the seventh circle of the
    categories drawn with circles, once the geometry has a size; and no
    other. *)
Lemma shapes_inverted (str_lower : str -> str) (freq : option str)
    (wound0 seed : str) (g : SigilGenerator) (output_path : str) (image_size : Z)
    (draws : list call) :
  __init__ str_lower freq wound0 seed = Ok g ->
  0 <= image_size <= 4096 ->
  generate_calls g output_path image_size =
    [PathMkdir (Pathlib.parent (Pathlib.Path output_path)) true true;
     ImageNew (lit "RGB") (image_size, image_size) (background (colors g));
     ImageDrawDraw] ++ draws
    ++ [ImageSave (Pathlib.to_str (Pathlib.Path output_path))] ->
  (layer_count (variations g) = 7 -> ~ In (wound g) polygon_geometries ->
   3 <= image_size ->
   exists before c after,
     draws = before ++ c :: after /\ length before = 6%nat /\
     Forall drawing before /\ inverted c = true) /\
  (layer_count (variations g) <= 6 \/ In (wound g) polygon_geometries \/
   image_size < 3 ->
   Forall (fun c => inverted c = false) draws).
Proof.
  intros Hg Hn Hcalls.
  apply init_inv in Hg as (_ & _ & Hv & _).
  destruct (calculate_variations_scale _ _ Hv) as (b & Hb & Hsf).
  apply calculate_variations_closed in Hv as (_ & _ & Hl & _).
  destruct (generate_calls_shape g output_path image_size)
    as (draws' & Hcalls' & Hdrawing & h3 & h4 & Hs3 & Hblock & Ht).
  rewrite Hcalls in Hcalls'. apply app_inv_head in Hcalls'.
  apply app_inj_tail in Hcalls' as [<- _].
  assert (lit "root" <> lit "sacral" /\ lit "solar_plexus" <> lit "sacral")
    as [D1 D2] by (split; discriminate).
  unfold polygon_geometries. cbn [In].
  destruct (decide (wound g = lit "root")) as [E | N1].
  { apply root_geometry_trace in Hblock. cbv zeta in Hblock.
    rewrite Ht in Hblock. apply app_inv_head in Hblock. split; [intros _ []; auto |].
    intros _. rewrite Hblock. apply Forall_app.
    split; apply not_inverted_map; reflexivity. }
  destruct (decide (wound g = lit "sacral")) as [E | N2].
  { apply sacral_geometry_trace in Hblock. cbv zeta in Hblock.
    rewrite Ht, Hs3, Hsf in Hblock. apply app_inv_head in Hblock.
    cbn [fst snd] in Hblock.
    assert (forall i, 0 <= i < 7 ->
              inverted
                (DrawEllipse
                   {| centre := At (image_size / 2) (image_size / 2);
                      half := (Py.float_of_int (image_size / 3) * scale_of b
                               * (1 - Py.float_of_int i * 0.18))%float |}
                   (layer_color (colors g) i) (line_weight (variations g)))
              = (i =? 6) && (3 <=? image_size)) as Hcircle.
    { intros i Hi. cbn [inverted inverted_x inverted_y centre half].
      rewrite orb_diag. apply sacral_box; assumption. }
    split.
    - intros H7 _ H3. rewrite H7, range_7 in Hblock. cbn [map app] in Hblock.
      eexists [_; _; _; _; _; _], _, _. split; [exact Hblock |].
      split; [reflexivity |]. split.
      + repeat (apply List.Forall_cons; [reflexivity |]). apply List.Forall_nil.
      + rewrite Hcircle by lia. apply andb_true_iff. split; [reflexivity | lia].
    - intros Hok. rewrite Hblock. apply Forall_app. split.
      + apply not_inverted_map. intros i Hi. apply range_In in Hi.
        rewrite Hcircle by lia.
        destruct Hok as [Hok | [[Hok | [Hok | []]] | Hok]]; try congruence.
        * destruct (Z.eqb_spec i 6); [lia | reflexivity].
        * destruct (Z.leb_spec 3 image_size); [lia | apply andb_false_r].
      + apply not_inverted_map. intros i _.
        cbn [inverted inverted_x inverted_y centre half].
        rewrite orb_false_r. apply arc_box; assumption. }
  destruct (decide (wound g = lit "solar_plexus")) as [E | N3].
  { apply solar_plexus_geometry_trace in Hblock. cbv zeta in Hblock.
    rewrite Ht in Hblock. apply app_inv_head in Hblock. split; [intros _ []; auto |].
    intros _. rewrite Hblock. apply Forall_app.
    split; apply not_inverted_map; reflexivity. }
  eapply for_each_calls in Hblock as [_ Hblock]; [| intros; reflexivity].
  rewrite Ht in Hblock. apply app_inv_head in Hblock. cbn [fst snd] in Hblock.
  assert (forall i, 0 <= i < 7 ->
            inverted
              (DrawEllipse
                 {| centre := At (image_size / 2) (image_size / 2);
                    half := (Py.float_of_int (image_size / 3)
                             * (1 - Py.float_of_int i * 0.2))%float |}
                 (if i mod 2 =? 0 then primary (colors g) else secondary (colors g))
                 (line_weight (variations g)))
            = (i =? 6) && (3 <=? image_size)) as Hcircle.
  { intros i Hi. cbn [inverted inverted_x inverted_y centre half].
    rewrite orb_diag. apply mandala_box; assumption. }
  split.
  - intros H7 _ H3. rewrite H7, range_7 in Hblock. cbn [map app] in Hblock.
    eexists [_; _; _; _; _; _], _, []. split; [exact Hblock |].
    split; [reflexivity |]. split.
    + repeat (apply List.Forall_cons; [reflexivity |]). apply List.Forall_nil.
    + rewrite Hcircle by lia. apply andb_true_iff. split; [reflexivity | lia].
  - intros Hok. rewrite Hblock.
    apply not_inverted_map. intros i Hi. apply range_In in Hi.
    rewrite Hcircle by lia.
    destruct Hok as [Hok | [[Hok | [Hok | []]] | Hok]]; try congruence.
    * destruct (Z.eqb_spec i 6); [lia | reflexivity].
    * destruct (Z.leb_spec 3 image_size); [lia | apply andb_false_r].
Qed.

(** What comes before the last call of a list is where a run that
    stops has stopped. *)
Lemma stopped_before_last {A : Type} (l done rest : list A) (x failed : A) :
  l ++ [x] = done ++ failed :: rest -> exists rest', l = done ++ rest'.
Proof.
  revert l. induction done as [| a done' IH]; intros l H; [exists l; reflexivity |].
  destruct l as [| b l']; cbn in H.
  - injection H as _ H. destruct done'; discriminate H.
  - injection H as <- H. destruct (IH _ H) as [rest' ->]. exists rest'. reflexivity.
Qed.

Lemma drawing_not_save (c : call) (fp : str) : drawing c -> c <> ImageSave fp.
Proof. intros H ->. discriminate H. Qed.

(** The reference environment on shapes, and on a path without an
    extension. *)
Lemma pillow_draws (c : call) (w : unit) :
  drawing c -> inverted c = false -> pillow c w = Ok tt.
Proof.
  destruct c; try discriminate; intros _; cbn [inverted pillow]; try reflexivity;
    intros H; apply orb_false_iff in H as [-> ->]; reflexivity.
Qed.

Lemma pillow_refuses_inverted (c : call) (w : unit) :
  inverted c = true -> exists e, pillow c w = Err e.
Proof.
  destruct c; try discriminate; cbn [inverted pillow]; intros H;
    destruct (inverted_x bbox); [eauto | | eauto |]; cbn in H; rewrite H; eauto.
Qed.

Lemma pillow_refuses_no_extension (fp : str) (w : unit) :
  splitext_ext fp = [] -> exists e, pillow (ImageSave fp) w = Err e.
Proof. intros H. cbn [pillow]. rewrite H. cbn. eauto. Qed.

(** C7, amended: for every generator the constructor returned, every
    output path and every image size, in any environment, there is a list
    of drawing calls such that [generate] is the run of these calls, in
    this order: the [mkdir] with [parents] and [exist_ok] on the parent of
    [Path(output_path)]; [Image.new] of mode RGB, size
    [(image_size, image_size)] and the background colour of the resolved
    category's palette; [ImageDraw.Draw]; the drawing calls; [save] to
    [str(Path(output_path))].

    - Where each call returns, [generate] returns [str(Path(output_path))],
      with all these calls made and the object as it was.
    - Where a call raises, [generate] raises the same exception, in the
      world that call left, with the calls before it made and no call after
      it; nothing was saved.
    - The string returned parses to the path asked for, and is the string
      asked for when that string is the string of a path in normal form.
    - In an environment that cooperates, one that makes the directory, the
      canvas and the drawing object, draws every shape whose box is not
      inverted, and saves to the path, [generate] returns: for root and
      solar_plexus on every image size from 1 that is a C [int]; for the
      other categories on every image size from 1 to 4096, the sizes on
      which their boxes were computed, unless the generator has seven
      layers and the size is at least 3. What happens in that last case is
      left out here. *)
Theorem C7_generate {W : Type} (perform : call -> W -> result W)
    (str_lower : str -> str) (freq : option str) (wound0 seed : str)
    (g : SigilGenerator) (output_path : str) (image_size : Z) (h : heap) :
  __init__ str_lower freq wound0 seed = Ok g ->
  self h = g ->
  let p := Pathlib.Path output_path in
  exists pal draws,
    COLOR_PALETTES !! wound g = Some pal /\
    Forall drawing draws /\
    let before :=
      [PathMkdir (Pathlib.parent p) true true;
       ImageNew (lit "RGB") (image_size, image_size) (background pal);
       ImageDrawDraw] in
    let save := ImageSave (Pathlib.to_str p) in
    let calls := before ++ draws ++ [save] in
    match run_calls perform calls (world h) with
    | Ran final =>
        generate perform output_path image_size h
        = (Ok (Pathlib.to_str p),
           {| self := g; world := final; trace := trace h ++ calls |})
    | Stopped done failed error final =>
        generate perform output_path image_size h
        = (Err error, {| self := g; world := final; trace := trace h ++ done |}) /\
        perform failed final = Err error /\
        (exists rest, calls = done ++ failed :: rest) /\
        Forall (fun c => forall fp, c <> ImageSave fp) done
    end /\
    Pathlib.Path (Pathlib.to_str p) = p /\
    (forall q, Pathlib.normal q -> output_path = Pathlib.to_str q ->
               Pathlib.to_str p = output_path) /\
    (forall good : W -> Prop,
       good (world h) ->
       cooperates perform good before save ->
       1 <= image_size ->
       (In (wound g) polygon_geometries /\ image_size < 2 ^ 31) \/
       (image_size <= 4096 /\
        (layer_count (variations g) <= 6 \/ image_size < 3)) ->
       exists final,
         generate perform output_path image_size h
         = (Ok (Pathlib.to_str p),
            {| self := g; world := final; trace := trace h ++ calls |})).
Proof.
  intros Hg Hself p.
  destruct (init_category _ _ _ _ _ Hg) as [_ Hpal].
  destruct (generate_calls_shape g output_path image_size)
    as (draws & Hcalls & Hdrawing & _).
  exists (colors g), draws. split; [exact Hpal |]. split; [exact Hdrawing |].
  intros before save calls.
  pose proof (generate_run perform output_path image_size h) as Hrun.
  cbv zeta in Hrun. rewrite Hself, Hcalls in Hrun.
  fold p in Hrun. fold before in Hrun. fold save in Hrun. fold calls in Hrun.
  assert (Forall (fun c => forall fp, c <> ImageSave fp) (before ++ draws)) as Hnosave.
  { apply Forall_app. split.
    - repeat (apply List.Forall_cons; [discriminate |]). apply List.Forall_nil.
    - revert Hdrawing. apply List.Forall_impl. intros c Hc fp.
      apply drawing_not_save. exact Hc. }
  split; [| split; [| split]].
  - destruct (run_calls perform calls (world h)) as [final | done failed error final]
      eqn:E; [exact Hrun |].
    split; [exact Hrun |].
    destruct (run_calls_stopped _ _ _ _ _ _ _ E) as (Hfailed & rest & Hrest).
    split; [exact Hfailed |]. split; [eauto |].
    unfold calls in Hrest. rewrite app_assoc in Hrest.
    apply stopped_before_last in Hrest as [rest' Hrest'].
    rewrite Hrest' in Hnosave. apply Forall_app in Hnosave as [Hdone _]. exact Hdone.
  - apply Path_idempotent.
  - intros q Hq Hout. unfold p. rewrite Hout. rewrite (Path_to_str q Hq). reflexivity.
  - intros good Hgood (Hbefore & Hshapes & Hsave) Hsize Hlayers.
    assert (Forall (fun c => inverted c = false) draws) as Hboxes.
    { destruct Hlayers as [[Hcat _] | [Hmax Hlayers]].
      - exact (polygon_shapes g output_path image_size draws Hcat Hcalls).
      - assert (0 <= image_size <= 4096) as Hbound by lia.
        destruct (shapes_inverted _ _ _ _ _ _ _ _ Hg Hbound Hcalls) as [_ Hboxes].
        apply Hboxes. tauto. }
    assert (exists w1, run_calls perform (before ++ draws) (world h) = Ran w1 /\ good w1)
      as (w1 & Hw1 & Hgood1).
    { apply (run_calls_good perform good); [| exact Hgood].
      apply Forall_app. split.
      - apply List.Forall_forall. intros c Hc w Hw. exact (Hbefore c w Hc Hw).
      - apply List.Forall_forall. intros c Hc w Hw.
        rewrite List.Forall_forall in Hdrawing, Hboxes.
        exact (Hshapes c w (Hdrawing c Hc) (Hboxes c Hc) Hw). }
    destruct (Hsave w1 Hgood1) as [final Hfinal].
    exists final.
    assert (run_calls perform calls (world h) = Ran final) as E.
    { unfold calls. rewrite app_assoc, run_calls_app, Hw1. cbn. rewrite Hfinal.
      reflexivity. }
    rewrite E in Hrun. exact Hrun.
Qed.

Lemma C7_generate_witness :
  exists g h',
    __init__ ascii_lower (Some (lit "396 Hz")) (lit "root") (lit "test_size") = Ok g /\
    generate pillow (lit "/tmp/test_sigils/sigil_custom_size.png") 256
             {| self := g; world := tt; trace := [] |}
    = (Ok (lit "/tmp/test_sigils/sigil_custom_size.png"), h') /\
    self h' = g /\
    trace h' !! 1%nat = Some (ImageNew (lit "RGB") (256, 256) (20, 10, 10)) /\
    last (trace h') = Some (ImageSave (lit "/tmp/test_sigils/sigil_custom_size.png")).
Proof.
  destruct (__init__ ascii_lower (Some (lit "396 Hz")) (lit "root") (lit "test_size"))
    as [g |] eqn:Hg; [| vm_compute in Hg; discriminate Hg].
  exists g.
  destruct (C7_generate pillow ascii_lower (Some (lit "396 Hz")) (lit "root")
              (lit "test_size") g (lit "/tmp/test_sigils/sigil_custom_size.png") 256
              {| self := g; world := tt; trace := [] |} Hg eq_refl)
    as (pal & draws & Hpal & _ & _ & _ & Hnormal & Hreturns).
  assert (pal = colors g /\ background pal = (20, 10, 10) /\
          layer_count (variations g) <= 6) as (-> & Hbg & Hlayers).
  { vm_compute in Hg. injection Hg as <-. vm_compute in Hpal. injection Hpal as <-.
    split; [reflexivity |]. split; [reflexivity |]. cbn. lia. }
  destruct (Hreturns (fun _ => True) I) as [final Hrun].
  - split; [| split].
    + intros c w Hc _. exists tt. split; [| exact I].
      destruct Hc as [<- | [<- | [<- | []]]]; reflexivity.
    + intros c w Hc Hbox _. exists tt. split; [| exact I]. apply pillow_draws; assumption.
    + intros w _. exists tt. vm_compute. reflexivity.
  - lia.
  - right. split; [lia |]. left. exact Hlayers.
  - rewrite (Hnormal (Pathlib.Path (lit "/tmp/test_sigils/sigil_custom_size.png")))
      in Hrun; [| apply Path_normal | vm_compute; reflexivity].
    eexists. split; [reflexivity |]. split; [exact Hrun |]. split; [reflexivity |].
    cbn [trace app]. rewrite Hbg. split; [reflexivity |].
    rewrite !app_comm_cons. apply last_snoc.
Defined.

(** X16: with seven layers the innermost circle has a negative radius,
    and Pillow does not draw it. For a constructed generator with
    [layer_count] 7 and a category drawn with circles (any but root and
    solar_plexus), and an image size from 3 to 4096, the seventh circle
    has the radius of a positive size times [1 - 6 * 0.18] (sacral) or
    [1 - 6 * 0.2] (the other categories), so the right edge of its box
    lies left of the left edge. In every environment that refuses such a
    box, as Pillow does from version 9.5 on, [generate] raises: it stops
    at the latest at the seventh circle, after the directory, the canvas,
    the drawing object and six circles, and saves nothing. *)
Theorem X16_seventh_circle_refused {W : Type} (perform : call -> W -> result W)
    (str_lower : str -> str) (freq : option str) (wound0 seed : str)
    (g : SigilGenerator) (output_path : str) (image_size : Z) (h : heap) :
  __init__ str_lower freq wound0 seed = Ok g ->
  ~ In (wound g) polygon_geometries ->
  layer_count (variations g) = 7 ->
  3 <= image_size <= 4096 ->
  self h = g ->
  (forall c w, inverted c = true -> exists e, perform c w = Err e) ->
  exists error final done circles rest,
    generate perform output_path image_size h
    = (Err error, {| self := g; world := final; trace := trace h ++ done |}) /\
    length circles = 6%nat /\ Forall drawing circles /\
    [PathMkdir (Pathlib.parent (Pathlib.Path output_path)) true true;
     ImageNew (lit "RGB") (image_size, image_size) (background (colors g));
     ImageDrawDraw] ++ circles = done ++ rest /\
    Forall (fun c => forall fp, c <> ImageSave fp) done.
Proof.
  intros Hg Hcat Hseven Hsize Hself Hrefuses.
  destruct (generate_calls_shape g output_path image_size)
    as (draws & Hcalls & Hdrawing & _).
  assert (0 <= image_size <= 4096) as Hbound by lia.
  destruct (shapes_inverted _ _ _ _ _ _ _ _ Hg Hbound Hcalls) as [Hbox _].
  destruct (Hbox Hseven Hcat ltac:(lia))
    as (circles & c & after & -> & Hsix & Hcircles & Hc).
  pose proof (generate_run perform output_path image_size h) as Hrun.
  cbv zeta in Hrun. rewrite Hself, Hcalls in Hrun.
  set (before :=
         [PathMkdir (Pathlib.parent (Pathlib.Path output_path)) true true;
          ImageNew (lit "RGB") (image_size, image_size) (background (colors g));
          ImageDrawDraw]) in *.
  replace (before ++ (circles ++ c :: after)
           ++ [ImageSave (Pathlib.to_str (Pathlib.Path output_path))])
    with ((before ++ circles)
          ++ c :: (after ++ [ImageSave (Pathlib.to_str (Pathlib.Path output_path))]))
    in Hrun by (rewrite <- !app_assoc; reflexivity).
  destruct (run_calls_refused perform (before ++ circles)
              (after ++ [ImageSave (Pathlib.to_str (Pathlib.Path output_path))]) c
              (fun w => Hrefuses c w Hc) (world h))
    as (done & failed & error & final & rest & E & Hprefix).
  rewrite E in Hrun.
  apply stopped_before_last in Hprefix as [rest' Hrest'].
  exists error, final, done, circles, rest'.
  split; [exact Hrun |]. split; [exact Hsix |]. split; [exact Hcircles |].
  split; [exact Hrest' |].
  assert (Forall (fun c => forall fp, c <> ImageSave fp) (before ++ circles)) as Hnosave.
  { apply Forall_app. split.
    - repeat (apply List.Forall_cons; [discriminate |]). apply List.Forall_nil.
    - revert Hcircles. apply List.Forall_impl. intros c' Hc' fp.
      apply drawing_not_save. exact Hc'. }
  rewrite Hrest' in Hnosave. apply Forall_app in Hnosave as [Hdone _]. exact Hdone.
Qed.

Lemma X16_seventh_circle_refused_witness :
  exists g h',
    __init__ ascii_lower (Some (lit "417 Hz")) (lit "sacral") (lit "solver1") = Ok g /\
    layer_count (variations g) = 7 /\
    generate pillow (lit "sigils/sacral.png") 512 {| self := g; world := tt; trace := [] |}
    = (Err (ValueError (lit "x1 must be greater than or equal to x0")), h') /\
    length (trace h') = 9%nat.
Proof.
  destruct (__init__ ascii_lower (Some (lit "417 Hz")) (lit "sacral") (lit "solver1"))
    as [g |] eqn:Hg; [| vm_compute in Hg; discriminate Hg].
  exists g.
  assert (wound g = lit "sacral" /\ layer_count (variations g) = 7) as [Hw Hseven]
    by (vm_compute in Hg; injection Hg as <-; split; reflexivity).
  assert (~ In (wound g) polygon_geometries) as Hcat
    by (rewrite Hw; vm_compute; intros [E | [E | []]]; discriminate E).
  assert (3 <= 512 <= 4096) as Hsize by lia.
  destruct (X16_seventh_circle_refused pillow ascii_lower _ _ _ g (lit "sigils/sacral.png")
              512 {| self := g; world := tt; trace := [] |} Hg Hcat Hseven Hsize eq_refl
              pillow_refuses_inverted)
    as (error & final & done & circles & rest & Hrun & _).
  assert (fst (generate pillow (lit "sigils/sacral.png") 512
                 {| self := g; world := tt; trace := [] |})
          = Err (ValueError (lit "x1 must be greater than or equal to x0")) /\
          length (trace (snd (generate pillow (lit "sigils/sacral.png") 512
                                {| self := g; world := tt; trace := [] |}))) = 9%nat)
    as [Herror Hlength]
    by (vm_compute in Hg; injection Hg as <-; split; vm_compute; reflexivity).
  rewrite Hrun in Herror, Hlength. cbn [fst snd] in Herror, Hlength.
  injection Herror as ->.
  eexists. split; [reflexivity |]. split; [exact Hseven |]. split; [exact Hrun |].
  exact Hlength.
Defined.

(** ** The calls do not depend on the environment *)

Section SameCalls.

Context {W1 W2 : Type}.
Variable perform1 : call -> W1 -> result W1.
Variable perform2 : call -> W2 -> result W2.

#[local] Existing Instance M_ret.
#[local] Existing Instance M_bind.

Lemma same_calls_ret {A : Type} (a : A) :
  same_calls (mret a : @M W1 A) (mret a : @M W2 A).
Proof.
  intros h1 h2 a1 h1' a2 h2' Hs [= <- <-] [= <- <-].
  split; [reflexivity |]. split; [exact Hs |].
  exists []. rewrite !app_nil_r. auto.
Qed.

Lemma same_calls_do_call (c : call) :
  same_calls (do_call perform1 c) (do_call perform2 c).
Proof.
  intros h1 h2 [] h1' [] h2' Hs H1 H2.
  apply do_call_ok in H1 as (Hs1 & Ht1 & _). apply do_call_ok in H2 as (Hs2 & Ht2 & _).
  split; [reflexivity |]. split; [congruence |]. exists [c]. auto.
Qed.

Lemma same_calls_bind {A B : Type} (m1 : @M W1 A) (m2 : @M W2 A)
    (k1 : A -> @M W1 B) (k2 : A -> @M W2 B) :
  same_calls m1 m2 -> (forall a, same_calls (k1 a) (k2 a)) ->
  same_calls (m1 ≫= k1) (m2 ≫= k2).
Proof.
  intros Hm Hk h1 h2 b1 h1' b2 h2' Hs. unfold mbind, M_bind.
  destruct (m1 h1) as [[a1 | e1] h1m] eqn:E1; [| discriminate].
  destruct (m2 h2) as [[a2 | e2] h2m] eqn:E2; [| discriminate].
  destruct (Hm _ _ _ _ _ _ Hs E1 E2) as (<- & Hsm & cs & Ht1 & Ht2).
  intros H1 H2.
  destruct (Hk a1 _ _ _ _ _ _ Hsm H1 H2) as (Hb & Hs' & cs' & Ht1' & Ht2').
  split; [exact Hb |]. split; [exact Hs' |].
  exists (cs ++ cs'). rewrite Ht1', Ht2', Ht1, Ht2, <- !app_assoc. auto.
Qed.

Lemma same_calls_for_each {A : Type} (xs : list A)
    (body1 : A -> @M W1 unit) (body2 : A -> @M W2 unit) :
  (forall x, same_calls (body1 x) (body2 x)) ->
  same_calls (for_each xs body1) (for_each xs body2).
Proof.
  intros Hbody. induction xs as [| x rest IH]; cbn [for_each].
  - apply same_calls_ret.
  - apply same_calls_bind; [apply Hbody | intros _; exact IH].
Qed.

(** Reading the object, then going on with it. *)
Lemma same_calls_get_self {A : Type}
    (k1 : SigilGenerator -> @M W1 A) (k2 : SigilGenerator -> @M W2 A) :
  (forall g, same_calls (k1 g) (k2 g)) ->
  same_calls (get_self ≫= k1) (get_self ≫= k2).
Proof.
  intros Hk h1 h2 a1 h1' a2 h2' Hs. unfold mbind, M_bind, get_self.
  rewrite Hs. apply Hk. exact Hs.
Qed.

End SameCalls.

Ltac same_calls_step :=
  first
    [ apply same_calls_get_self; intros
    | apply same_calls_ret
    | apply same_calls_do_call
    | apply same_calls_for_each; intros
    | apply same_calls_bind; [| intros] ].

(** X17: what [generate] asks of Pillow and of the file system depends
    on the generator and on the arguments alone, never on what the calls
    did. On two heaps with the same object, in two environments of any
    kind, two calls of [generate] with the same arguments that both
    return have made the same calls in the same order and return the same
    string. In particular a second call on the same object repeats the
    calls of the first. *)
Theorem X17_generate_calls_fixed {W1 W2 : Type}
    (perform1 : call -> W1 -> result W1) (perform2 : call -> W2 -> result W2)
    (output_path : str) (image_size : Z)
    (h1 h1' : @heap W1) (h2 h2' : @heap W2) (r1 r2 : str) :
  self h1 = self h2 ->
  generate perform1 output_path image_size h1 = (Ok r1, h1') ->
  generate perform2 output_path image_size h2 = (Ok r2, h2') ->
  r1 = r2 /\
  exists cs, trace h1' = trace h1 ++ cs /\ trace h2' = trace h2 ++ cs.
Proof.
  intros Hs H1 H2.
  assert (same_calls (generate perform1 output_path image_size)
                     (generate perform2 output_path image_size)) as Hsame.
  { unfold generate. apply same_calls_get_self. intros g.
    do 3 (apply same_calls_bind; [apply same_calls_do_call | intros _]).
    apply same_calls_bind; [| intros _; repeat same_calls_step].
    repeat case_decide.
    - unfold _draw_root_geometry. repeat same_calls_step.
    - unfold _draw_sacral_geometry. repeat same_calls_step.
    - unfold _draw_solar_plexus_geometry. repeat same_calls_step.
      match goal with |- context [if ?b then _ else _] => destruct b end;
        repeat same_calls_step.
    - repeat same_calls_step. }
  destruct (Hsame _ _ _ _ _ _ Hs H1 H2) as (Hr & _ & Hcs). auto.
Qed.

Lemma X17_generate_calls_fixed_witness :
  exists g r h1 h2,
    __init__ ascii_lower (Some (lit "396 Hz")) (lit "root") (lit "solver123") = Ok g /\
    generate pillow (lit "sigils/root.png") 512 {| self := g; world := tt; trace := [] |}
    = (Ok r, h1) /\
    generate pillow (lit "sigils/root.png") 512 h1 = (Ok r, h2) /\
    trace h2 = trace h1 ++ trace h1.
Proof.
  destruct (__init__ ascii_lower (Some (lit "396 Hz")) (lit "root") (lit "solver123"))
    as [g |] eqn:Hg; [| vm_compute in Hg; discriminate Hg].
  vm_compute in Hg. injection Hg as <-.
  match goal with
  | |- exists g r h1 h2, Ok ?g0 = Ok g /\ _ =>
      exists g0;
      destruct (generate pillow (lit "sigils/root.png") 512
                  {| self := g0; world := tt; trace := [] |})
        as [[r | e] h1] eqn:H1; [| vm_compute in H1; discriminate H1]
  end.
  pose proof H1 as H1'. vm_compute in H1'. injection H1' as <- <-.
  match type of H1 with
  | generate _ _ _ ?h0 = (Ok ?r0, ?h10) =>
      destruct (generate pillow (lit "sigils/root.png") 512 h10)
        as [[r' | e] h2] eqn:H2; [| vm_compute in H2; discriminate H2];
      destruct (X17_generate_calls_fixed pillow pillow _ _ h0 _ h10 _ _ _ eq_refl H1 H2)
        as (<- & cs & Ht1 & Ht2);
      exists r0, h10, h2; split; [reflexivity |]; split; [exact H1 |];
      split; [exact H2 |];
      rewrite Ht2; f_equal; exact (eq_sym Ht1)
  end.
Defined.

(** ** The directory made and the file saved *)

Lemma parent_normal (p : Pathlib.PurePath) :
  Pathlib.normal p -> Pathlib.normal (Pathlib.parent p).
Proof.
  intros [Hroot Hparts]. unfold Pathlib.parent.
  destruct (Pathlib.parts p) as [| x l] eqn:Hp; [split; [exact Hroot | rewrite Hp; constructor] |].
  split; [exact Hroot |]. cbn [Pathlib.parts].
  apply List.Forall_forall. intros c Hc.
  rewrite List.Forall_forall in Hparts. apply Hparts.
  rewrite (app_removelast_last [] (l := x :: l)) by discriminate.
  apply List.in_or_app. left. exact Hc.
Qed.

Lemma parent_fixed (p : Pathlib.PurePath) :
  Pathlib.parent p = p <-> Pathlib.parts p = [].
Proof.
  unfold Pathlib.parent. split.
  - destruct (Pathlib.parts p) as [| x l] eqn:Hp; [reflexivity |].
    intros H. apply (f_equal Pathlib.parts) in H. cbn [Pathlib.parts] in H.
    rewrite Hp in H. apply (f_equal (@length _)) in H.
    assert (x :: l <> []) as Hne by discriminate.
    rewrite (app_removelast_last [] Hne) in H at 2.
    rewrite length_app in H. cbn in H. lia.
  - intros ->. reflexivity.
Qed.

Section GenerateDirectory.

Context {W : Type}.
Variable perform : call -> W -> result W.

(** X18: the directory [generate] makes is the parent of the path it
    saves to, and when it returns, the string returned is that of the path
    saved. When the output path names no file (it is empty, or made of
    dots and slashes only), the path has no parent but itself: the
    directory asked for is the very path of the image, [.], [/] or [//],
    which has no extension; so in every environment that saves no path
    without an extension, as Pillow does, [generate] raises on such an
    output path. *)
Theorem X18_generate_directory (output_path : str) (image_size : Z) (h : @heap W) :
  let p := Pathlib.Path output_path in
  let d := Pathlib.parent p in
  Pathlib.normal d /\
  d = Pathlib.parent (Pathlib.Path (Pathlib.to_str p)) /\
  (d = p <-> Pathlib.parts p = []) /\
  (forall r h', generate perform output_path image_size h = (Ok r, h') ->
     r = Pathlib.to_str p /\
     exists rest, trace h' = trace h ++ PathMkdir d true true :: rest ++ [ImageSave r]) /\
  (Pathlib.parts p = [] ->
   In (Pathlib.to_str p) [lit "."; lit "/"; lit "//"] /\
   splitext_ext (Pathlib.to_str p) = [] /\
   ((forall w fp, splitext_ext fp = [] -> exists e, perform (ImageSave fp) w = Err e) ->
    exists e h', generate perform output_path image_size h = (Err e, h'))).
Proof.
  intros p d.
  split; [apply parent_normal, Path_normal |].
  split; [unfold d, p; rewrite Path_idempotent; reflexivity |].
  split; [apply parent_fixed |].
  split.
  - intros r h' H.
    destruct (generate_shape perform output_path image_size h) as [Hok _].
    destruct (Hok r h' H) as (-> & _ & draws & Ht & _).
    split; [reflexivity |].
    exists ([ImageNew (lit "RGB") (image_size, image_size) (background (colors (self h)));
             ImageDrawDraw] ++ draws).
    exact Ht.
  - intros Hparts.
    assert (In (Pathlib.to_str p) [lit "."; lit "/"; lit "//"]) as Hin.
    { destruct (Path_normal output_path) as [Hroot _]. fold p in Hroot.
      unfold Pathlib.to_str. rewrite Hparts.
      destruct Hroot as [-> | [-> | ->]]; cbn; auto. }
    assert (splitext_ext (Pathlib.to_str p) = []) as Hext.
    { destruct Hin as [<- | [<- | [<- | []]]]; reflexivity. }
    split; [exact Hin |]. split; [exact Hext |].
    intros Hrefuses.
    destruct (generate_calls_shape (self h) output_path image_size)
      as (draws & Hcalls & _).
    pose proof (generate_run perform output_path image_size h) as Hrun.
    cbv zeta in Hrun. rewrite Hcalls, app_assoc in Hrun.
    destruct (run_calls perform _ (world h)) as [final | done failed error final] eqn:E.
    + apply run_calls_last in E as [w' Hw']. fold p in Hw'.
      destruct (Hrefuses w' _ Hext) as [e He]. congruence.
    + eauto.
Qed.

End GenerateDirectory.

Lemma X18_generate_directory_witness :
  exists g h',
    __init__ ascii_lower None (lit "crown") (lit "solver123") = Ok g /\
    Pathlib.parts (Pathlib.Path []) = [] /\
    generate pillow [] 512 {| self := g; world := tt; trace := [] |}
    = (Err (ValueError (lit "unknown file extension: ")), h') /\
    trace h' !! 0%nat = Some (PathMkdir (Pathlib.Path (lit ".")) true true).
Proof.
  destruct (__init__ ascii_lower None (lit "crown") (lit "solver123"))
    as [g |] eqn:Hg; [| vm_compute in Hg; discriminate Hg].
  exists g.
  destruct (X18_generate_directory pillow [] 512 {| self := g; world := tt; trace := [] |})
    as (_ & _ & _ & _ & Hnofile).
  destruct (Hnofile eq_refl) as (_ & _ & Hraises).
  destruct (Hraises (fun w fp => pillow_refuses_no_extension fp w)) as (e & h' & Hrun).
  assert (fst (generate pillow [] 512 {| self := g; world := tt; trace := [] |})
          = Err (ValueError (lit "unknown file extension: ")) /\
          trace (snd (generate pillow [] 512 {| self := g; world := tt; trace := [] |}))
            !! 0%nat = Some (PathMkdir (Pathlib.Path (lit ".")) true true))
    as [Herror Hfirst]
    by (vm_compute in Hg; injection Hg as <-; split; vm_compute; reflexivity).
  rewrite Hrun in Herror, Hfirst. cbn [fst snd] in Herror, Hfirst.
  injection Herror as ->.
  exists h'. split; [reflexivity |]. split; [reflexivity |]. split; [exact Hrun |].
  exact Hfirst.
Defined.

(** ** [FrequencyMapper], further *)

Section FrequencyMapperMore.

Import FrequencyMapper.

Lemma first_in_range_In (items : list (str * (Q * Q))) (frequency : Q) (chakra : str) :
  first_in_range items frequency = Some chakra -> In chakra (map fst items).
Proof.
  intros H. apply first_in_range_some in H as (before & r & after & -> & _).
  rewrite List.map_app. apply List.in_or_app. right. left. reflexivity.
Qed.

Lemma first_in_range_holding (items : list (str * (Q * Q))) (frequency : Q) :
  first_in_range items frequency = head (map fst (holding items frequency)).
Proof.
  unfold holding. induction items as [| [c r] rest IH]; cbn; [reflexivity |].
  destruct (in_range r frequency); [reflexivity | exact IH].
Qed.

Lemma holding_Permutation (items items' : list (str * (Q * Q))) (frequency : Q) :
  Permutation items items' ->
  Permutation (holding items frequency) (holding items' frequency).
Proof.
  unfold holding. induction 1 as [| x l l' _ IH | x y l | l l' l'' _ IH1 _ IH2]; cbn.
  - constructor.
  - destruct (in_range (snd x) frequency); [constructor |]; exact IH.
  - destruct (in_range (snd x) frequency), (in_range (snd y) frequency);
      try reflexivity. constructor.
  - etransitivity; eassumption.
Qed.

End FrequencyMapperMore.

Section NumberFacts.

Import FrequencyMapper.

(** On a number with an exact value, the loop is the loop on
    rationals; on the three others no range holds. *)
Lemma first_holding_exact (items : list (str * (Q * Q))) (q : Q) :
  first_holding items (Exact q) = first_in_range items q.
Proof.
  induction items as [| [c r] rest IH]; cbn; [reflexivity |].
  unfold in_range. rewrite IH. reflexivity.
Qed.

Lemma first_holding_inexact (items : list (str * (Q * Q))) (x : number) :
  (forall q, x <> Exact q) -> first_holding items x = None.
Proof.
  intros Hx. induction items as [| [c r] rest IH]; cbn; [reflexivity |].
  rewrite IH. destruct x as [q | | |]; cbn; try reflexivity.
  exfalso. exact (Hx q eq_refl).
Qed.

End NumberFacts.


(** X20: looking up what the mapper returned. A chakra that
    [map_frequency_to_chakra] returns is a key of [chakra_mappings]; so
    where every such key has a breath pattern and a visualization, the two
    lookups on the result return the tables' entries, never the defaults.
    When no range holds the frequency, the result is [None] and both
    lookups return their defaults. *)
Theorem X20_lookups_after_mapping (m : FrequencyMapper.t) (frequency : Q) :
  (forall c, In c (map fst (FrequencyMapper.chakra_mappings m)) ->
             is_Some (FrequencyMapper.breath_patterns m !! c) /\
             is_Some (FrequencyMapper.visualizations m !! c)) ->
  let chakra := FrequencyMapper.map_frequency_to_chakra m frequency in
  match chakra with
  | Some c =>
      In c (map fst (FrequencyMapper.chakra_mappings m)) /\
      FrequencyMapper.breath_patterns m !! c = Some (breath_pattern_of m chakra) /\
      FrequencyMapper.visualizations m !! c = Some (visualization_of m chakra)
  | None =>
      holding (FrequencyMapper.chakra_mappings m) frequency = [] /\
      breath_pattern_of m chakra = lit "Default Pattern" /\
      visualization_of m chakra = lit "Default Visualization"
  end.
Proof.
  intros Hkeys chakra. subst chakra.
  destruct (FrequencyMapper.map_frequency_to_chakra m frequency) as [c |] eqn:Hc.
  - unfold FrequencyMapper.map_frequency_to_chakra in Hc.
    apply first_in_range_In in Hc. split; [exact Hc |].
    destruct (Hkeys c Hc) as [[b Hb] [v Hv]].
    unfold breath_pattern_of, visualization_of,
      FrequencyMapper.get_breath_pattern_for_chakra,
      FrequencyMapper.get_visualization_for_chakra.
    rewrite Hb, Hv. auto.
  - split; [| auto].
    unfold FrequencyMapper.map_frequency_to_chakra in Hc.
    rewrite first_in_range_holding in Hc.
    destruct (holding (FrequencyMapper.chakra_mappings m) frequency); [reflexivity |].
    discriminate Hc.
Qed.

Lemma X20_lookups_after_mapping_witness :
  breath_pattern_of FrequencyMapper.frequency_mapper
    (FrequencyMapper.map_frequency_to_chakra FrequencyMapper.frequency_mapper (45 # 1))
  = lit "Fire Breath" /\
  visualization_of FrequencyMapper.frequency_mapper
    (FrequencyMapper.map_frequency_to_chakra FrequencyMapper.frequency_mapper (45 # 1))
  = lit "Yellow Radiant Sun".
Proof.
  assert (forall c,
            In c (map fst (FrequencyMapper.chakra_mappings FrequencyMapper.frequency_mapper)) ->
            is_Some (FrequencyMapper.breath_patterns FrequencyMapper.frequency_mapper !! c) /\
            is_Some (FrequencyMapper.visualizations FrequencyMapper.frequency_mapper !! c))
    as Hkeys.
  { intros c Hc. cbn in Hc.
    repeat (destruct Hc as [<- | Hc]; [split; vm_compute; eauto |]). contradiction. }
  pose proof (X20_lookups_after_mapping FrequencyMapper.frequency_mapper (45 # 1) Hkeys) as H.
  cbv zeta in H.
  destruct (FrequencyMapper.map_frequency_to_chakra FrequencyMapper.frequency_mapper
              (45 # 1)) as [c |] eqn:Hc; [| vm_compute in Hc; discriminate Hc].
  vm_compute in Hc. injection Hc as <-.
  destruct H as (_ & Hb & Hv).
  assert (FrequencyMapper.breath_patterns FrequencyMapper.frequency_mapper
            !! lit "Solar Plexus" = Some (lit "Fire Breath")) as Eb
    by (vm_compute; reflexivity).
  assert (FrequencyMapper.visualizations FrequencyMapper.frequency_mapper
            !! lit "Solar Plexus" = Some (lit "Yellow Radiant Sun")) as Ev
    by (vm_compute; reflexivity).
  pose proof (eq_trans (eq_sym Hb) Eb) as Hb'. pose proof (eq_trans (eq_sym Hv) Ev) as Hv'.
  split; [exact (Some_inj _ _ Hb') | exact (Some_inj _ _ Hv')].
Defined.

(** X21: the order of the items matters only where ranges overlap. When
    at most one range of the mapping holds the frequency, two mappers with
    the same items in different orders return the same chakra. *)
Theorem X21_order_irrelevant_without_overlap (m1 m2 : FrequencyMapper.t)
    (frequency : Q) :
  Permutation (FrequencyMapper.chakra_mappings m1) (FrequencyMapper.chakra_mappings m2) ->
  (length (holding (FrequencyMapper.chakra_mappings m1) frequency) <= 1)%nat ->
  FrequencyMapper.map_frequency_to_chakra m1 frequency
  = FrequencyMapper.map_frequency_to_chakra m2 frequency.
Proof.
  intros Hperm Hone. unfold FrequencyMapper.map_frequency_to_chakra.
  rewrite !first_in_range_holding.
  apply (holding_Permutation _ _ frequency) in Hperm.
  destruct (holding (FrequencyMapper.chakra_mappings m1) frequency) as [| x [| y l]].
  - apply Permutation_nil in Hperm. rewrite Hperm. reflexivity.
  - apply Permutation_length_1_inv in Hperm. rewrite Hperm. reflexivity.
  - cbn in Hone. lia.
Qed.

Lemma X21_order_irrelevant_without_overlap_witness :
  FrequencyMapper.map_frequency_to_chakra FrequencyMapper.frequency_mapper (45 # 1)
  = FrequencyMapper.map_frequency_to_chakra
      {| FrequencyMapper.chakra_mappings :=
           rev (FrequencyMapper.chakra_mappings FrequencyMapper.frequency_mapper);
         FrequencyMapper.breath_patterns := ∅;
         FrequencyMapper.visualizations := ∅ |} (45 # 1).
Proof.
  apply X21_order_irrelevant_without_overlap.
  - cbn [FrequencyMapper.chakra_mappings]. apply Permutation_rev.
  - vm_compute. lia.
Defined.
